(** * METIS: regression-model core, curve search and contribution decomposition

  A shallow embedding of the analytic core of the METIS marketing-mix
  tool (backend/src/linear_models.py, model_operations.py,
  curve_transformations.py, decomposition.py) together with the
  properties its specification states about it.

  Conventions of the embedding.
  - Floating-point numbers are modelled by exact rationals ([Qc], the
    canonical rationals, so that equality is Leibniz equality and the
    [ring] and [field] tactics apply).  Statements "within tolerance"
    are therefore proved as exact equalities of the idealised values.
  - A pandas [Series] over the model's index is the list of its values
    in index order; a [DataFrame] is a row count with an ordered
    dictionary of columns.
  - A Python [dict] that is iterated while (or before) being mutated is
    an insertion-ordered association list ([PyDict]); the dictionaries
    of [LinearModel] that are only looked up are [gmap]s.
  - [statsmodels]' [OLS(y, X).fit()] is a library call: it is a
    parameter of the development (an oracle that either raises or
    returns a results object). *)

From Stdlib Require Import QArith Qcanon Qcabs.
From stdpp Require Import base list strings gmap fin_maps sorting.

Local Open Scope Qc_scope.
Local Open Scope list_scope.

(** Closed decidable goals over concrete data are settled by evaluation. *)
Ltac by_compute :=
lazymatch goal with
| |- ¬ _ => apply (bool_decide_eq_false_1 _); vm_compute; reflexivity
| |- _ => apply (bool_decide_eq_true_1 _); vm_compute; reflexivity
end.

(** Numeric literals. *)
Definition qz (z : Z) : Qc := Qc_of_Z z.
Definition qf (n : Z) (d : positive) : Qc := Q2Qc (n # d).

(** * pandas Series *)

Module Series.

Abbreviation t := (list Qc).

(** [s.iloc[i]]; the positions read by the code are always in range. *)
Definition iloc (s : t) (i : nat) : Qc := default 0 (s !! i).

(** [pd.Series(c, index=data.index)] *)
Definition const (n : nat) (c : Qc) : t := replicate n c.

(** [c * s], [s * c] *)
Definition scale (c : Qc) (s : t) : t := (λ x, c * x) <$> s.

(** [s * c], [s / c] with a scalar on the right *)
Definition mul_scalar (s : t) (c : Qc) : t := (λ x, x * c) <$> s.
Definition div_scalar (s : t) (c : Qc) : t := (λ x, x / c) <$> s.

(** [s - c], [s + c] with a scalar *)
Definition sub_scalar (s : t) (c : Qc) : t := (λ x, x - c) <$> s.
Definition add_scalar (s : t) (c : Qc) : t := (λ x, x + c) <$> s.

(** [a + b], [a - b] for two series over the same index *)
Definition add (a b : t) : t := zip_with Qcplus a b.
Definition sub (a b : t) : t := zip_with Qcminus a b.

Definition qmin (x y : Qc) : Qc := if decide (x ≤ y) then x else y.
Definition qmax (x y : Qc) : Qc := if decide (x ≤ y) then y else x.

(** [s.min()], [s.max()]; pandas answers NaN on an empty series, which
    has no rational counterpart: the model answers 0 there. *)
Definition min (s : t) : Qc :=
  match s with [] => 0 | x :: r => foldl qmin x r end.
Definition max (s : t) : Qc :=
  match s with [] => 0 | x :: r => foldl qmax x r end.

(** Sum of [f] over a list. *)
Definition qsum {A} (f : A → Qc) (l : list A) : Qc := foldr (λ x acc, f x + acc) 0 l.

End Series.


(** * Carry-over (adstock) transform: model_operations.apply_adstock *)

Module Adstock.

Import Series.

(** Body of the loop: [result.iloc[i] = float(series.iloc[i]) +
    adstock_rate * result.iloc[i-1]]. *)
Definition adstock_step (series : Series.t) (adstock_rate : Qc)
    (result : Series.t) (i : nat) : Series.t :=
  <[i := iloc series i + adstock_rate * iloc result (i - 1)]> result.

(** [apply_adstock(series, adstock_rate)]: rate 0 returns the argument
    itself; otherwise a copy is updated for [i in range(1, len(result))]. *)
Definition apply_adstock (series : Series.t) (adstock_rate : Qc) : Series.t :=
  if decide (adstock_rate = 0) then series
  else foldl (adstock_step series adstock_rate) series
             (seq 1 (length series - 1)).

(** The recurrence the specification gives for ADSTOCK(rate). *)
Definition is_adstock_of (x : Series.t) (rate : Qc) (y : Series.t) : Prop :=
  length y = length x ∧
  y !! 0%nat = x !! 0%nat ∧
  ∀ i, (0 < i < length x)%nat → y !! i = Some (iloc x i + rate * iloc y (i - 1)).

End Adstock.

(** * Python dictionaries (insertion ordered) *)

Module PyDict.

Section dict.
Context {V : Type}.

(** [d.get(k)]: the value bound to the first (and, in a dictionary, only)
    occurrence of [k]. *)
Fixpoint get (k : string) (d : list (string * V)) : option V :=
  match d with
  | [] => None
  | (k', v) :: r => if decide (k' = k) then Some v else get k r
  end.

(** [k in d] *)
Definition mem (k : string) (d : list (string * V)) : bool :=
  bool_decide (is_Some (get k d)).

(** [d[k] = v]: an existing key keeps its position, a new key goes last. *)
Fixpoint set (k : string) (v : V) (d : list (string * V)) : list (string * V) :=
  match d with
  | [] => [(k, v)]
  | (k', v') :: r =>
      if decide (k' = k) then (k, v) :: r else (k', v') :: set k v r
  end.

(** [del d[k]] (the code only deletes keys it has found). *)
Fixpoint del (k : string) (d : list (string * V)) : list (string * V) :=
  match d with
  | [] => []
  | (k', v') :: r => if decide (k' = k) then r else (k', v') :: del k r
  end.

Definition keys (d : list (string * V)) : list string := d.*1.
Definition values (d : list (string * V)) : list V := d.*2.

End dict.

End PyDict.

(** * pandas DataFrame *)

Module Frame.

(** A frame over an index of [nrows] rows with named columns, in column
    order. *)
Record DataFrame := mkFrame {
  nrows : nat;
  columns : list (string * Series.t)
}.

#[global] Instance DataFrame_eq_dec : EqDecision DataFrame.
Proof. solve_decision. Defined.

(** [pd.DataFrame(index=idx)] *)
Definition empty (n : nat) : DataFrame := mkFrame n [].

(** [df[name] = s] *)
Definition assign (name : string) (s : Series.t) (df : DataFrame) : DataFrame :=
  mkFrame (nrows df) (PyDict.set name s (columns df)).

(** A column that the library takes for a constant: all its values
    are equal and not 0. *)
Definition is_constant (s : Series.t) : bool :=
  match s with
  | [] => false
  | x :: r => bool_decide (x ≠ 0) && bool_decide (Forall (eq x) r)
  end.

Definition has_constant (cols : list (string * Series.t)) : bool :=
  existsb (λ c, is_constant c.2) cols.

(** [sm.add_constant(X)] (with the default [has_constant='skip']): a
    leading column ["const"] of ones, unless [X] already holds a
    constant column. *)
Definition add_constant (X : DataFrame) : DataFrame :=
  if has_constant (columns X) then X
  else mkFrame (nrows X) (("const", Series.const (nrows X) 1) :: columns X).

(** Every column has one value per row. *)
Definition all_length (n : nat) (cols : list (string * Series.t)) : Prop :=
  Forall (λ c, length c.2 = n) cols.

Definition wf (df : DataFrame) : Prop := all_length (nrows df) (columns df).

End Frame.

(** * Exceptions and mutable objects *)

Module Py.

Inductive exn :=
| KeyError (key : string)
| TypeError
| AttributeError
| ValueError (msg : string)
| FitError.

Inductive outcome (A : Type) :=
| Ok (a : A)
| Raise (e : exn).
Arguments Ok {A} a.
Arguments Raise {A} e.

#[global] Instance exn_eq_dec : EqDecision exn.
Proof. solve_decision. Defined.

#[global] Instance outcome_eq_dec {A} `{EqDecision A} : EqDecision (outcome A).
Proof. solve_decision. Defined.

(** A method of an object of state [S]: it returns or raises, and leaves
    the object in the state reached when it did. *)
Record M (S A : Type) := mkM { run : S → outcome A * S }.
Arguments mkM {S A} run.
Arguments run {S A} m s.

Definition ret {S A} (a : A) : M S A := mkM (λ s, (Ok a, s)).

Definition bind {S A B} (c : M S A) (k : A → M S B) : M S B :=
  mkM (λ s, match run c s with
            | (Ok a, s') => run (k a) s'
            | (Raise e, s') => (Raise e, s')
            end).

Definition raise {S A} (e : exn) : M S A := mkM (λ s, (Raise e, s)).
Definition self {S} : M S S := mkM (λ s, (Ok s, s)).
Definition modify {S} (f : S → S) : M S unit := mkM (λ s, (Ok tt, f s)).
Definition lift {S A} (o : outcome A) : M S A := mkM (λ s, (o, s)).

(** [try: body except Exception as e: handler] *)
Definition try_except {S A} (body : M S A) (handler : exn → M S A) : M S A :=
  mkM (λ s, match run body s with
            | (Ok a, s') => (Ok a, s')
            | (Raise e, s') => run (handler e) s'
            end).

(** [for x in xs: body x] *)
Fixpoint for_each {S A} (xs : list A) (body : A → M S unit) : M S unit :=
  match xs with
  | [] => ret tt
  | x :: r => bind (body x) (λ _, for_each r body)
  end.

(** A loop that threads a local variable. *)
Fixpoint fold_each {S A B} (xs : list A) (body : B → A → M S B) (b : B) : M S B :=
  match xs with
  | [] => ret b
  | x :: r => bind (body b x) (fold_each r body)
  end.

#[global] Instance M_ret {S} : MRet (M S) := λ A, ret.
#[global] Instance M_bind {S} : MBind (M S) := λ A B k c, bind c k.

End Py.

(** * statsmodels: regression problems and their fitted results *)

Module Stats.

Import Frame Py.

(** [sm.OLS(y, X)]: the regression problem, not yet fitted. *)
Record OLS := mkOLS {
  endog : Series.t;
  exog : DataFrame
}.

(** What the code reads of a results object: the coefficient vector
    [params] (indexed by the design's column names) and statistics of
    the fit, of which [rsquared] and [fittedvalues] are kept here; the
    standard errors, t- and p-values travel with the object in the same
    way.  The object is a wrapper around the library's own results:
    [wrapped_params] is the coefficient vector of the wrapped results,
    which the library's methods (such as [predict]) compute with, and
    which an assignment to [results.params] does not reach. *)
Record RegressionResults := mkWrapper {
  params : list (string * Qc);
  rsquared : Qc;
  fittedvalues : Series.t;
  wrapped_params : list (string * Qc)
}.

(** The results of a fit as the library returns them: the wrapper shows
    the coefficients of the wrapped results. *)
Definition mkResults (p : list (string * Qc)) (r2 : Qc) (fitted : Series.t) : RegressionResults :=
  mkWrapper p r2 fitted p.

#[global] Instance OLS_eq_dec : EqDecision OLS.
Proof. solve_decision. Defined.

#[global] Instance RegressionResults_eq_dec : EqDecision RegressionResults.
Proof. solve_decision. Defined.

(** [results.params = p]: only the coefficient vector shown by the
    wrapper is replaced. *)
Definition with_params (p : list (string * Qc)) (r : RegressionResults) : RegressionResults :=
  mkWrapper p (rsquared r) (fittedvalues r) (wrapped_params r).

(** [model.fit()] is the library's: it raises or returns results. *)
Definition fitter := OLS → outcome RegressionResults.

(** [results.predict(X)]: the product of the rows of [X] with the
    coefficient vector of the wrapped results, matched by position; it
    raises when the numbers of columns and of coefficients differ. *)
Definition linear_combination (n : nat) (p : list (string * Qc)) (cols : list (string * Series.t)) : Series.t :=
  foldl (λ acc pc, Series.add acc (Series.scale pc.1.2 pc.2.2))
        (Series.const n 0) (zip p cols).

Definition predict (r : RegressionResults) (X : DataFrame) : outcome Series.t :=
  if decide (length (wrapped_params r) = length (columns X))
  then Ok (linear_combination (nrows X) (wrapped_params r) (columns X))
  else Raise (ValueError "shapes not aligned").

End Stats.

(** * linear_models.LinearModel *)

Module LinearModels.

Import Frame Py Stats.

(** An entry of [model.wgtd_variables] (weighted_variables.py). *)
Record WgtdInfo := mkWgtd {
  base_name : string;
  components : option (list (string * Qc))
}.

(** The attributes of a [LinearModel] that its methods and the
    decomposition read or write ([name] and the date window are left
    out).  [loader] is the data loader's table of default transformation
    codes; [wgtd_variables] is attached to the object by
    weighted_variables.py and may be absent. *)
Record LinearModel := mkModel {
  data : option DataFrame;
  model_data : option DataFrame;
  kpi : option string;
  features : list string;
  feature_transformations : gmap string string;
  transformed_data : gmap string Series.t;
  model : option OLS;
  results : option RegressionResults;
  loader : option (gmap string string);
  fixed_coefficients : list (string * Qc);
  wgtd_variables : option (list (string * WgtdInfo))
}.

#[global] Instance WgtdInfo_eq_dec : EqDecision WgtdInfo.
Proof. solve_decision. Defined.

#[global] Instance LinearModel_eq_dec : EqDecision LinearModel.
Proof. solve_decision. Defined.

Definition set_features (v : list string) (m : LinearModel) : LinearModel :=
  mkModel (data m) (model_data m) (kpi m) v (feature_transformations m)
          (transformed_data m) (model m) (results m) (loader m)
          (fixed_coefficients m) (wgtd_variables m).

Definition set_feature_transformations (v : gmap string string) (m : LinearModel) : LinearModel :=
  mkModel (data m) (model_data m) (kpi m) (features m) v
          (transformed_data m) (model m) (results m) (loader m)
          (fixed_coefficients m) (wgtd_variables m).

Definition set_transformed_data (v : gmap string Series.t) (m : LinearModel) : LinearModel :=
  mkModel (data m) (model_data m) (kpi m) (features m) (feature_transformations m)
          v (model m) (results m) (loader m)
          (fixed_coefficients m) (wgtd_variables m).

Definition set_model (v : option OLS) (m : LinearModel) : LinearModel :=
  mkModel (data m) (model_data m) (kpi m) (features m) (feature_transformations m)
          (transformed_data m) v (results m) (loader m)
          (fixed_coefficients m) (wgtd_variables m).

Definition set_results (v : option RegressionResults) (m : LinearModel) : LinearModel :=
  mkModel (data m) (model_data m) (kpi m) (features m) (feature_transformations m)
          (transformed_data m) (model m) v (loader m)
          (fixed_coefficients m) (wgtd_variables m).

Definition set_fixed_coefficients (v : list (string * Qc)) (m : LinearModel) : LinearModel :=
  mkModel (data m) (model_data m) (kpi m) (features m) (feature_transformations m)
          (transformed_data m) (model m) (results m) (loader m)
          v (wgtd_variables m).

Definition set_model_data (v : option DataFrame) (m : LinearModel) : LinearModel :=
  mkModel (data m) v (kpi m) (features m) (feature_transformations m)
          (transformed_data m) (model m) (results m) (loader m)
          (fixed_coefficients m) (wgtd_variables m).

Definition set_wgtd_variables (v : option (list (string * WgtdInfo))) (m : LinearModel) : LinearModel :=
  mkModel (data m) (model_data m) (kpi m) (features m) (feature_transformations m)
          (transformed_data m) (model m) (results m) (loader m)
          (fixed_coefficients m) v.

(** Truth value of an optional string ([None] and [''] are false). *)
Definition truthy (o : option string) : bool :=
  match o with
  | Some s => bool_decide (s ≠ "")
  | None => false
  end.

(** [lst.remove(x)]: drops the first occurrence. *)
Fixpoint list_remove (x : string) (l : list string) : list string :=
  match l with
  | [] => []
  | y :: r => if decide (y = x) then r else y :: list_remove x r
  end.

(** [df[name]] *)
Definition column (df : DataFrame) (name : string) : outcome Series.t :=
  match PyDict.get name (columns df) with
  | Some s => Ok s
  | None => Raise (KeyError name)
  end.

(** [y = self.model_data[self.kpi]] *)
Definition target (m : LinearModel) : outcome Series.t :=
  match model_data m, kpi m with
  | Some df, Some k => column df k
  | None, _ => Raise TypeError
  | Some _, None => Raise (KeyError "None")
  end.

(** [self.transformed_data[feat] if feat in self.transformed_data else
    self.model_data[feat]] *)
Definition feature_values (m : LinearModel) (feat : string) : outcome Series.t :=
  match transformed_data m !! feat with
  | Some s => Ok s
  | None =>
      match model_data m with
      | Some df => column df feat
      | None => Raise TypeError
      end
  end.

(** [for feat in feats: X[feat] = ...] *)
Fixpoint fill_features (m : LinearModel) (feats : list string) (X : DataFrame) : outcome DataFrame :=
  match feats with
  | [] => Ok X
  | feat :: r =>
      match feature_values m feat with
      | Ok s => fill_features m r (assign feat s X)
      | Raise e => Raise e
      end
  end.

(** [s.mean()] (0 stands for the NaN of an empty series). *)
Definition mean (s : Series.t) : Qc :=
  foldl Qcplus 0 s / Qc_of_Z (Z.of_nat (length s)).

(** [X['const'] = 1.0] followed by the feature columns. *)
Definition full_design (m : LinearModel) (n : nat) : outcome DataFrame :=
  fill_features m (features m) (assign "const" (Series.const n 1) (Frame.empty n)).

(** [X = pd.DataFrame(index=y.index)], the feature columns, then
    [sm.add_constant(X)]. *)
Definition design (m : LinearModel) (feats : list string) (n : nat) : outcome DataFrame :=
  match fill_features m feats (Frame.empty n) with
  | Ok X => Ok (add_constant X)
  | Raise e => Raise e
  end.

Section methods.

(** The library's least-squares fit. *)
Variable fit : fitter.

(** [self.model = sm.OLS(y, X); self.results = self.model.fit()] *)
Definition fit_and_store (y : Series.t) (X : DataFrame) : M LinearModel unit :=
  modify (set_model (Some (mkOLS y X))) ;;
  r ← lift (fit (mkOLS y X));
  modify (set_results (Some r)).

(** The block shared by [_refit_model], [add_feature], [remove_feature]
    and the unconstrained branch of
    [_refit_model_with_fixed_coefficients]: build [y] and [X] from the
    current features and fit. *)
Definition fit_current_features : M LinearModel unit :=
  m ← self;
  y ← lift (target m);
  X ← lift (design m (features m) (length y));
  fit_and_store y X.

(** [_apply_transformation(feature_name, transformation)] *)
Definition _apply_transformation (feature_name transformation : string) : M LinearModel unit :=
  m ← self;
  match model_data m with
  | None => raise TypeError
  | Some df =>
      match PyDict.get feature_name (columns df) with
      | None => ret tt
      | Some original_data =>
          let transformed :=
            if decide (transformation = "STA") then
              if decide (mean original_data ≠ 0)
              then Series.div_scalar original_data (mean original_data)
              else original_data
            else if decide (transformation = "SUB") then
              Series.sub_scalar original_data (mean original_data)
            else if decide (transformation = "MDV") then
              match kpi m with
              | Some k =>
                  match PyDict.get k (columns df) with
                  | Some kpi_data =>
                      if truthy (kpi m) && bool_decide (mean kpi_data ≠ 0)
                      then Series.div_scalar original_data (mean kpi_data)
                      else original_data
                  | None => original_data
                  end
              | None => original_data
              end
            else original_data in
          modify (λ m, set_transformed_data (<[feature_name := transformed]> (transformed_data m)) m)
      end
  end.

(** [_refit_model()] *)
Definition _refit_model (m : LinearModel) : LinearModel :=
  if bool_decide (features m = []) || negb (truthy (kpi m)) then m
  else (run (try_except fit_current_features (λ _, ret tt)) m).2.

(** [initialize_model()]: the intercept-only fit. *)
Definition initialize_model_try : M LinearModel unit :=
  m ← self;
  y ← lift (target m);
  fit_and_store y (add_constant (Frame.empty (length y))).

Definition initialize_model : M LinearModel unit :=
  m ← self;
  match kpi m with
  | None => ret tt
  | Some _ => try_except initialize_model_try (λ _, ret tt)
  end.

(** The [try] block of [add_feature]. *)
Definition add_feature_try (feature_name : string) (transformation : option string) : M LinearModel unit :=
  m ← self;
  let transformation :=
    match transformation, loader m with
    | None, Some table => table !! feature_name
    | _, _ => transformation
    end in
  (if truthy transformation then
     let code := default "" transformation in
     modify (λ m, set_feature_transformations (<[feature_name := code]> (feature_transformations m)) m) ;;
     _apply_transformation feature_name code
   else ret tt) ;;
  modify (λ m, set_features (features m ++ [feature_name]) m) ;;
  fit_current_features.

(** The [except] block of [add_feature]. *)
Definition add_feature_except (feature_name : string) : M LinearModel unit :=
  modify (λ m, if bool_decide (feature_name ∈ features m)
               then set_features (list_remove feature_name (features m)) m else m) ;;
  modify (λ m, set_feature_transformations (delete feature_name (feature_transformations m)) m) ;;
  modify (λ m, set_transformed_data (delete feature_name (transformed_data m)) m).

(** [add_feature(feature_name, transformation=None)]; it returns [self]
    and lets no exception escape. *)
Definition add_feature (feature_name : string) (transformation : option string) (m : LinearModel) : LinearModel :=
  match model_data m, kpi m with
  | Some df, Some k =>
      if negb (PyDict.mem feature_name (columns df)) then m
      else if bool_decide (feature_name = k) then m
      else if bool_decide (feature_name ∈ features m) then m
      else (run (try_except (add_feature_try feature_name transformation)
                            (λ _, add_feature_except feature_name)) m).2
  | _, _ => m
  end.

(** The [try] block of [remove_feature]. *)
Definition remove_feature_try (feature_name : string) : M LinearModel unit :=
  modify (λ m, set_features (list_remove feature_name (features m)) m) ;;
  modify (λ m, set_feature_transformations (delete feature_name (feature_transformations m)) m) ;;
  modify (λ m, set_transformed_data (delete feature_name (transformed_data m)) m) ;;
  m ← self;
  if bool_decide (features m = []) then initialize_model
  else fit_current_features.

(** [remove_feature(feature_name)] *)
Definition remove_feature (feature_name : string) (m : LinearModel) : LinearModel :=
  if bool_decide (feature_name ∈ features m)
  then (run (try_except (remove_feature_try feature_name) (λ _, ret tt)) m).2
  else m.

(** The loop over [self.fixed_coefficients.items()] that subtracts the
    fixed components from the target. *)
Definition subtract_fixed (m : LinearModel) (adjusted_y : Series.t) (item : string * Qc) : M LinearModel Series.t :=
  let '(var, coef) := item in
  if decide (var = "const") then ret (Series.sub_scalar adjusted_y coef)
  else if bool_decide (var ∈ features m) then
    var_data ← lift (feature_values m var);
    ret (Series.sub adjusted_y (Series.scale coef var_data))
  else ret adjusted_y.

(** [for var, coef in self.fixed_coefficients.items(): params[var] = coef] *)
Definition override_fixed (fixed : list (string * Qc)) (p : list (string * Qc)) : list (string * Qc) :=
  foldl (λ p item, PyDict.set item.1 item.2 p) p fixed.

(** Copy back the estimates of the auxiliary regression. *)
Definition copy_remaining (fixed : list (string * Qc)) (remaining_features : list string)
    (remaining_params : list (string * Qc)) (p : list (string * Qc)) : list (string * Qc) :=
  let p :=
    match PyDict.get "const" remaining_params with
    | Some c => if PyDict.mem "const" fixed then p else PyDict.set "const" c p
    | None => p
    end in
  foldl (λ p feat, match PyDict.get feat remaining_params with
                   | Some c => PyDict.set feat c p
                   | None => p
                   end) p remaining_features.

(** The [try] block of [_refit_model_with_fixed_coefficients]. *)
Definition refit_fixed_try : M LinearModel unit :=
  m ← self;
  y ← lift (target m);
  if bool_decide (fixed_coefficients m = []) then
    X ← lift (design m (features m) (length y));
    fit_and_store y X
  else
    adjusted_y ← fold_each (fixed_coefficients m) (subtract_fixed m) y;
    let remaining_features :=
      filter (λ f, PyDict.mem f (fixed_coefficients m) = false) (features m) in
    if bool_decide (remaining_features = []) && PyDict.mem "const" (fixed_coefficients m) then
      X ← lift (full_design m (length y));
      modify (set_model (Some (mkOLS y X))) ;;
      result ← lift (fit (mkOLS y X));
      let p := override_fixed (fixed_coefficients m) (params result) in
      modify (set_results (Some (with_params p result)))
    else
      X ← lift (fill_features m remaining_features (Frame.empty (length y)));
      let X := if PyDict.mem "const" (fixed_coefficients m) then X else add_constant X in
      remaining_results ← lift (fit (mkOLS adjusted_y X));
      X_full ← lift (full_design m (length y));
      modify (set_model (Some (mkOLS y X_full))) ;;
      r ← lift (fit (mkOLS y X_full));
      modify (set_results (Some r)) ;;
      let p := override_fixed (fixed_coefficients m) (params r) in
      let p := copy_remaining (fixed_coefficients m) remaining_features
                              (params remaining_results) p in
      modify (set_results (Some (with_params p r))).

(** [_refit_model_with_fixed_coefficients()] *)
Definition _refit_model_with_fixed_coefficients : M LinearModel unit :=
  m ← self;
  if bool_decide (features m = []) || negb (truthy (kpi m))
     || bool_decide (model_data m = None)
  then ret tt
  else try_except refit_fixed_try (λ _, ret tt).

(** [set_fixed_coefficient(variable_name, value)] *)
Definition set_fixed_coefficient (variable_name : string) (value : Qc) : M LinearModel unit :=
  m ← self;
  if bool_decide (variable_name ∉ features m) && bool_decide (variable_name ≠ "const")
  then raise (ValueError "Variable not in model features")
  else
    modify (λ m, set_fixed_coefficients (PyDict.set variable_name value (fixed_coefficients m)) m) ;;
    _refit_model_with_fixed_coefficients.

(** [unset_fixed_coefficient(variable_name)] *)
Definition unset_fixed_coefficient (variable_name : string) : M LinearModel unit :=
  m ← self;
  if PyDict.mem variable_name (fixed_coefficients m) then
    modify (λ m, set_fixed_coefficients (PyDict.del variable_name (fixed_coefficients m)) m) ;;
    _refit_model_with_fixed_coefficients
  else ret tt.

End methods.

(** Everything but the fitted state ([model], [results]) agrees. *)
Definition same_settings (m m' : LinearModel) : Prop :=
  data m' = data m ∧ model_data m' = model_data m ∧ kpi m' = kpi m ∧
  features m' = features m ∧
  feature_transformations m' = feature_transformations m ∧
  transformed_data m' = transformed_data m ∧ loader m' = loader m ∧
  fixed_coefficients m' = fixed_coefficients m ∧
  wgtd_variables m' = wgtd_variables m.

(** Every feature and the intercept carry a fixed coefficient. *)
Definition fully_fixed (m : LinearModel) : Prop :=
  (∀ f, f ∈ features m → PyDict.mem f (fixed_coefficients m) = true) ∧
  PyDict.mem "const" (fixed_coefficients m) = true.

End LinearModels.

(** * weighted_variables.create_weighted_variable_with_coefficients *)

Module WeightedVariables.

Import Frame Py Stats LinearModels.

(** [model.model_data[var_name] += coef * model.model_data[component_var]]
    for a component that is a column of the data. *)
Definition accumulate_component (var_name : string) (df : DataFrame) (item : string * Qc) : DataFrame :=
  match PyDict.get item.1 (columns df), PyDict.get var_name (columns df) with
  | Some component, Some current =>
      assign var_name (Series.add current (Series.scale item.2 component)) df
  | _, _ => df
  end.

(** The composite column is the weighted sum of its components; its
    definition is recorded in [model.wgtd_variables]. *)
Definition create_weighted_variable_with_coefficients
    (base_name : string) (coefficients : list (string * Qc)) (m : LinearModel) : LinearModel :=
  match coefficients, model_data m with
  | [], _ => m
  | _, None => m
  | _, Some df =>
      let var_name := base_name +:+ "|WGTD" in
      let df := assign var_name (Series.const (nrows df) 0) df in
      let df := foldl (accumulate_component var_name) df coefficients in
      set_wgtd_variables
        (Some (PyDict.set var_name (mkWgtd base_name (Some coefficients))
                          (default [] (wgtd_variables m))))
        (set_model_data (Some df) m)
  end.

End WeightedVariables.

(** * decomposition.calculate_decomposition *)

Module Decomposition.

Import Frame Py Stats LinearModels.

(** An entry of the group assignment: [{'Group': ..., 'Adjustment': ...}]. *)
Record GroupInfo := mkGroup {
  Group : string;
  Adjustment : option string
}.

#[global] Instance GroupInfo_eq_dec : EqDecision GroupInfo.
Proof. solve_decision. Defined.

(** [groups[var].get('Adjustment', '')] *)
Definition adjustment_of (g : GroupInfo) : string := default "" (Adjustment g).

(** The values of a variable: a series of ones for ['const'], the data
    column otherwise (if there is one). *)
Definition values_of (data : DataFrame) (var : string) : option Series.t :=
  if decide (var = "const") then Some (Series.const (nrows data) 1)
  else PyDict.get var (columns data).

(** Body of the first loop: variables without a coefficient or without
    data are skipped, [var_contributions[var] = coef * values]. *)
Definition contribution_step (coefficients : list (string * Qc)) (data : DataFrame)
    (var_contributions : list (string * Series.t)) (item : string * GroupInfo)
    : list (string * Series.t) :=
  let var := item.1 in
  match PyDict.get var coefficients with
  | None => var_contributions
  | Some coef =>
      match values_of data var with
      | None => var_contributions
      | Some values => PyDict.set var (Series.scale coef values) var_contributions
      end
  end.

Definition variable_contributions (coefficients : list (string * Qc)) (data : DataFrame)
    (groups : list (string * GroupInfo)) : list (string * Series.t) :=
  foldl (contribution_step coefficients data) [] groups.

(** [sum(abs(coef) for coef in components.values())] *)
Definition total_weight (components : list (string * Qc)) : Qc :=
  foldl (λ acc c, acc + Qcabs c.2) 0 components.

(** Body of the loop over the components of a weighted variable. *)
Definition expand_component (wgtd_var : string) (wgtd_contribution : Series.t) (tw : Qc)
    (st : list (string * Series.t) * list (string * GroupInfo)) (item : string * Qc)
    : list (string * Series.t) * list (string * GroupInfo) :=
  let component := item.1 in
  let component_contribution := Series.mul_scalar wgtd_contribution (item.2 / tw) in
  let var_contributions :=
    match PyDict.get component st.1 with
    | Some s => PyDict.set component (Series.add s component_contribution) st.1
    | None => PyDict.set component component_contribution st.1
    end in
  let groups :=
    match PyDict.get component st.2, PyDict.get wgtd_var st.2 with
    | None, Some g => PyDict.set component g st.2
    | _, _ => st.2
    end in
  (var_contributions, groups).

(** Body of the loop over [model.wgtd_variables.items()]. *)
Definition expand_weighted
    (st : list (string * Series.t) * list (string * GroupInfo)) (item : string * WgtdInfo)
    : list (string * Series.t) * list (string * GroupInfo) :=
  let wgtd_var := item.1 in
  match PyDict.get wgtd_var st.1 with
  | None => st
  | Some wgtd_contribution =>
      let comps := default [] (components item.2) in
      let tw := total_weight comps in
      if decide (0 < tw)
      then foldl (expand_component wgtd_var wgtd_contribution tw)
                 (PyDict.del wgtd_var st.1, st.2) comps
      else st
  end.

(** [if hasattr(model, 'wgtd_variables'): ...] *)
Definition process_weighted (m : LinearModel)
    (st : list (string * Series.t) * list (string * GroupInfo))
    : list (string * Series.t) * list (string * GroupInfo) :=
  match wgtd_variables m with
  | Some ws => foldl expand_weighted st ws
  | None => st
  end.

(** Body of the grouping loop; the state is [grouped_contributions] and
    [adjustment_values]. *)
Definition group_step (n : nat) (groups : list (string * GroupInfo))
    (st : list (string * Series.t) * list (string * Qc)) (item : string * Series.t)
    : list (string * Series.t) * list (string * Qc) :=
  let var := item.1 in
  let contribution := item.2 in
  match PyDict.get var groups with
  | None => st
  | Some g =>
      let group_name := Group g in
      let grouped :=
        if PyDict.mem group_name st.1 then st.1
        else PyDict.set group_name (Series.const n 0) st.1 in
      let current := default [] (PyDict.get group_name grouped) in
      if decide (adjustment_of g = "Min") then
        let min_value := Series.min contribution in
        (PyDict.set group_name
           (Series.add current (Series.sub_scalar contribution min_value)) grouped,
         PyDict.set var min_value st.2)
      else if decide (adjustment_of g = "Max") then
        let max_value := Series.max contribution in
        (PyDict.set group_name
           (Series.add current (Series.sub_scalar contribution max_value)) grouped,
         PyDict.set var max_value st.2)
      else
        (PyDict.set group_name (Series.add current contribution) grouped, st.2)
  end.

(** [sum(adjustment_values.values())] *)
Definition total_of (adjustment_values : list (string * Qc)) : Qc :=
  foldl Qcplus 0 (PyDict.values adjustment_values).

(** The reconciliation: [if 'Base' in grouped_contributions and
    adjustment_values:] add the total to every observation of Base. *)
Definition add_total_adjustment (grouped : list (string * Series.t))
    (adjustment_values : list (string * Qc)) : list (string * Series.t) :=
  match PyDict.get "Base" grouped, adjustment_values with
  | Some base_contribution, _ :: _ =>
      let total_adjustment := total_of adjustment_values in
      PyDict.set "Base"
        (foldl (λ b i, <[i := Series.iloc b i + total_adjustment]> b)
               base_contribution (seq 0 (length base_contribution)))
        grouped
  | _, _ => grouped
  end.

(** [data[names]] *)
Fixpoint select (data : DataFrame) (names : list string) : outcome (list (string * Series.t)) :=
  match names with
  | [] => Ok []
  | f :: r =>
      match column data f, select data r with
      | Ok s, Ok cols => Ok ((f, s) :: cols)
      | Raise e, _ => Raise e
      | _, Raise e => Raise e
      end
  end.

(** The [Predicted] column: [results.predict(sm.add_constant(data[features]))],
    or the stored in-sample prediction when that raises. *)
Definition predicted (m : LinearModel) (res : RegressionResults) (data : DataFrame) : Series.t :=
  match select data (features m) with
  | Ok cols =>
      match predict res (add_constant (mkFrame (nrows data) cols)) with
      | Ok p => p
      | Raise _ => fittedvalues res
      end
  | Raise _ => fittedvalues res
  end.

(** The grouped contributions and the recorded adjustments, before the
    reconciliation. *)
Definition grouped_and_adjustments (m : LinearModel) (res : RegressionResults)
    (data : DataFrame) (groups : list (string * GroupInfo))
    : list (string * Series.t) * list (string * Qc) :=
  let var_contributions := variable_contributions (params res) data groups in
  let st := process_weighted m (var_contributions, groups) in
  foldl (group_step (nrows data) st.2) ([], []) st.1.

(** [calculate_decomposition(model, groups)] *)
Definition calculate_decomposition (m : LinearModel) (groups : list (string * GroupInfo))
    : outcome DataFrame :=
  match model_data m, results m with
  | None, _ => Raise TypeError
  | Some _, None => Raise AttributeError
  | Some data, Some res =>
      match kpi m with
      | None => Raise (KeyError "None")
      | Some k =>
          match column data k with
          | Raise e => Raise e
          | Ok actual =>
              let contributions :=
                assign "Predicted" (predicted m res data)
                       (assign "Actual" actual (Frame.empty (nrows data))) in
              let ga := grouped_and_adjustments m res data groups in
              let grouped := add_total_adjustment ga.1 ga.2 in
              Ok (foldl (λ df g, assign g.1 g.2 df) contributions grouped)
          end
      end
  end.

(** The group columns of the output, and their sum at a timestamp. *)
Definition group_columns (out : DataFrame) : list (string * Series.t) :=
  filter (λ c, c.1 ≠ "Actual" ∧ c.1 ≠ "Predicted") (columns out).

Definition sum_at (cols : list (string * Series.t)) (t : nat) : Qc :=
  foldr (λ c acc, Series.iloc c.2 t + acc) 0 cols.

Definition value_at (cols : list (string * Series.t)) (name : string) (t : nat) : Qc :=
  Series.iloc (default [] (PyDict.get name cols)) t.

(** Every variable that has a contribution has a group. *)
Definition covered (vc : list (string * Series.t)) (groups : list (string * GroupInfo)) : Prop :=
  ∀ k, is_Some (PyDict.get k vc) → is_Some (PyDict.get k groups).

(** A model fitted on its data: the coefficient vector is indexed by
    ['const'] followed by the features, which are distinct columns of the
    data, and the target is a column too; the coefficients shown are
    those of the wrapped results (no fixed coefficient has overridden
    them), and no feature column is a constant other than 0 (the library
    would then add no intercept column). *)
Definition fitted_on (m : LinearModel) (res : RegressionResults) (data : DataFrame) : Prop :=
  results m = Some res ∧ model_data m = Some data ∧ wf data ∧
  (∃ k, kpi m = Some k ∧ is_Some (PyDict.get k (columns data))) ∧
  NoDup ("const" :: features m) ∧
  Forall (λ f, is_Some (PyDict.get f (columns data))) (features m) ∧
  PyDict.keys (params res) = "const" :: features m ∧
  wrapped_params res = params res ∧
  Forall (λ f, is_constant (default [] (PyDict.get f (columns data))) = false) (features m).

(** The group assignment covers the fitted variables. *)
Definition covers (groups : list (string * GroupInfo)) (m : LinearModel) : Prop :=
  Forall (λ v, is_Some (PyDict.get v groups)) ("const" :: features m).

(** No group is called like one of the two fixed columns of the output. *)
Definition group_names_free (groups : list (string * GroupInfo)) : Prop :=
  Forall (λ g : string * GroupInfo, Group g.2 ≠ "Actual" ∧ Group g.2 ≠ "Predicted") groups.

(** No component of a weighted variable has a negative coefficient. *)
Definition nonneg_weights (m : LinearModel) : Prop :=
  Forall (λ w : string * WgtdInfo,
            Forall (λ c : string * Qc, 0 ≤ c.2) (default [] (components w.2)))
         (default [] (wgtd_variables m)).

(** The reconciliation has somewhere to put what was subtracted: no
    adjustment was recorded, or a ["Base"] group received a
    contribution. *)
Definition reconcilable (m : LinearModel) (res : RegressionResults) (data : DataFrame)
    (groups : list (string * GroupInfo)) : Prop :=
  (grouped_and_adjustments m res data groups).2 = [] ∨
  is_Some (PyDict.get "Base" (grouped_and_adjustments m res data groups).1).

End Decomposition.

(** * curve_transformations: the grid search over curve parameters *)

Module CurveSearch.

(** What [test_curve_transform_model] computes numerically for one
    parameter triple: the name of the transformed variable, the
    coefficient, t- and p-value of the new term, the gain in R-squared
    and (ICP with alpha > 1) the switch point.  It involves real powers
    and two library fits, and is a parameter here; [None] stands for the
    calls that print an error and return [None]. *)
Record Evaluation := mkEvaluation {
  name : string;
  coef : Qc;
  t_stat : Qc;
  p_value : Qc;
  rsquared_increase : Qc;
  switch_point : option Qc
}.

(** A row of the results table (the columns kept for display). *)
Record CurveResult := mkCurve {
  Variable_ : string;
  Coefficient : Qc;
  T_stat : Qc;
  R2_Increase : Qc;
  Alpha : Qc;
  Beta : Qc;
  Gamma : Qc;
  Switch_Point : option Qc
}.

#[global] Instance CurveResult_eq_dec : EqDecision CurveResult.
Proof. solve_decision. Defined.

(** The order of [sort_values(['Alpha', 'Beta', 'Gamma'])]. *)
Definition key_le (r1 r2 : CurveResult) : Prop :=
  Alpha r1 < Alpha r2 ∨
  (Alpha r1 = Alpha r2 ∧
   (Beta r1 < Beta r2 ∨ (Beta r1 = Beta r2 ∧ Gamma r1 ≤ Gamma r2))).

#[global] Instance key_le_dec : RelDecision key_le.
Proof. intros r1 r2. unfold key_le. apply _. Defined.

(** The order the specification describes: larger [|t-stat|] first. *)
Definition tstat_desc (r1 r2 : CurveResult) : Prop := Qcabs (T_stat r2) ≤ Qcabs (T_stat r1).

#[global] Instance tstat_desc_dec : RelDecision tstat_desc.
Proof. intros r1 r2. unfold tstat_desc. apply _. Defined.

(** The tail of [generate_gamma_options]: [sorted(list(set(rounded_values)))]. *)
Definition gamma_values (rounded_values : list Qc) : list Qc :=
  merge_sort Qcle (remove_dups rounded_values).

(** The three nested loops over the parameter lists. *)
Definition grid (alphas betas gamma_options : list Qc) : list (Qc * Qc * Qc) :=
  alpha ← alphas; beta ← betas; gamma ← gamma_options; [(alpha, beta, gamma)].

Section search.

Variable evaluate : Qc → Qc → Qc → option Evaluation.

(** [test_curve_transform_model(model, variable_name, curve, alpha, beta,
    gamma, curve_type)] for a fixed model, variable and curve. *)
Definition test_curve_transform_model (abg : Qc * Qc * Qc) : option CurveResult :=
  match evaluate abg.1.1 abg.1.2 abg.2 with
  | Some e =>
      Some (mkCurve (name e) (coef e) (t_stat e) (rsquared_increase e)
                    abg.1.1 abg.1.2 abg.2 (switch_point e))
  | None => None
  end.

(** [results]: the candidates that returned a result, in loop order. *)
Definition successful (alphas betas gamma_options : list Qc) : list CurveResult :=
  omap test_curve_transform_model (grid alphas betas gamma_options).

(** The table that is displayed and stored: the results sorted by
    Alpha, Beta and Gamma. *)
Definition curve_search (alphas betas rounded_values : list Qc) : list CurveResult :=
  merge_sort key_le (successful alphas betas (gamma_values rounded_values)).

(** [test_icp_internal]: alphas 3, 4 and betas 3, 4, 5. *)
Definition test_icp_internal (rounded_values : list Qc) : list CurveResult :=
  curve_search [qz 3; qz 4] [qz 3; qz 4; qz 5] rounded_values.

(** [test_adbug_internal]: alphas 0.8, 0.9, 1.0 and betas 2, 3, 4. *)
Definition test_adbug_internal (rounded_values : list Qc) : list CurveResult :=
  curve_search [qf 4 5; qf 9 10; 1] [qz 2; qz 3; qz 4] rounded_values.

End search.

(** An evaluation whose t-statistic grows with alpha. *)
Definition rising_tstat : Qc → Qc → Qc → option Evaluation :=
  λ alpha beta gamma, Some (mkEvaluation "TV|ICP" 1 alpha (qf 1 100) (qf 1 10) None).

(** An evaluation that fails for beta = 4. *)
Definition failing_beta_4 : Qc → Qc → Qc → option Evaluation :=
  λ alpha beta gamma,
    if decide (beta = qz 4) then None
    else Some (mkEvaluation "TV|ICP" 1 (- gamma) (qf 1 100) (qf 1 10) None).

End CurveSearch.

(** * A reference least-squares solver

    The theorems below hold for every behaviour of the library's
    [fit]; the examples instantiate it with this solver.  On a design
    of full column rank it solves the normal equations exactly; on a
    rank-deficient design it answers, as the library's pseudo-inverse
    does, the least-squares solution of least norm.  R-squared is
    centred when the design holds a constant column; a constant that is
    only a combination of several columns is not looked for. *)

Module ExactOLS.

Import Frame Py Stats.

Definition dot (a b : list Qc) : Qc := foldl Qcplus 0 (zip_with Qcmult a b).

(** The first row with a non-zero entry in column [j], and the others. *)
Fixpoint find_pivot (j : nat) (rows : list (list Qc)) : option (list Qc * list (list Qc)) :=
  match rows with
  | [] => None
  | r :: rs =>
      if decide (Series.iloc r j ≠ 0) then Some (r, rs)
      else match find_pivot j rs with
           | Some (p, rest) => Some (p, r :: rest)
           | None => None
           end
  end.

(** Gauss-Jordan elimination of the columns [j, j+1, ...] ([k] of them). *)
Fixpoint eliminate (k j : nat) (solved todo : list (list Qc)) : option (list (list Qc)) :=
  match k with
  | O => Some solved
  | S k' =>
      match find_pivot j todo with
      | None => None
      | Some (p, rest) =>
          let p' := (λ x, x / Series.iloc p j) <$> p in
          let clear r := zip_with (λ x y, x - Series.iloc r j * y) r p' in
          eliminate k' (S j) ((clear <$> solved) ++ [p']) (clear <$> rest)
      end
  end.

Definition normal_equations (y : Series.t) (cols : list Series.t) : list (list Qc) :=
  (λ ci, ((λ cj, dot ci cj) <$> cols) ++ [dot ci y]) <$> cols.

Definition solve (y : Series.t) (cols : list Series.t) : option (list Qc) :=
  match eliminate (length cols) 0 [] (normal_equations y cols) with
  | Some rows => Some ((λ r : list Qc, Series.iloc r (length cols)) <$> rows)
  | None => None
  end.

(** Row reduction that passes over a column without pivot; every
    reduced row is kept with the column of its pivot. *)
Fixpoint reduce (k j : nat) (solved : list (nat * list Qc)) (todo : list (list Qc))
    : list (nat * list Qc) :=
  match k with
  | O => solved
  | S k' =>
      match find_pivot j todo with
      | None => reduce k' (S j) solved todo
      | Some (p, rest) =>
          let p' := (λ x, x / Series.iloc p j) <$> p in
          let clear r := zip_with (λ x y, x - Series.iloc r j * y) r p' in
          reduce k' (S j) (((λ r, (r.1, clear r.2)) <$> solved) ++ [(j, p')]) (clear <$> rest)
      end
  end.

(** The least-squares solution of least norm: it lies in the range of
    [G = X'X], so it is [G w] for a solution [w] of [G G w = X'y]; the
    unknowns that the reduction leaves free are set to 0. *)
Definition min_norm_solve (y : Series.t) (cols : list Series.t) : list Qc :=
  let G := (λ ci, (λ cj, dot ci cj) <$> cols) <$> cols in
  let b := (λ ci, dot ci y) <$> cols in
  let GG := (λ gi, (λ gj, dot gi gj) <$> G) <$> G in
  let rows := reduce (length cols) 0 [] (zip_with (λ r x, r ++ [x]) GG b) in
  let w := (λ j, from_option (λ r : nat * (nat * list Qc), Series.iloc r.2.2 (length cols)) 0
                             (list_find (λ r : nat * list Qc, r.1 = j) rows))
           <$> seq 0 (length cols) in
  (λ gi, dot gi w) <$> G.

Definition sum_sq (s : Series.t) : Qc := dot s s.

Definition exact_ols : fitter := λ problem,
  let y := endog problem in
  let X := exog problem in
  let beta :=
    match solve y (columns X).*2 with
    | Some beta => beta
    | None => min_norm_solve y (columns X).*2
    end in
  let p := zip (columns X).*1 beta in
  let fitted := linear_combination (nrows X) p (columns X) in
  let ssr := sum_sq (Series.sub y fitted) in
  let tss :=
    if has_constant (columns X)
    then sum_sq (Series.sub_scalar y (LinearModels.mean y))
    else sum_sq y in
  Ok (mkResults p (1 - ssr / tss) fitted).

(** R-squared of a given coefficient vector on a problem with an
    intercept: [1 - SSR/SST] with the residuals [y - X p]. *)
Definition rsquared_of_params (y : Series.t) (X : DataFrame) (p : list (string * Qc)) : Qc :=
  1 - sum_sq (Series.sub y (linear_combination (nrows X) p (columns X)))
      / sum_sq (Series.sub_scalar y (LinearModels.mean y)).

End ExactOLS.

(** * Example data *)

Module Fixtures.

Import Frame Py Stats LinearModels ExactOLS.

(** Four weekly rows. *)
Definition df : DataFrame :=
  mkFrame 4 [("Sales", [qz 3; qz 5; qz 7; qz 10]);
             ("TV", [qz 1; qz 2; qz 3; qz 4]);
             ("Radio", [qz 2; qz 1; qz 4; qz 3]);
             ("Ones", [qz 1; qz 1; qz 1; qz 1])].

(** A model bound to the data and to the target ["Sales"]. *)
Definition m_unfitted : LinearModel :=
  mkModel (Some df) (Some df) (Some "Sales") [] ∅ ∅ None None None [] None.

(** After [initialize_model()]. *)
Definition m_init : LinearModel := (run (initialize_model exact_ols) m_unfitted).2.

(** After [add_feature("TV")]. *)
Definition m_tv : LinearModel := add_feature exact_ols "TV" None m_init.

(** After [set_fixed_coefficient("TV", 2)]. *)
Definition m_tv_fixed : LinearModel :=
  (run (set_fixed_coefficient exact_ols "TV" (qz 2)) m_tv).2.

(** After [set_fixed_coefficient("const", 0)] on top of it: every
    coefficient of the model is now fixed. *)
Definition m_all_fixed : LinearModel :=
  (run (set_fixed_coefficient exact_ols "const" 0) m_tv_fixed).2.

(** A group assignment without a ["Base"] group, with a Min adjustment. *)
Definition groups_no_base : list (string * Decomposition.GroupInfo) :=
  [("const", Decomposition.mkGroup "Baseline" (Some ""));
   ("TV", Decomposition.mkGroup "Media" (Some "Min"))].

(** The same assignment with the intercept in ["Base"]. *)
Definition groups_base : list (string * Decomposition.GroupInfo) :=
  [("const", Decomposition.mkGroup "Base" (Some ""));
   ("TV", Decomposition.mkGroup "Media" (Some "Min"))].

(** Scenario C: the composite [2 * TV - 1 * Radio], fitted as the only
    feature and assigned to one group. *)
Definition m_wgtd : LinearModel :=
  add_feature exact_ols "Media|WGTD" None
    (WeightedVariables.create_weighted_variable_with_coefficients
       "Media" [("TV", qz 2); ("Radio", qz (-1))] m_init).

Definition groups_wgtd : list (string * Decomposition.GroupInfo) :=
  [("const", Decomposition.mkGroup "Base" (Some ""));
   ("Media|WGTD", Decomposition.mkGroup "Media" (Some ""))].

(** A composite with non-negative weights, [2 * TV + 1 * Radio]. *)
Definition m_wgtd_pos : LinearModel :=
  add_feature exact_ols "Mix|WGTD" None
    (WeightedVariables.create_weighted_variable_with_coefficients
       "Mix" [("TV", qz 2); ("Radio", qz 1)] m_init).

Definition groups_wgtd_pos : list (string * Decomposition.GroupInfo) :=
  [("const", Decomposition.mkGroup "Base" (Some ""));
   ("Mix|WGTD", Decomposition.mkGroup "Media" (Some "Max"))].

End Fixtures.

(** * linear_models.LinearModel: binding data and target *)

Module ModelSetup.

Import Frame Py Stats LinearModels.


(** [self.kpi = kpi_name] *)
Definition assign_kpi (k : string) (m : LinearModel) : LinearModel :=
  mkModel (data m) (model_data m) (Some k) (features m) (feature_transformations m)
          (transformed_data m) (model m) (results m) (loader m)
          (fixed_coefficients m) (wgtd_variables m).

(** Body of the loop of [_reapply_transformations]. *)
Definition reapply_feature (feature : string) : M LinearModel unit :=
  m ← self;
  match feature_transformations m !! feature with
  | Some transformation => _apply_transformation feature transformation
  | None => ret tt
  end.

(** [_reapply_transformations()]: nothing happens without features;
    otherwise the transformed columns are cleared and recomputed for the
    features that carry a transformation code. *)
Definition _reapply_transformations : M LinearModel unit :=
  m ← self;
  if bool_decide (features m = []) then ret tt
  else
    modify (set_transformed_data ∅) ;;
    for_each (features m) reapply_feature.

(** Body of the last loop of [set_kpi]. *)
Definition reapply_mdv (item : string * string) : M LinearModel unit :=
  if decide (item.2 = "MDV") then _apply_transformation item.1 item.2 else ret tt.

(** [set_kpi(kpi_name)]; the entries of [feature_transformations] are
    visited in the order of [map_to_list]. *)
Definition set_kpi (fit : fitter) (kpi_name : string) : M LinearModel unit :=
  m ← self;
  match model_data m with
  | None => ret tt
  | Some df =>
      if negb (PyDict.mem kpi_name (columns df)) then ret tt
      else
        modify (assign_kpi kpi_name) ;;
        initialize_model fit ;;
        m ← self;
        for_each (map_to_list (feature_transformations m)) reapply_mdv
  end.

(** The feature list is in order: no feature occurs twice, none is the
    target, and each is a column of the modelling data. *)
Definition valid_features (m : LinearModel) : Prop :=
  NoDup (features m) ∧
  ∀ f, f ∈ features m →
       kpi m ≠ Some f ∧
       ∃ df, model_data m = Some df ∧ PyDict.mem f (columns df) = true.

(** The series that [_apply_transformation(feature, code)] stores for
    the feature, if it stores one (it stores none for a name that is no
    column of the modelling data). *)
Definition stored_transform (m : LinearModel) (feature code : string) : option Series.t :=
  transformed_data (run (_apply_transformation feature code) (set_transformed_data ∅ m)).2
    !! feature.

(** [[f for f in self.features if f not in self.fixed_coefficients]] *)
Definition remaining_features (m : LinearModel) : list string :=
  filter (λ f, PyDict.mem f (fixed_coefficients m) = false) (features m).

(** What one fixed coefficient takes off the target at row [t]: the
    value itself for the intercept, the value times the feature's
    (transformed) observation for a feature, nothing for another name. *)
Definition fixed_component (m : LinearModel) (t : nat) (item : string * Qc) : Qc :=
  if decide (item.1 = "const") then item.2
  else if bool_decide (item.1 ∈ features m) then
    match feature_values m item.1 with
    | Ok s => item.2 * Series.iloc s t
    | Raise _ => 0
    end
  else 0.

(** Only features and the intercept carry fixed coefficients. *)
Definition fixed_keys_valid (m : LinearModel) : Prop :=
  ∀ k, k ∈ PyDict.keys (fixed_coefficients m) → k ∈ features m ∨ k = "const".

End ModelSetup.

(** * variable_transformations.multiply_variables *)

Module VariableTransformations.

Import Frame Py.

(** [a * b] for two series over the same index *)
Definition mul (a b : Series.t) : Series.t := zip_with Qcmult a b.

(** [f"{var1}*{var2}|MULT {identifier}"], the identifier defaulting to
    [f"{var1}*{var2}"]. *)
Definition mult_name (var1 var2 identifier : string) : string :=
  let identifier := if decide (identifier = "") then var1 +:+ "*" +:+ var2 else identifier in
  var1 +:+ "*" +:+ var2 +:+ "|MULT " +:+ identifier.

(** [multiply_variables(data, var1, var2, identifier)]: the frame with
    the product column, and the name of that column. *)
Definition multiply_variables (data : DataFrame) (var1 var2 identifier : string)
    : outcome (DataFrame * string) :=
  match PyDict.get var1 (columns data) with
  | None => Raise (ValueError ("Variable '" +:+ var1 +:+ "' not found in the data"))
  | Some s1 =>
      match PyDict.get var2 (columns data) with
      | None => Raise (ValueError ("Variable '" +:+ var2 +:+ "' not found in the data"))
      | Some s2 =>
          let new_var_name := mult_name var1 var2 identifier in
          Ok (assign new_var_name (mul s1 s2) data, new_var_name)
      end
  end.

End VariableTransformations.

(** * weighted_variables.create_weighted_variable: choice of the components *)

Module WeightedSelection.

(** A row of the table returned by [test_variables]. *)
Record TestRow := mkRow {
  Variable_ : string;
  Coefficient : Qc;
  T_stat : Qc
}.

(** Body of the loop over the rows: a significant variable enters the
    coefficient dictionary if its sign fits [sign_type]. *)
Definition select_row (sign_type : string) (coefficients : list (string * Qc)) (row : TestRow)
    : list (string * Qc) :=
  let is_significant := bool_decide (qf 329 200 < Qcabs (T_stat row)) in
  if is_significant then
    if bool_decide (sign_type = "pos") && bool_decide (0 < Coefficient row)
    then PyDict.set (Variable_ row) (Coefficient row) coefficients
    else if bool_decide (sign_type = "neg") && bool_decide (Coefficient row < 0)
    then PyDict.set (Variable_ row) (Coefficient row) coefficients
    else if bool_decide (sign_type = "mix")
    then PyDict.set (Variable_ row) (Coefficient row) coefficients
    else coefficients
  else coefficients.

Definition select_coefficients (sign_type : string) (rows : list TestRow) : list (string * Qc) :=
  foldl (select_row sign_type) [] rows.

End WeightedSelection.

(** * decomposition: default groups, the decomposition of one group, and
      the expansion of weighted variables in a table of contributions *)

Module GroupDecomposition.

Import Frame Py Stats LinearModels Decomposition.

(** [s.lower()] on ASCII names. *)
Definition lower_char (c : Ascii.ascii) : Ascii.ascii :=
  let n := Ascii.N_of_ascii c in
  if decide (65 ≤ n ≤ 90)%N then Ascii.ascii_of_N (n + 32) else c.

Fixpoint lower (s : string) : string :=
  match s with
  | EmptyString => EmptyString
  | String c r => String (lower_char c) (lower r)
  end.

(** [needle in hay] *)
Fixpoint contains (needle hay : string) : bool :=
  String.prefix needle hay ||
  match hay with
  | EmptyString => false
  | String _ r => contains needle r
  end.

(** The group chosen from the name of a feature. *)
Definition default_group (feature : string) : string :=
  let feature_lower := lower feature in
  if contains "price" feature_lower || contains "pricing" feature_lower then "Price"
  else if contains "promo" feature_lower || contains "promotion" feature_lower
          || contains "offer" feature_lower then "Promotions"
  else if contains "tv" feature_lower || contains "radio" feature_lower
          || contains "online" feature_lower || contains "media" feature_lower then "Media"
  else if contains "comp" feature_lower || contains "competitor" feature_lower then "Competition"
  else if contains "weather" feature_lower || contains "temperature" feature_lower
          || contains "rain" feature_lower then "Weather"
  else if contains "holiday" feature_lower || contains "season" feature_lower
          || contains "event" feature_lower then "Seasonality"
  else "Other".

(** [create_default_groups(model)]: the dictionary it returns (and keeps
    in [model.variable_groups]). *)
Definition create_default_groups (m : LinearModel) : list (string * GroupInfo) :=
  foldl (λ groups feature,
           PyDict.set feature (mkGroup (default_group feature) (Some "")) groups)
        [("const", mkGroup "Base" (Some ""))] (features m).

(** The contribution of a variable after its Min or Max adjustment. *)
Definition adjusted (adjustment : string) (contribution : Series.t) : Series.t :=
  if decide (adjustment = "Min") then
    Series.sub_scalar contribution (Series.min contribution)
  else if decide (adjustment = "Max") then
    Series.sub_scalar contribution (Series.max contribution)
  else contribution.

(** Body of the loop over [groups.items()] in
    [calculate_group_decomposition]; the state is [group_variables] and
    [group_total]. *)
Definition group_variable_step (coefficients : list (string * Qc)) (data : DataFrame)
    (group_name : string) (st : list (string * Series.t) * Series.t)
    (item : string * GroupInfo) : list (string * Series.t) * Series.t :=
  let var := item.1 in
  if decide (Group item.2 = group_name) then
    match PyDict.get var coefficients with
    | None => st
    | Some coef =>
        match values_of data var with
        | None => st
        | Some values =>
            let contribution := Series.scale coef values in
            let adjusted_contribution := adjusted (adjustment_of item.2) contribution in
            (PyDict.set var adjusted_contribution st.1, Series.add st.2 adjusted_contribution)
        end
    end
  else st.

(** Body of the loop over the weighted variables: the components of a
    weighted variable of the group get their share as a column of their
    own; [group_total] is not touched. *)
Definition group_weighted_step (coefficients : list (string * Qc)) (data : DataFrame)
    (groups : list (string * GroupInfo)) (group_name : string)
    (group_variables : list (string * Series.t)) (item : string * WgtdInfo)
    : list (string * Series.t) :=
  let wgtd_var := item.1 in
  match PyDict.get wgtd_var coefficients, PyDict.get wgtd_var groups with
  | Some wgtd_coef, Some g =>
      if decide (Group g = group_name) then
        match PyDict.get wgtd_var (columns data) with
        | None => group_variables
        | Some wgtd_values =>
            let wgtd_contribution := Series.scale wgtd_coef wgtd_values in
            let comps := default [] (components item.2) in
            let tw := total_weight comps in
            foldl (λ gv c,
                     if decide (tw ≠ 0)
                     then PyDict.set c.1 (Series.mul_scalar wgtd_contribution (c.2 / tw)) gv
                     else gv)
                  group_variables comps
        end
      else group_variables
  | _, _ => group_variables
  end.

(** [calculate_group_decomposition(model, groups, group_name)] *)
Definition calculate_group_decomposition (m : LinearModel) (groups : list (string * GroupInfo))
    (group_name : string) : outcome DataFrame :=
  match results m, model_data m with
  | None, _ => Raise AttributeError
  | Some _, None => Raise AttributeError
  | Some res, Some data =>
      match kpi m with
      | None => Raise (KeyError "None")
      | Some k =>
          match column data k with
          | Raise e => Raise e
          | Ok actual =>
              let contributions := assign "Actual" actual (Frame.empty (nrows data)) in
              let st := foldl (group_variable_step (params res) data group_name)
                              ([], Series.const (nrows data) 0) groups in
              let group_variables :=
                match wgtd_variables m with
                | Some ws =>
                    foldl (group_weighted_step (params res) data groups group_name) st.1 ws
                | None => st.1
                end in
              let contributions :=
                foldl (λ df c, assign c.1 c.2 df) contributions group_variables in
              Ok (assign "Total" st.2 contributions)
          end
      end
  end.

(** The column that a variable gets in the decomposition of a group:
    the variables of the group that have a coefficient and values get
    their adjusted contribution. *)
Definition group_variable (coefficients : list (string * Qc)) (data : DataFrame)
    (groups : list (string * GroupInfo)) (group_name var : string) : option Series.t :=
  match PyDict.get var groups with
  | Some g =>
      if decide (Group g = group_name) then
        match PyDict.get var coefficients, values_of data var with
        | Some coef, Some values => Some (adjusted (adjustment_of g) (Series.scale coef values))
        | _, _ => None
        end
      else None
  | None => None
  end.

(** The columns that show the variables of the group. *)
Definition variable_columns (out : DataFrame) : list (string * Series.t) :=
  filter (λ c, c.1 ≠ "Actual" ∧ c.1 ≠ "Total") (columns out).

(** [df = df.drop(name, axis=1)] *)
Definition drop (name : string) (df : DataFrame) : DataFrame :=
  mkFrame (nrows df) (PyDict.del name (columns df)).

(** Body of the loop over the components in
    [expand_weighted_variable_contributions]. *)
Definition expand_column (wgtd_contribution : Series.t) (tw : Qc) (df : DataFrame)
    (item : string * Qc) : DataFrame :=
  if decide (tw ≠ 0) then
    let component_contribution := Series.mul_scalar wgtd_contribution (item.2 / tw) in
    match PyDict.get item.1 (columns df) with
    | Some s => assign item.1 (Series.add s component_contribution) df
    | None => assign item.1 component_contribution df
    end
  else df.

(** Body of the loop over [model.wgtd_variables.items()]. *)
Definition expand_variable (df : DataFrame) (item : string * WgtdInfo) : DataFrame :=
  match PyDict.get item.1 (columns df) with
  | None => df
  | Some wgtd_contribution =>
      match default [] (components item.2) with
      | [] => df
      | comps =>
          drop item.1 (foldl (expand_column wgtd_contribution (total_weight comps)) df comps)
      end
  end.

(** [expand_weighted_variable_contributions(model, contributions_df)] *)
Definition expand_weighted_variable_contributions (m : LinearModel) (contributions_df : DataFrame)
    : DataFrame :=
  match wgtd_variables m with
  | None | Some [] => contributions_df
  | Some ws => foldl expand_variable contributions_df ws
  end.

(** [new_calculate_decomposition(model, groups)], which
    [patch_decomposition_calculate] installs in place of
    [calculate_decomposition]: the original function followed by the
    expansion of the weighted variables. *)
Definition new_calculate_decomposition (m : LinearModel) (groups : list (string * GroupInfo))
    : outcome DataFrame :=
  match calculate_decomposition m groups with
  | Ok contributions => Ok (expand_weighted_variable_contributions m contributions)
  | Raise e => Raise e
  end.

End GroupDecomposition.

(** * Facts about series *)

Module SeriesFacts.

Import Series.

Lemma iloc_lookup (s : t) i x : s !! i = Some x → iloc s i = x.
Proof. unfold iloc. by intros ->. Qed.

Lemma length_scale c s : length (scale c s) = length s.
Proof. apply length_fmap. Qed.

Lemma length_sub_scalar s c : length (sub_scalar s c) = length s.
Proof. apply length_fmap. Qed.

Lemma length_add_scalar s c : length (add_scalar s c) = length s.
Proof. apply length_fmap. Qed.

Lemma length_const n c : length (const n c) = n.
Proof. apply length_replicate. Qed.

Lemma length_add a b : length a = length b → length (add a b) = length a.
Proof. intros H. unfold add. rewrite length_zip_with. lia. Qed.

Lemma length_sub a b : length a = length b → length (sub a b) = length a.
Proof. intros H. unfold sub. rewrite length_zip_with. lia. Qed.

Lemma iloc_scale c s i : iloc (scale c s) i = c * iloc s i.
Proof.
  unfold iloc, scale. rewrite list_lookup_fmap.
  destruct (s !! i); simpl; [done | ring].
Qed.

Lemma length_mul_scalar s c : length (mul_scalar s c) = length s.
Proof. apply length_fmap. Qed.

Lemma iloc_nil i : iloc [] i = 0.
Proof. unfold iloc. by rewrite lookup_nil. Qed.

Lemma iloc_mul_scalar s c i : iloc (mul_scalar s c) i = iloc s i * c.
Proof.
  unfold iloc, mul_scalar. rewrite list_lookup_fmap.
  destruct (s !! i); simpl; [done | ring].
Qed.

Lemma iloc_const n c i : (i < n)%nat → iloc (const n c) i = c.
Proof.
  intros H. unfold iloc, const. by rewrite lookup_replicate_2.
Qed.

Lemma iloc_sub_scalar s c i :
  (i < length s)%nat → iloc (sub_scalar s c) i = iloc s i - c.
Proof.
  intros H. unfold iloc, sub_scalar. rewrite list_lookup_fmap.
  destruct (lookup_lt_is_Some_2 s i H) as [x ->]. done.
Qed.

Lemma iloc_add_scalar s c i :
  (i < length s)%nat → iloc (add_scalar s c) i = iloc s i + c.
Proof.
  intros H. unfold iloc, add_scalar. rewrite list_lookup_fmap.
  destruct (lookup_lt_is_Some_2 s i H) as [x ->]. done.
Qed.

Lemma iloc_add a b i :
  (i < length a)%nat → (i < length b)%nat →
  iloc (add a b) i = iloc a i + iloc b i.
Proof.
  intros Ha Hb. unfold iloc, add. rewrite lookup_zip_with.
  destruct (lookup_lt_is_Some_2 a i Ha) as [x ->].
  destruct (lookup_lt_is_Some_2 b i Hb) as [y ->]. done.
Qed.

Lemma iloc_sub a b i :
  (i < length a)%nat → (i < length b)%nat →
  iloc (sub a b) i = iloc a i - iloc b i.
Proof.
  intros Ha Hb. unfold iloc, sub. rewrite lookup_zip_with.
  destruct (lookup_lt_is_Some_2 a i Ha) as [x ->].
  destruct (lookup_lt_is_Some_2 b i Hb) as [y ->]. done.
Qed.

End SeriesFacts.

(** * The adstock transform satisfies its recurrence *)

Module AdstockSpec.

Import Series SeriesFacts Adstock.

Lemma length_adstock_loop (x : Series.t) rate (r : Series.t) (idx : list nat) :
  length (foldl (adstock_step x rate) r idx) = length r.
Proof.
  revert r. induction idx as [|i idx IH]; intros r; simpl; [done|].
  rewrite IH. unfold adstock_step. apply length_insert.
Qed.

(** Loop invariant after the iterations [1..k]: positions up to [k] obey
    the recurrence, later positions still hold the input. *)
Lemma adstock_loop_inv (x : Series.t) rate (k : nat) :
  (k < length x)%nat →
  let r := foldl (adstock_step x rate) x (seq 1 k) in
  r !! 0%nat = x !! 0%nat ∧
  (∀ i, (0 < i ≤ k)%nat → r !! i = Some (iloc x i + rate * iloc r (i - 1))) ∧
  (∀ i, (k < i)%nat → r !! i = x !! i).
Proof.
  induction k as [|k IH]; intros Hk r.
  - subst r. simpl. split; [done|]. split; [intros i Hi; lia | done].
  - destruct IH as (H0 & Hrec & Hrest); [lia|].
    subst r. rewrite seq_S, foldl_app. simpl.
    set (r := foldl (adstock_step x rate) x (seq 1 k)) in *.
    assert (Hlen : length r = length x) by apply length_adstock_loop.
    repeat split; unfold adstock_step.
    + rewrite list_lookup_insert_ne by lia. done.
    + intros i Hi. destruct (decide (i = S k)) as [->|Hne].
      * rewrite list_lookup_insert_eq by lia.
        do 3 f_equal. unfold iloc.
        rewrite list_lookup_insert_ne by lia. done.
      * rewrite list_lookup_insert_ne by lia.
        rewrite Hrec by lia. do 3 f_equal. unfold iloc.
        rewrite list_lookup_insert_ne by lia. done.
    + intros i Hi. rewrite list_lookup_insert_ne by lia. apply Hrest. lia.
Qed.

Lemma apply_adstock_zero (x : Series.t) : apply_adstock x 0 = x.
Proof. unfold apply_adstock. by rewrite decide_True. Qed.

(** C9.  For every series [x] and every rate with [0 <= rate < 1],
    [apply_adstock x rate] is the series [y] with [y[0] = x[0]] and
    [y[i] = x[i] + rate * y[i-1]] for every [i > 0] (and of the length of
    [x]); for rate 0 the result is [x] itself. *)
Theorem apply_adstock_recurrence (x : Series.t) (rate : Qc) :
  0 ≤ rate < 1 →
  is_adstock_of x rate (apply_adstock x rate) ∧ apply_adstock x 0 = x.
Proof.
  intros _. split; [|apply apply_adstock_zero].
  unfold is_adstock_of, apply_adstock. destruct (decide (rate = 0)) as [->|Hr].
  - repeat split. intros i Hi.
    destruct (lookup_lt_is_Some_2 x i) as [v Hv]; [lia|].
    rewrite Hv. f_equal. rewrite (iloc_lookup _ _ _ Hv). ring.
  - split; [apply length_adstock_loop|].
    destruct x as [|x0 x]; [split; [done | simpl; intros; lia]|].
    destruct (adstock_loop_inv (x0 :: x) rate (length x)) as (H0 & Hrec & _);
      [simpl; lia|].
    simpl length. replace (S (length x) - 1)%nat with (length x) by lia.
    split; [exact H0|]. intros i Hi. apply Hrec. simpl in Hi. lia.
Qed.

(** The theorem at the series 10, 20, 30 with a carry-over of one half. *)
Lemma apply_adstock_recurrence_witness :
  (0 ≤ qf 1 2 < 1) ∧
  is_adstock_of [qz 10; qz 20; qz 30] (qf 1 2)
                (apply_adstock [qz 10; qz 20; qz 30] (qf 1 2)) ∧
  apply_adstock [qz 10; qz 20; qz 30] 0 = [qz 10; qz 20; qz 30].
Proof.
  assert (H : 0 ≤ qf 1 2 < 1) by (split; by_compute).
  split; [exact H|].
  exact (apply_adstock_recurrence [qz 10; qz 20; qz 30] (qf 1 2) H).
Defined.

Example apply_adstock_example :
  apply_adstock [qz 10; qz 20; qz 30] (qf 1 2) = [qz 10; qz 25; qf 85 2].
Proof. by_compute. Qed.

End AdstockSpec.

(** * Facts about dictionaries *)

Module PyDictFacts.

Import PyDict.

Section facts.
Context {V : Type}.
Implicit Types (d : list (string * V)) (k : string) (v : V).

Lemma get_set_eq d k v : get k (set k v d) = Some v.
Proof.
  induction d as [|[k' v'] d IH]; simpl.
  - by rewrite decide_True.
  - destruct (decide (k' = k)); simpl.
    + by rewrite decide_True.
    + by rewrite decide_False.
Qed.

Lemma get_set_ne d k k' v : k ≠ k' → get k' (set k v d) = get k' d.
Proof.
  intros Hne. induction d as [|[k0 v0] d IH]; simpl.
  - by rewrite decide_False.
  - destruct (decide (k0 = k)) as [->|]; simpl.
    + by rewrite !decide_False.
    + destruct (decide (k0 = k')); done.
Qed.

Lemma get_set d k k' v :
  get k' (set k v d) = if decide (k = k') then Some v else get k' d.
Proof.
  destruct (decide (k = k')) as [->|]; [apply get_set_eq | by apply get_set_ne].
Qed.

Lemma get_del_ne d k k' : k ≠ k' → get k' (del k d) = get k' d.
Proof.
  intros Hne. induction d as [|[k0 v0] d IH]; simpl; [done|].
  destruct (decide (k0 = k)) as [->|]; simpl.
  - by rewrite decide_False.
  - destruct (decide (k0 = k')); done.
Qed.

Lemma mem_true d k : mem k d = true ↔ is_Some (get k d).
Proof. unfold mem. by rewrite bool_decide_eq_true. Qed.

Lemma mem_false d k : mem k d = false ↔ get k d = None.
Proof.
  unfold mem. rewrite bool_decide_eq_false. by rewrite eq_None_not_Some.
Qed.

Lemma get_Some_In d k v : get k d = Some v → (k, v) ∈ d.
Proof.
  induction d as [|[k0 v0] d IH]; simpl; [done|].
  destruct (decide (k0 = k)) as [->|].
  - intros [= ->]. left.
  - intros H. right. by apply IH.
Qed.

Lemma get_None_keys d k : get k d = None ↔ k ∉ keys d.
Proof.
  unfold keys. induction d as [|[k0 v0] d IH]; simpl.
  - split; [intros _; apply not_elem_of_nil | done].
  - rewrite not_elem_of_cons. destruct (decide (k0 = k)) as [->|].
    + split; [done | intros [? _]; done].
    + rewrite IH. split; [intros ?; split; [done|done] | intros [_ ?]; done].
Qed.

Lemma get_is_Some_keys d k : is_Some (get k d) ↔ k ∈ keys d.
Proof.
  destruct (get k d) eqn:E.
  - split; [|eauto]. intros _. destruct (decide (k ∈ keys d)) as [|Hn]; [done|].
    apply get_None_keys in Hn. congruence.
  - split; [intros [? ?]; done|]. intros Hin. apply get_None_keys in E. done.
Qed.

Lemma In_get_NoDup d k v : NoDup (keys d) → (k, v) ∈ d → get k d = Some v.
Proof.
  unfold keys. induction d as [|[k0 v0] d IH]; simpl.
  - intros _ H. by apply elem_of_nil in H.
  - intros Hnd Hin. apply NoDup_cons in Hnd as [Hk0 Hnd].
    apply elem_of_cons in Hin as [[= -> ->]|Hin].
    + by rewrite decide_True.
    + rewrite decide_False; [by apply IH|].
      intros ->. apply Hk0. apply list_elem_of_fmap. by exists (k, v).
Qed.

Lemma keys_set_present d k v : is_Some (get k d) → keys (set k v d) = keys d.
Proof.
  unfold keys. induction d as [|[k0 v0] d IH]; simpl.
  - intros [? ?]; done.
  - destruct (decide (k0 = k)) as [->|]; csimpl; [done|].
    intros H. f_equal. by apply IH.
Qed.

Lemma keys_set_absent d k v : get k d = None → keys (set k v d) = keys d ++ [k].
Proof.
  unfold keys. induction d as [|[k0 v0] d IH]; simpl; [done|].
  destruct (decide (k0 = k)) as [->|]; csimpl; [done|].
  intros H. f_equal. by apply IH.
Qed.

Lemma NoDup_keys_set d k v : NoDup (keys d) → NoDup (keys (set k v d)).
Proof.
  intros Hnd. destruct (get k d) eqn:E.
  - by rewrite keys_set_present.
  - rewrite keys_set_absent by done. apply NoDup_app. split; [done|].
    split; [|apply NoDup_singleton].
    intros x Hx Hx'. apply list_elem_of_singleton in Hx' as ->.
    by apply get_None_keys in E.
Qed.

End facts.

End PyDictFacts.

(** * The model object: fixed coefficients, feature removal, rollback *)

Module LinearModelSpec.

Import Frame Py Stats LinearModels PyDict PyDictFacts.

(** C10.  [set_fixed_coefficient(v, c)] raises a [ValueError] when [v]
    is neither a feature of the model nor ['const'], and the model
    object (its fixed-coefficient map and fitted results included) is
    then exactly as before the call. *)
Theorem set_fixed_coefficient_rejects_unknown
    (fit : fitter) (m : LinearModel) (v : string) (c : Qc) :
  v ∉ features m → v ≠ "const" →
  ∃ msg, run (set_fixed_coefficient fit v c) m = (Raise (ValueError msg), m).
Proof.
  intros Hv Hc. eexists. unfold set_fixed_coefficient. simpl.
  rewrite (bool_decide_eq_true_2 _ Hv), (bool_decide_eq_true_2 _ Hc). simpl.
  reflexivity.
Qed.


Lemma set_fixed_coefficient_rejects_unknown_witness :
  ("Radio" ∉ features Fixtures.m_tv) ∧ ("Radio" ≠ "const") ∧
  (∃ msg, run (set_fixed_coefficient ExactOLS.exact_ols "Radio" (qz 2)) Fixtures.m_tv
          = (Raise (ValueError msg), Fixtures.m_tv)).
Proof.
  assert (H1 : "Radio" ∉ features Fixtures.m_tv) by by_compute.
  assert (H2 : "Radio" ≠ "const") by by_compute.
  split; [exact H1|]. split; [exact H2|].
  exact (set_fixed_coefficient_rejects_unknown ExactOLS.exact_ols Fixtures.m_tv
           "Radio" (qz 2) H1 H2).
Defined.

(** ** Which attributes a method can touch *)


Lemma same_settings_refl m : same_settings m m.
Proof. by repeat split. Qed.

Lemma same_settings_trans m1 m2 m3 :
  same_settings m1 m2 → same_settings m2 m3 → same_settings m1 m3.
Proof. unfold same_settings. intros; destruct_and!. repeat split; congruence. Qed.

Ltac run_methods :=
  repeat (simpl in *; simplify_eq; try done; case_match).

Lemma fit_and_store_settings fit y X m o m' :
  run (fit_and_store fit y X) m = (o, m') → same_settings m m'.
Proof.
  unfold fit_and_store. intros H. run_methods; by repeat split.
Qed.

Lemma fit_and_store_raise fit y X m e m' :
  run (fit_and_store fit y X) m = (Raise e, m') → results m' = results m.
Proof. unfold fit_and_store. intros H. run_methods. Qed.

Lemma fit_current_features_settings fit m o m' :
  run (fit_current_features fit) m = (o, m') → same_settings m m'.
Proof.
  unfold fit_current_features. simpl. intros H.
  destruct (target m); simpl in H; [|simplify_eq; apply same_settings_refl].
  destruct (design m (features m) (length a)); simpl in H;
    [|simplify_eq; apply same_settings_refl].
  eapply fit_and_store_settings with (o := o). simpl. exact H.
Qed.

Lemma fit_current_features_raise fit m e m' :
  run (fit_current_features fit) m = (Raise e, m') → results m' = results m.
Proof.
  unfold fit_current_features. simpl. intros H.
  destruct (target m); simpl in H; [|by simplify_eq].
  destruct (design m (features m) (length a)); simpl in H; [|by simplify_eq].
  eapply fit_and_store_raise. simpl. exact H.
Qed.

Lemma fill_features_ext m m' feats X :
  transformed_data m' = transformed_data m → model_data m' = model_data m →
  fill_features m' feats X = fill_features m feats X.
Proof.
  intros Ht Hd. revert X. induction feats as [|f feats IH]; intros X; simpl; [done|].
  unfold feature_values. rewrite Ht, Hd.
  destruct (transformed_data m !! f); [apply IH|].
  destruct (model_data m); [|done]. destruct (column d f); [apply IH | done].
Qed.

Lemma target_ext m m' :
  kpi m' = kpi m → model_data m' = model_data m → target m' = target m.
Proof. unfold target. by intros -> ->. Qed.

(** The ordinary fit depends on the target, the features and their data
    only. *)
Lemma fit_current_features_ext fit m m' m1 :
  kpi m' = kpi m → model_data m' = model_data m → features m' = features m →
  transformed_data m' = transformed_data m →
  run (fit_current_features fit) m = (Ok tt, m1) →
  ∃ m1', run (fit_current_features fit) m' = (Ok tt, m1') ∧
         results m1' = results m1 ∧ same_settings m' m1'.
Proof.
  intros Hk Hd Hf Ht. unfold fit_current_features, design. simpl.
  rewrite (target_ext m m' Hk Hd), Hf.
  destruct (target m) as [y|]; simpl; [|done].
  rewrite (fill_features_ext m m' _ _ Ht Hd).
  destruct (fill_features m (features m) (Frame.empty (length y))) as [X|]; simpl; [|done].
  destruct (fit _) as [r|]; simpl; [|done].
  intros [= <-]. eexists. split; [reflexivity|]. split; [done|]. by repeat split.
Qed.

(** ** Rollback of a failed [add_feature] *)

#[local] Arguments _apply_transformation : simpl never.
#[local] Arguments fit_current_features : simpl never.
#[local] Arguments fit_and_store : simpl never.

Lemma list_remove_app_fresh f l : f ∉ l → list_remove f (l ++ [f]) = l.
Proof.
  induction l as [|x l IH]; simpl; intros Hf.
  - by rewrite decide_True.
  - apply not_elem_of_cons in Hf as [Hne Hf].
    rewrite decide_False by done. by rewrite IH.
Qed.

Lemma list_remove_fresh f l : f ∉ l → list_remove f l = l.
Proof.
  induction l as [|x l IH]; simpl; intros Hf; [done|].
  apply not_elem_of_cons in Hf as [Hne Hf].
  rewrite decide_False by done. by rewrite IH.
Qed.

Lemma _apply_transformation_effect f code m o m' :
  run (_apply_transformation f code) m = (o, m') →
  data m' = data m ∧ model_data m' = model_data m ∧ kpi m' = kpi m ∧
  features m' = features m ∧
  feature_transformations m' = feature_transformations m ∧
  delete f (transformed_data m') = delete f (transformed_data m) ∧
  loader m' = loader m ∧ fixed_coefficients m' = fixed_coefficients m ∧
  wgtd_variables m' = wgtd_variables m ∧ results m' = results m.
Proof.
  unfold _apply_transformation. simpl. intros H.
  destruct (model_data m) as [df|] eqn:Hd; simpl in H; [|by simplify_eq].
  destruct (PyDict.get f (columns df)); simpl in H; simplify_eq; [|done].
  simpl. rewrite delete_insert_eq. by repeat split.
Qed.

Lemma run_bind {S A B} (c : M S A) (k : A → M S B) s :
  run (c ≫= k) s =
  match run c s with
  | (Ok a, s') => run (k a) s'
  | (Raise e, s') => (Raise e, s')
  end.
Proof. reflexivity. Qed.

Lemma run_self {S} (s : S) : run self s = (Ok s, s).
Proof. reflexivity. Qed.

Lemma run_modify {S} (f : S → S) s : run (modify f) s = (Ok tt, f s).
Proof. reflexivity. Qed.

Lemma run_ret {S A} (a : A) (s : S) : run (ret a) s = (Ok a, s).
Proof. reflexivity. Qed.

Lemma run_mret {S A} (a : A) (s : S) : run (mret a) s = (Ok a, s).
Proof. reflexivity. Qed.

Lemma run_lift {S A} (o : outcome A) (s : S) : run (lift o) s = (o, s).
Proof. reflexivity. Qed.

Lemma run_raise {S A} e (s : S) : run (raise (A:=A) e) s = (Raise e, s).
Proof. reflexivity. Qed.

Lemma run_try_except {S A} (body : M S A) handler (s : S) :
  run (try_except body handler) s =
  match run body s with
  | (Ok a, s') => (Ok a, s')
  | (Raise e, s') => run (handler e) s'
  end.
Proof. reflexivity. Qed.

Ltac run_step :=
  repeat (progress (rewrite ?run_bind, ?run_self, ?run_modify, ?run_ret,
                      ?run_mret, ?run_lift, ?run_raise, ?run_try_except;
                    cbv beta iota zeta)).

(** Where the [try] block of [add_feature] can stop: the fitted results
    are the previous ones, and the candidate is at most appended to the
    features and entered in the two transform dictionaries. *)
Lemma add_feature_try_raise fit f tr m e m1 :
  run (add_feature_try fit f tr) m = (Raise e, m1) →
  results m1 = results m ∧
  (features m1 = features m ∨ features m1 = features m ++ [f]) ∧
  delete f (feature_transformations m1) = delete f (feature_transformations m) ∧
  delete f (transformed_data m1) = delete f (transformed_data m) ∧
  data m1 = data m ∧ model_data m1 = model_data m ∧ kpi m1 = kpi m ∧
  loader m1 = loader m ∧ fixed_coefficients m1 = fixed_coefficients m ∧
  wgtd_variables m1 = wgtd_variables m.
Proof.
  unfold add_feature_try. run_step.
  set (tr' := match tr with Some _ => _ | None => _ end). clearbody tr'.
  destruct (truthy tr'); run_step.
  - match goal with |- context [run (_apply_transformation ?a ?b) ?s] =>
      destruct (run (_apply_transformation a b) s) as [o s1] eqn:Happ end.
    apply _apply_transformation_effect in Happ. simpl in Happ.
    destruct Happ as (?&?&?&?&Hft&Htd&?&?&?&?).
    destruct o; run_step.
    + match goal with |- context [run (fit_current_features fit) ?s] =>
        destruct (run (fit_current_features fit) s) as [o2 s2] eqn:Hfit end.
      destruct o2; intros [= -> ->].
      pose proof (fit_current_features_raise _ _ _ _ Hfit) as Hres.
      apply fit_current_features_settings in Hfit.
      destruct Hfit as (?&?&?&?&Hft'&Htd'&?&?&?). simpl in *.
      split_and!; try congruence.
      * right. congruence.
      * rewrite Hft', Hft. apply delete_insert_eq.
    + intros [= -> ->].
      split_and!; try congruence.
      * left. congruence.
      * rewrite Hft. apply delete_insert_eq.
  - match goal with |- context [run (fit_current_features fit) ?s] =>
      destruct (run (fit_current_features fit) s) as [o2 s2] eqn:Hfit end.
    destruct o2; intros [= -> ->].
    pose proof (fit_current_features_raise _ _ _ _ Hfit) as Hres.
    apply fit_current_features_settings in Hfit.
    destruct Hfit as (?&?&?&?&?&?&?&?&?). simpl in *.
    split_and!; try congruence. right. congruence.
Qed.







(** ** Removing a feature *)

Lemma initialize_model_settings fit m o m' :
  run (initialize_model fit) m = (o, m') → o = Ok tt ∧ same_settings m m'.
Proof.
  unfold initialize_model, initialize_model_try. run_step.
  destruct (kpi m); run_step; [|intros [= <- <-]; split; [done|apply same_settings_refl]].
  destruct (target m) as [y|]; run_step;
    [|intros [= <- <-]; split; [done|apply same_settings_refl]].
  destruct (run (fit_and_store fit y _) m) as [o1 s1] eqn:Hfit.
  apply fit_and_store_settings in Hfit.
  destruct o1 as [[]|]; run_step; intros [= <- <-]; done.
Qed.

(** What [remove_feature] does to the settings of the model: the feature
    leaves the feature list and the two transform dictionaries; the
    fixed coefficients are not touched. *)
Lemma remove_feature_effect fit f m :
  f ∈ features m →
  let m' := remove_feature fit f m in
  features m' = list_remove f (features m) ∧
  feature_transformations m' = delete f (feature_transformations m) ∧
  transformed_data m' = delete f (transformed_data m) ∧
  fixed_coefficients m' = fixed_coefficients m.
Proof.
  intros Hf m'. subst m'. unfold remove_feature.
  rewrite (bool_decide_eq_true_2 _ Hf).
  unfold remove_feature_try. run_step.
  match goal with |- context [bool_decide (features ?s = [])] =>
    destruct (bool_decide (features s = [])); set (s0 := s) end.
  - destruct (run (initialize_model fit) s0) as [o s1] eqn:Hrun.
    apply initialize_model_settings in Hrun as [-> Hs].
    destruct Hs as (?&?&?&?&?&?&?&?&?). simpl in *. done.
  - destruct (run (fit_current_features fit) s0) as [o s1] eqn:Hrun.
    apply fit_current_features_settings in Hrun.
    destruct Hrun as (?&?&?&?&?&?&?&?&?).
    destruct o; run_step; simpl in *; done.
Qed.

Lemma remove_feature_fixed_coefficients fit f m :
  fixed_coefficients (remove_feature fit f m) = fixed_coefficients m.
Proof.
  destruct (decide (f ∈ features m)) as [Hf|Hf].
  - by apply remove_feature_effect.
  - unfold remove_feature. by rewrite (bool_decide_eq_false_2 _ Hf).
Qed.

(** C7 (the code departs from the claim).  On the model with the single
    feature ["TV"] whose coefficient was fixed to 2, [remove_feature]
    empties the feature list and falls back to the intercept-only fit,
    but the fixed coefficient of ["TV"] stays in [fixed_coefficients]:
    its keys are no longer among the features and ['const']. *)
Theorem remove_feature_keeps_fixed_coefficient :
  let m' := remove_feature ExactOLS.exact_ols "TV" Fixtures.m_tv_fixed in
  features m' = [] ∧
  results m' = results Fixtures.m_init ∧
  PyDict.get "TV" (fixed_coefficients m') = Some (qz 2) ∧
  ¬ (∀ k, k ∈ PyDict.keys (fixed_coefficients m') → k ∈ features m' ∨ k = "const").
Proof.
  split; [by_compute|]. split; [by_compute|]. split; [by_compute|].
  intros H. destruct (H "TV") as [Hin|Hc].
  - by_compute.
  - revert Hin. by_compute.
  - revert Hc. by_compute.
Qed.

(** ** The constrained refit *)

Lemma subtract_fixed_loop_state m0 (l : list (string * Qc)) y s o s' :
  run (fold_each l (subtract_fixed m0) y) s = (o, s') → s' = s.
Proof.
  revert y. induction l as [|[var coef] l IH]; intros y; simpl fold_each.
  - run_step. by intros [= _ <-].
  - run_step. unfold subtract_fixed at 1.
    destruct (decide (var = "const")); run_step; [apply IH|].
    destruct (bool_decide (var ∈ features m0)); run_step; [|apply IH].
    destruct (feature_values m0 var); run_step; [apply IH|].
    by intros [= _ <-].
Qed.

Lemma refit_fixed_try_settings fit m o m' :
  run (refit_fixed_try fit) m = (o, m') → same_settings m m'.
Proof.
  unfold refit_fixed_try. run_step.
  destruct (target m) as [y|]; run_step;
    [|intros [= _ <-]; apply same_settings_refl].
  destruct (bool_decide (fixed_coefficients m = [])).
  - run_step. destruct (design m (features m) (length y)) as [X|]; run_step;
      [|intros [= _ <-]; apply same_settings_refl].
    apply fit_and_store_settings.
  - run_step.
    destruct (run (fold_each (fixed_coefficients m) (subtract_fixed m) y) m)
      as [oa s1] eqn:Hloop.
    apply subtract_fixed_loop_state in Hloop as ->.
    destruct oa as [adjusted_y|]; run_step;
      [|intros [= _ <-]; apply same_settings_refl].
    match goal with |- context [if ?b then _ else _] => destruct b end; run_step.
    + destruct (full_design m (length y)) as [X|]; run_step;
        [|intros [= _ <-]; apply same_settings_refl].
      destruct (fit _); run_step; intros [= _ <-]; by repeat split.
    + destruct (fill_features m _ _) as [X|]; run_step;
        [|intros [= _ <-]; apply same_settings_refl].
      destruct (fit _) as [rr|]; run_step;
        [|intros [= _ <-]; apply same_settings_refl].
      destruct (full_design m (length y)) as [Xf|]; run_step;
        [|intros [= _ <-]; apply same_settings_refl].
      destruct (fit _) as [r|]; run_step; intros [= _ <-]; by repeat split.
Qed.

(** The constrained refit never raises and only replaces the fitted
    state. *)
Lemma _refit_model_with_fixed_coefficients_settings fit m :
  ∃ m', run (_refit_model_with_fixed_coefficients fit) m = (Ok tt, m') ∧
        same_settings m m'.
Proof.
  unfold _refit_model_with_fixed_coefficients. run_step.
  match goal with |- context [if ?b then _ else _] => destruct b end; run_step.
  - eexists. split; [done|apply same_settings_refl].
  - destruct (run (refit_fixed_try fit) m) as [o s1] eqn:Hrun.
    apply refit_fixed_try_settings in Hrun.
    destruct o as [[]|]; run_step; eauto.
Qed.

(** Without fixed coefficients the constrained refit is the ordinary
    fit. *)
Lemma refit_fixed_try_unfixed fit m :
  fixed_coefficients m = [] →
  run (refit_fixed_try fit) m = run (fit_current_features fit) m.
Proof.
  intros Hfix. unfold refit_fixed_try, fit_current_features. run_step.
  destruct (target m) as [y|]; run_step; [|done].
  rewrite (bool_decide_eq_true_2 _ Hfix). run_step. done.
Qed.

(** C4.  Let [v] be a feature of a model whose ordinary least-squares
    fit on its feature set succeeds, with no fixed coefficient other
    than possibly one on [v].  [set_fixed_coefficient(v, c)] followed by
    [unset_fixed_coefficient(v)] leaves no fixed coefficient and a
    fitted result equal to that ordinary fit, coefficient vector
    included. *)
Theorem fix_then_unfix_is_ordinary_fit
    (fit : fitter) (m : LinearModel) (v : string) (c : Qc) (m_ols : LinearModel) :
  v ∈ features m → truthy (kpi m) = true →
  PyDict.del v (PyDict.set v c (fixed_coefficients m)) = [] →
  run (fit_current_features fit) m = (Ok tt, m_ols) →
  ∃ m1 m2,
    run (set_fixed_coefficient fit v c) m = (Ok tt, m1) ∧
    run (unset_fixed_coefficient fit v) m1 = (Ok tt, m2) ∧
    results m2 = results m_ols ∧
    fixed_coefficients m2 = [] ∧ features m2 = features m.
Proof.
  intros Hv Hkpi Hnone Hols.
  (* set_fixed_coefficient *)
  unfold set_fixed_coefficient. run_step.
  rewrite (bool_decide_eq_false_2 (v ∉ features m)) by (intros H; by apply H).
  cbv [andb]. run_step.
  match goal with |- context [run (_refit_model_with_fixed_coefficients fit) ?s] =>
    destruct (_refit_model_with_fixed_coefficients_settings fit s) as (m1 & Hrun1 & Hs1)
  end.
  exists m1. rewrite Hrun1.
  destruct Hs1 as (Hd1&Hmd1&Hk1&Hf1&Hft1&Htd1&Hl1&Hfx1&Hw1).
  simpl in Hd1, Hmd1, Hk1, Hf1, Hft1, Htd1, Hl1, Hfx1, Hw1.
  (* unset_fixed_coefficient *)
  unfold unset_fixed_coefficient. run_step.
  assert (Hmem : PyDict.mem v (fixed_coefficients m1) = true).
  { rewrite Hfx1. apply mem_true. rewrite get_set_eq. eauto. }
  rewrite Hmem. run_step.
  match goal with |- context [set_fixed_coefficients ?x m1] =>
    set (s2 := set_fixed_coefficients x m1) end.
  assert (Hfx2 : fixed_coefficients s2 = []) by (subst s2; simpl; by rewrite Hfx1).
  unfold _refit_model_with_fixed_coefficients. run_step.
  assert (Hfeat : features s2 ≠ []).
  { subst s2. simpl. rewrite Hf1. intros Hnil. rewrite Hnil in Hv.
    by apply elem_of_nil in Hv. }
  destruct (fit_current_features_ext fit m s2 m_ols) as (m2 & Hrun2 & Hres2 & Hs2);
    [subst s2; simpl; congruence..| done |].
  assert (Hmd : model_data s2 ≠ None).
  { intros Hn. revert Hrun2. unfold fit_current_features. run_step.
    unfold target. rewrite Hn. run_step. done. }
  rewrite (bool_decide_eq_false_2 _ Hfeat).
  replace (truthy (kpi s2)) with true by (subst s2; simpl; congruence).
  rewrite (bool_decide_eq_false_2 _ Hmd). cbv [negb orb]. run_step.
  rewrite (refit_fixed_try_unfixed fit s2 Hfx2), Hrun2.
  exists m2. split; [done|]. split; [done|].
  destruct Hs2 as (?&?&?&Hf2&?&?&?&Hx2&?).
  split; [done|]. split; [congruence|]. rewrite Hf2. subst s2. simpl. done.
Qed.

(** The theorem on the model with the feature ["TV"]. *)
Lemma fix_then_unfix_is_ordinary_fit_witness :
  ∃ m1 m2,
    run (set_fixed_coefficient ExactOLS.exact_ols "TV" (qz 2)) Fixtures.m_tv = (Ok tt, m1) ∧
    run (unset_fixed_coefficient ExactOLS.exact_ols "TV") m1 = (Ok tt, m2) ∧
    results m2 = results Fixtures.m_tv ∧
    fixed_coefficients m2 = [] ∧ features m2 = features Fixtures.m_tv.
Proof.
  refine (fix_then_unfix_is_ordinary_fit ExactOLS.exact_ols Fixtures.m_tv "TV" (qz 2)
            Fixtures.m_tv _ _ _ _).
  - by_compute.
  - reflexivity.
  - vm_compute; reflexivity.
  - by_compute.
Defined.

(** ** Every coefficient fixed *)

Lemma override_fixed_absent (l p : list (string * Qc)) k :
  k ∉ keys l → get k (override_fixed l p) = get k p.
Proof.
  unfold override_fixed, keys. revert p.
  induction l as [|[k0 c0] l IH]; intros p Hk; simpl; [done|].
  csimpl in Hk. apply not_elem_of_cons in Hk as [Hne Hk].
  rewrite IH by done. simpl. by apply get_set_ne.
Qed.

Lemma override_fixed_present (l p : list (string * Qc)) k c :
  NoDup (keys l) → get k l = Some c → get k (override_fixed l p) = Some c.
Proof.
  unfold keys. revert p. induction l as [|[k0 c0] l IH]; intros p Hnd Hget; [done|].
  csimpl in Hnd. apply NoDup_cons in Hnd as [Hk0 Hnd]. simpl in Hget.
  destruct (decide (k0 = k)) as [->|Hne].
  - injection Hget as ->. unfold override_fixed. simpl.
    fold (override_fixed l (set k c p)).
    rewrite override_fixed_absent by done. apply get_set_eq.
  - unfold override_fixed. simpl. fold (override_fixed l (set k0 c0 p)).
    by apply IH.
Qed.

Lemma fill_features_values m feats X X' :
  fill_features m feats X = Ok X' →
  ∀ f, f ∈ feats → ∃ s, feature_values m f = Ok s.
Proof.
  revert X. induction feats as [|g feats IH]; intros X Hfill f Hf.
  - by apply elem_of_nil in Hf.
  - simpl in Hfill. destruct (feature_values m g) as [s|] eqn:Hg; [|done].
    apply elem_of_cons in Hf as [->|Hf]; [eauto|]. by eapply IH.
Qed.

Lemma subtract_fixed_loop_ok m (l : list (string * Qc)) y s :
  (∀ f, f ∈ features m → ∃ v, feature_values m f = Ok v) →
  ∃ adjusted_y, run (fold_each l (subtract_fixed m) y) s = (Ok adjusted_y, s).
Proof.
  intros Hval. revert y. induction l as [|[var coef] l IH]; intros y; simpl fold_each.
  - run_step. eauto.
  - run_step. unfold subtract_fixed at 1.
    destruct (decide (var = "const")); run_step; [apply IH|].
    case_bool_decide as Hin; run_step; [|apply IH].
    destruct (Hval var Hin) as [vd ->]. run_step. apply IH.
Qed.


Lemma fully_fixed_no_remaining m :
  fully_fixed m →
  filter (λ f, PyDict.mem f (fixed_coefficients m) = false) (features m) = [].
Proof.
  intros [Hall _]. induction (features m) as [|f l IH]; [done|].
  rewrite filter_cons. rewrite decide_False.
  - apply IH. intros g Hg. apply Hall. by right.
  - rewrite Hall; [done | by left].
Qed.

(** What the constrained refit does when every coefficient is fixed, as
    a function of the library's answer on the full design. *)
Lemma fully_fixed_refit_run fit m y X :
  features m ≠ [] → truthy (kpi m) = true → fully_fixed m →
  target m = Ok y → full_design m (length y) = Ok X →
  run (_refit_model_with_fixed_coefficients fit) m =
  match fit (mkOLS y X) with
  | Ok r0 =>
      (Ok tt, set_results
                (Some (with_params (override_fixed (fixed_coefficients m) (params r0)) r0))
                (set_model (Some (mkOLS y X)) m))
  | Raise _ => (Ok tt, set_model (Some (mkOLS y X)) m)
  end.
Proof.
  intros Hfeat Hkpi Hfull Hy HX.
  assert (Hmd : model_data m ≠ None).
  { intros Hn. unfold target in Hy. by rewrite Hn in Hy. }
  assert (Hfx : fixed_coefficients m ≠ []).
  { destruct Hfull as [_ Hc]. intros Hn. rewrite Hn in Hc. done. }
  unfold _refit_model_with_fixed_coefficients. run_step.
  rewrite (bool_decide_eq_false_2 _ Hfeat), Hkpi, (bool_decide_eq_false_2 _ Hmd).
  cbv [negb orb]. run_step.
  unfold refit_fixed_try. run_step. rewrite Hy. run_step.
  rewrite (bool_decide_eq_false_2 _ Hfx). run_step.
  destruct (subtract_fixed_loop_ok m (fixed_coefficients m) y m) as [adj ->].
  { unfold full_design in HX. by eapply fill_features_values. }
  run_step. rewrite (fully_fixed_no_remaining m Hfull).
  rewrite bool_decide_eq_true_2 by done.
  destruct Hfull as [_ ->]. cbv [andb]. run_step. rewrite HX. run_step.
  destruct (fit _); run_step; done.
Qed.

(** C5 (as amended).  For a model with a target and at least one
    feature, whose target and feature columns are available and on
    whose full design the library's fit succeeds: when every feature
    and the intercept have fixed coefficients, the constrained refit
    returns with the supplied value as the coefficient of every fixed
    name; the library is consulted only for the unconstrained fit of
    the target on the full design (the outcome does not depend on its
    answer on any other problem, in particular not on a regression of
    the adjusted target); and the fit statistics, R-squared included,
    are the ones of that unconstrained fit. *)
Theorem fully_fixed_refit_reports_supplied_values
    (fit : fitter) (m : LinearModel) (y : Series.t) (X : DataFrame)
    (r0 : RegressionResults) :
  features m ≠ [] → truthy (kpi m) = true → fully_fixed m →
  NoDup (PyDict.keys (fixed_coefficients m)) →
  target m = Ok y → full_design m (length y) = Ok X →
  fit (mkOLS y X) = Ok r0 →
  ∃ m' r,
    run (_refit_model_with_fixed_coefficients fit) m = (Ok tt, m') ∧
    results m' = Some r ∧
    (∀ v c, PyDict.get v (fixed_coefficients m) = Some c →
            PyDict.get v (params r) = Some c) ∧
    rsquared r = rsquared r0 ∧ fittedvalues r = fittedvalues r0 ∧
    (∀ fit' : fitter, fit' (mkOLS y X) = fit (mkOLS y X) →
       run (_refit_model_with_fixed_coefficients fit') m =
       run (_refit_model_with_fixed_coefficients fit) m).
Proof.
  intros Hfeat Hkpi Hfull Hnd Hy HX Hfit.
  rewrite (fully_fixed_refit_run fit m y X) by done. rewrite Hfit.
  eexists _, _. split; [reflexivity|]. split; [reflexivity|].
  split; [|split; [done|split; [done|]]].
  - intros v c Hv. simpl. by apply override_fixed_present.
  - intros fit' Hsame.
    rewrite (fully_fixed_refit_run fit' m y X) by done. by rewrite Hsame.
Qed.

(** The theorem on the model with ["TV"] fixed to 2 and the intercept
    fixed to 0. *)
Lemma fully_fixed_refit_reports_supplied_values_witness :
  ∃ m' r,
    run (_refit_model_with_fixed_coefficients ExactOLS.exact_ols) Fixtures.m_all_fixed
      = (Ok tt, m') ∧
    results m' = Some r ∧
    (∀ v c, PyDict.get v (fixed_coefficients Fixtures.m_all_fixed) = Some c →
            PyDict.get v (params r) = Some c) ∧
    rsquared r = qf 529 535 ∧
    fittedvalues r = [qf 14 5; qf 51 10; qf 37 5; qf 97 10] ∧
    (∀ fit' : fitter,
       fit' (mkOLS [qz 3; qz 5; qz 7; qz 10]
                   (mkFrame 4 [("const", Series.const 4 1); ("TV", [qz 1; qz 2; qz 3; qz 4])]))
       = ExactOLS.exact_ols
           (mkOLS [qz 3; qz 5; qz 7; qz 10]
                  (mkFrame 4 [("const", Series.const 4 1); ("TV", [qz 1; qz 2; qz 3; qz 4])])) →
       run (_refit_model_with_fixed_coefficients fit') Fixtures.m_all_fixed =
       run (_refit_model_with_fixed_coefficients ExactOLS.exact_ols) Fixtures.m_all_fixed).
Proof.
  refine (fully_fixed_refit_reports_supplied_values ExactOLS.exact_ols
            Fixtures.m_all_fixed [qz 3; qz 5; qz 7; qz 10]
            (mkFrame 4 [("const", Series.const 4 1); ("TV", [qz 1; qz 2; qz 3; qz 4])])
            (mkResults [("const", qf 1 2); ("TV", qf 23 10)] (qf 529 535)
                       [qf 14 5; qf 51 10; qf 37 5; qf 97 10])
            _ _ _ _ _ _ _).
  - by_compute.
  - reflexivity.
  - split.
    + intros f Hf. vm_compute in Hf. apply list_elem_of_singleton in Hf as ->.
      vm_compute; reflexivity.
    + vm_compute; reflexivity.
  - by_compute.
  - by_compute.
  - by_compute.
  - by_compute.
Defined.

(** Without features the constrained refit returns at once. *)
Lemma refit_without_features fit m :
  features m = [] → run (_refit_model_with_fixed_coefficients fit) m = (Ok tt, m).
Proof.
  intros Hf. unfold _refit_model_with_fixed_coefficients. run_step.
  rewrite (bool_decide_eq_true_2 _ Hf). cbv [orb]. by run_step.
Qed.

(** C5 (the claim as stated fails).  On the model with ["TV"] fixed to
    2 and the intercept to 0 the reported coefficients are the supplied
    ones, whose fitted values leave residuals with
    [1 - SSR/SST = 79/107]; the R-squared of the stored results is
    529/535, the one of the unconstrained least-squares fit.  And on
    the intercept-only model, where fixing the intercept to 5 fixes
    every coefficient there is, the refit returns at once: the results
    keep the estimate 25/4 and the supplied 5 is not reported. *)
Lemma fully_fixed_rsquared_counterexample :
  (∃ r y X,
     results Fixtures.m_all_fixed = Some r ∧
     target Fixtures.m_all_fixed = Ok y ∧
     full_design Fixtures.m_all_fixed (length y) = Ok X ∧
     params r = [("const", 0); ("TV", qz 2)] ∧
     ExactOLS.rsquared_of_params y X (params r) = qf 79 107 ∧
     rsquared r = qf 529 535 ∧
     Some (rsquared r) = rsquared <$> (match ExactOLS.exact_ols (mkOLS y X) with
                                       | Ok r0 => Some r0 | Raise _ => None end) ∧
     rsquared r ≠ ExactOLS.rsquared_of_params y X (params r)) ∧
  (∃ m' r,
     run (set_fixed_coefficient ExactOLS.exact_ols "const" (qz 5)) Fixtures.m_init = (Ok tt, m') ∧
     features m' = [] ∧ fixed_coefficients m' = [("const", qz 5)] ∧ fully_fixed m' ∧
     results m' = Some r ∧ params r = [("const", qf 25 4)] ∧
     get "const" (params r) ≠ get "const" (fixed_coefficients m')).
Proof.
  split.
  - eexists _, _, _. split; [vm_compute; reflexivity|].
    split; [vm_compute; reflexivity|]. split; [vm_compute; reflexivity|].
    split; [by_compute|]. split; [by_compute|]. split; [by_compute|].
    split; by_compute.
  - eexists _, _. split; [vm_compute; reflexivity|].
    split; [by_compute|]. split; [by_compute|]. split.
    { split; [|by_compute]. intros f Hf. exfalso. revert Hf. by_compute. }
    split; [vm_compute; reflexivity|]. split; by_compute.
Qed.

End LinearModelSpec.

(** * Sums over the columns of a dictionary of series *)

Module SumFacts.

Import Series SeriesFacts PyDict PyDictFacts Decomposition.


Lemma qsum_app {A} (f : A → Qc) l1 l2 : qsum f (l1 ++ l2) = qsum f l1 + qsum f l2.
Proof. induction l1 as [|x l1 IH]; simpl; [ring | rewrite IH; ring]. Qed.

Lemma qsum_ext {A} (f g : A → Qc) l :
  (∀ x, x ∈ l → f x = g x) → qsum f l = qsum g l.
Proof.
  induction l as [|x l IH]; intros H; simpl; [done|].
  rewrite H by left. rewrite IH; [done|]. intros y Hy. apply H. by right.
Qed.

Lemma qsum_perm {A} (f : A → Qc) l1 l2 : l1 ≡ₚ l2 → qsum f l1 = qsum f l2.
Proof.
  induction 1 as [|x l1 l2 _ IH|x y l|l1 l2 l3 _ IH1 _ IH2]; simpl.
  - done.
  - by rewrite IH.
  - ring.
  - congruence.
Qed.

Lemma qsum_fmap {A B} (g : A → B) (f : B → Qc) l : qsum f (g <$> l) = qsum (f ∘ g) l.
Proof. induction l as [|x l IH]; csimpl; [done | by rewrite IH]. Qed.

Lemma qsum_scale {A} (f : A → Qc) c l : qsum (λ x, c * f x) l = c * qsum f l.
Proof. induction l as [|x l IH]; simpl; [ring | rewrite IH; ring]. Qed.

Lemma foldl_plus_qsum (a : Qc) (l : list Qc) : foldl Qcplus a l = a + qsum id l.
Proof.
  revert a. induction l as [|x l IH]; intros a; simpl; [ring|].
  rewrite IH. unfold id. ring.
Qed.

Lemma sum_at_qsum cols t : sum_at cols t = qsum (λ c, iloc c.2 t) cols.
Proof. reflexivity. Qed.

Lemma value_at_set_eq cols k s t : value_at (set k s cols) k t = iloc s t.
Proof. unfold value_at. by rewrite get_set_eq. Qed.

Lemma value_at_absent cols k t : get k cols = None → value_at cols k t = 0.
Proof. unfold value_at. intros ->. apply iloc_nil. Qed.

(** Assigning a column changes the sum by the difference of the values. *)
Lemma sum_at_set cols k s t :
  sum_at (set k s cols) t = sum_at cols t - value_at cols k t + iloc s t.
Proof.
  unfold value_at. induction cols as [|[k' v'] cols IH]; simpl.
  - rewrite iloc_nil. ring.
  - destruct (decide (k' = k)) as [->|]; simpl; [ring|]. rewrite IH. ring.
Qed.

Lemma sum_at_del cols k t :
  sum_at (del k cols) t = sum_at cols t - value_at cols k t.
Proof.
  unfold value_at. induction cols as [|[k' v'] cols IH]; simpl.
  - rewrite iloc_nil. ring.
  - destruct (decide (k' = k)) as [->|]; simpl; [ring|]. rewrite IH. ring.
Qed.

(** With distinct keys, the sum of the columns is the sum of the
    per-key values. *)
Lemma sum_at_keys cols t :
  NoDup (keys cols) → sum_at cols t = qsum (λ k, value_at cols k t) (keys cols).
Proof.
  unfold keys, value_at. induction cols as [|[k v] cols IH]; intros Hnd; [done|].
  csimpl in Hnd. apply NoDup_cons in Hnd as [Hk Hnd]. csimpl.
  rewrite decide_True by done. simpl. f_equal. rewrite IH by done.
  apply qsum_ext. intros k' Hk'. rewrite decide_False; [done|].
  intros ->. done.
Qed.

Lemma Forall_set {V} (P : string * V → Prop) d k v :
  Forall P d → P (k, v) → Forall P (set k v d).
Proof.
  intros Hd Hkv. induction Hd as [|[k' v'] d Hx Hd IH]; simpl.
  - by constructor.
  - destruct (decide (k' = k)); constructor; done.
Qed.

Lemma Forall_del {V} (P : string * V → Prop) d k : Forall P d → Forall P (del k d).
Proof.
  intros Hd. induction Hd as [|[k' v'] d Hx Hd IH]; simpl; [done|].
  destruct (decide (k' = k)); [done | by constructor].
Qed.

Lemma Forall_get {V} (P : string * V → Prop) d k v :
  Forall P d → get k d = Some v → P (k, v).
Proof.
  intros Hd Hget. apply get_Some_In in Hget.
  rewrite Forall_forall in Hd. by apply Hd.
Qed.

Lemma keys_del_subseteq {V} (d : list (string * V)) k : keys (del k d) ⊆ keys d.
Proof.
  unfold keys. induction d as [|[k' v'] d IH]; simpl; [done|].
  destruct (decide (k' = k)); csimpl.
  - intros x Hx. by right.
  - intros x Hx. apply elem_of_cons in Hx as [->|Hx]; [left | right; by apply IH].
Qed.

Lemma NoDup_keys_del {V} (d : list (string * V)) k : NoDup (keys d) → NoDup (keys (del k d)).
Proof.
  unfold keys. induction d as [|[k' v'] d IH]; simpl; [done|].
  csimpl. intros Hnd. apply NoDup_cons in Hnd as [Hk Hnd].
  destruct (decide (k' = k)); csimpl; [done|].
  apply NoDup_cons. split; [|by apply IH].
  intros Hin. apply Hk. by apply (keys_del_subseteq d k).
Qed.

End SumFacts.

(** * Expansion of weighted variables *)

Module ExpansionSpec.

Import Series SeriesFacts PyDict PyDictFacts Frame LinearModels Decomposition SumFacts.

Lemma total_weight_qsum comps : total_weight comps = qsum (λ c, Qcabs c.2) comps.
Proof.
  unfold total_weight.
  assert (H : ∀ a, foldl (λ acc (c : string * Qc), acc + Qcabs c.2) a comps
                   = a + qsum (λ c, Qcabs c.2) comps).
  { induction comps as [|c comps IH]; intros a; simpl; [ring|]. rewrite IH. ring. }
  rewrite H. ring.
Qed.

Lemma total_weight_nonneg (comps : list (string * Qc)) :
  Forall (λ c, 0 ≤ c.2) comps → total_weight comps = qsum (λ c, c.2) comps.
Proof.
  intros Hpos. rewrite total_weight_qsum. apply qsum_ext.
  intros c Hc. rewrite Forall_forall in Hpos. apply Qcabs_pos. by apply Hpos.
Qed.

Lemma expand_component_length n w wc tw st item :
  all_length n st.1 → length wc = n →
  all_length n (expand_component w wc tw st item).1.
Proof.
  intros Hall Hwc. unfold expand_component. simpl.
  destruct (get item.1 st.1) as [s|] eqn:Hget.
  - apply Forall_set; [done|]. simpl.
    pose proof (Forall_get _ _ _ _ Hall Hget) as Hs. simpl in Hs.
    rewrite length_add; [done|]. by rewrite length_mul_scalar, Hs, Hwc.
  - apply Forall_set; [done|]. simpl. by rewrite length_mul_scalar.
Qed.

(** One component receives its share of the composite's contribution. *)
Lemma expand_component_sum n w wc tw st item t :
  all_length n st.1 → length wc = n → (t < n)%nat →
  sum_at (expand_component w wc tw st item).1 t
  = sum_at st.1 t + iloc wc t * (item.2 / tw).
Proof.
  intros Hall Hwc Ht. unfold expand_component. simpl.
  destruct (get item.1 st.1) as [s|] eqn:Hget.
  - rewrite sum_at_set. unfold value_at. rewrite Hget. simpl.
    pose proof (Forall_get _ _ _ _ Hall Hget) as Hs. simpl in Hs.
    rewrite iloc_add by (rewrite ?length_mul_scalar; lia).
    rewrite iloc_mul_scalar. ring.
  - rewrite sum_at_set, value_at_absent by done.
    rewrite iloc_mul_scalar. ring.
Qed.

Lemma expand_components_length n w wc tw comps st :
  all_length n st.1 → length wc = n →
  all_length n (foldl (expand_component w wc tw) st comps).1.
Proof.
  intros Hall Hwc. revert st Hall.
  induction comps as [|c comps IH]; intros st Hall; simpl; [done|].
  apply IH. by apply expand_component_length.
Qed.

Lemma expand_components_sum n w wc tw comps st t :
  all_length n st.1 → length wc = n → (t < n)%nat →
  sum_at (foldl (expand_component w wc tw) st comps).1 t
  = sum_at st.1 t + iloc wc t * (qsum (λ c, c.2) comps / tw).
Proof.
  intros Hall Hwc Ht. revert st Hall.
  induction comps as [|c comps IH]; intros st Hall; simpl.
  - unfold Qcdiv. ring.
  - rewrite IH by (by apply expand_component_length).
    rewrite (expand_component_sum n) by done. unfold Qcdiv. ring.
Qed.

(** What one expansion does to the sum of the contributions. *)
Lemma expand_weighted_sum
    (n : nat) (vc : list (string * Series.t)) (groups : list (string * GroupInfo))
    (w : string) (info : WgtdInfo) (wc : Series.t) (t : nat) :
  all_length n vc → PyDict.get w vc = Some wc → (t < n)%nat →
  0 < total_weight (default [] (components info)) →
  sum_at (expand_weighted (vc, groups) (w, info)).1 t
  = sum_at (PyDict.del w vc) t
    + iloc wc t * (qsum (λ c, c.2) (default [] (components info))
                   / total_weight (default [] (components info))).
Proof.
  intros Hall Hget Ht Htw.
  assert (Hwc : length wc = n) by apply (Forall_get _ _ _ _ Hall Hget).
  unfold expand_weighted. cbn [fst snd]. rewrite Hget.
  rewrite decide_True by done.
  rewrite (expand_components_sum n) by (try done; by apply Forall_del).
  done.
Qed.

(** C2 (as amended).  When the weighted variable [w] is expanded, the
    contributions added to its components sum, at every timestep, to the
    composite's own contribution times [Σ C[c] / Σ |C[c]|]; they re-sum
    to the composite's contribution itself when no component
    coefficient is negative. *)
Theorem weighted_expansion_resums
    (n : nat) (vc : list (string * Series.t)) (groups : list (string * GroupInfo))
    (w : string) (info : WgtdInfo) (wc : Series.t) (t : nat) :
  all_length n vc → PyDict.get w vc = Some wc → (t < n)%nat →
  0 < total_weight (default [] (components info)) →
  let comps := default [] (components info) in
  let vc' := (expand_weighted (vc, groups) (w, info)).1 in
  sum_at vc' t - sum_at (PyDict.del w vc) t
    = iloc wc t * (qsum (λ c, c.2) comps / total_weight comps) ∧
  (Forall (λ c, 0 ≤ c.2) comps →
   sum_at vc' t - sum_at (PyDict.del w vc) t = iloc wc t).
Proof.
  intros Hall Hget Ht Htw comps vc'. subst vc'.
  rewrite (expand_weighted_sum n vc groups w info wc t Hall Hget Ht Htw).
  fold comps. split; [ring|].
  intros Hpos. rewrite <- (total_weight_nonneg comps Hpos).
  assert (Hnz : total_weight comps ≠ 0).
  { intros Hz. fold comps in Htw. rewrite Hz in Htw. by apply Qclt_not_eq in Htw. }
  field. exact Hnz.
Qed.

(** The theorem on a composite of weights 2 and 1. *)
Lemma weighted_expansion_resums_witness :
  let info := mkWgtd "Mix" (Some [("TV", qz 2); ("Radio", qz 1)]) in
  let vc := [("const", [qz 1; qz 1; qz 1]); ("Mix|WGTD", [qz 3; qz 6; qz 9])] in
  let vc' := (expand_weighted (vc, []) ("Mix|WGTD", info)).1 in
  sum_at vc' 1 - sum_at (PyDict.del "Mix|WGTD" vc) 1
    = Series.iloc [qz 3; qz 6; qz 9] 1
      * (qsum (λ c, c.2) [("TV", qz 2); ("Radio", qz 1)]
         / total_weight [("TV", qz 2); ("Radio", qz 1)]) ∧
  (Forall (λ c : string * Qc, 0 ≤ c.2) [("TV", qz 2); ("Radio", qz 1)] →
   sum_at vc' 1 - sum_at (PyDict.del "Mix|WGTD" vc) 1 = Series.iloc [qz 3; qz 6; qz 9] 1).
Proof.
  refine (weighted_expansion_resums 3
            [("const", [qz 1; qz 1; qz 1]); ("Mix|WGTD", [qz 3; qz 6; qz 9])] []
            "Mix|WGTD" (mkWgtd "Mix" (Some [("TV", qz 2); ("Radio", qz 1)]))
            [qz 3; qz 6; qz 9] 1 _ _ _ _).
  - repeat constructor.
  - reflexivity.
  - lia.
  - by_compute.
Defined.

(** C2 (the claim as stated fails).  Scenario C: a composite with the
    coefficients +2 and -1 and the contribution 3, 6, 9 is expanded into
    the component contributions 2, 4, 6 and -1, -2, -3, which re-sum to
    1, 2, 3: one third of the undecomposed series. *)
Lemma weighted_expansion_scenario_C_counterexample :
  let info := mkWgtd "Media" (Some [("TV", qz 2); ("Radio", qz (-1))]) in
  let vc : list (string * Series.t) := [("Media|WGTD", [qz 3; qz 6; qz 9])]%list in
  let vc' := (expand_weighted (vc, []) ("Media|WGTD", info)).1 in
  vc' = [("TV", [qz 2; qz 4; qz 6]); ("Radio", [qz (-1); qz (-2); qz (-3)])] ∧
  (sum_at vc' <$> [0; 1; 2]%nat) = [qz 1; qz 2; qz 3] ∧
  ¬ (∀ t, (t < 3)%nat → sum_at vc' t = Series.iloc [qz 3; qz 6; qz 9] t).
Proof.
  split; [by_compute|]. split; [by_compute|].
  intros H. specialize (H 0%nat ltac:(lia)). revert H. by_compute.
Qed.

End ExpansionSpec.

(** * Grouping and reconciliation *)

Module ReconciliationSpec.

Import Series SeriesFacts PyDict PyDictFacts Frame Py Stats LinearModels Decomposition SumFacts.

(** The loop [for i in range(len(base)): base.iloc[i] += total]. *)
Lemma add_loop_length (base : Series.t) c (idx : list nat) :
  length (foldl (λ b i, <[i := iloc b i + c]> b) base idx) = length base.
Proof.
  revert base. induction idx as [|i idx IH]; intros base; simpl; [done|].
  rewrite IH. apply length_insert.
Qed.

Lemma add_loop_iloc (base : Series.t) c k t :
  (k ≤ length base)%nat →
  iloc (foldl (λ b i, <[i := iloc b i + c]> b) base (seq 0 k)) t
  = if decide (t < k)%nat then iloc base t + c else iloc base t.
Proof.
  induction k as [|k IH]; intros Hk.
  - cbn [seq foldl]. case_decide; [lia | done].
  - rewrite seq_S, foldl_app. cbn [foldl Nat.add].
    set (b := foldl _ base (seq 0 k)) in *.
    assert (Hlen : length b = length base) by apply add_loop_length.
    destruct (decide (t = k)) as [->|Hne].
    + unfold iloc at 1. rewrite list_lookup_insert_eq by lia. cbn [default from_option id].
      rewrite IH by lia. repeat case_decide; (done || lia).
    + unfold iloc at 1. rewrite list_lookup_insert_ne by done.
      fold (iloc b t). rewrite IH by lia.
      repeat case_decide; (done || lia).
Qed.

Lemma total_of_nil : total_of [] = 0.
Proof. reflexivity. Qed.

Lemma total_of_qsum adj : total_of adj = qsum (λ c : string * Qc, c.2) adj.
Proof.
  unfold total_of, values. rewrite foldl_plus_qsum, qsum_fmap. unfold compose, id.
  ring.
Qed.

Lemma total_of_set adj k x :
  total_of (set k x adj) = total_of adj - default 0 (get k adj) + x.
Proof.
  rewrite !total_of_qsum. induction adj as [|[k' v'] adj IH]; simpl.
  - ring.
  - destruct (decide (k' = k)) as [->|]; simpl; [ring|]. rewrite IH. ring.
Qed.

Lemma add_total_adjustment_nil grouped : add_total_adjustment grouped [] = grouped.
Proof. unfold add_total_adjustment. by destruct (get "Base" grouped). Qed.

Lemma add_total_adjustment_no_base grouped adj :
  get "Base" grouped = None → add_total_adjustment grouped adj = grouped.
Proof. unfold add_total_adjustment. by intros ->. Qed.

Lemma add_total_adjustment_base grouped adj base t :
  get "Base" grouped = Some base → (t < length base)%nat →
  value_at (add_total_adjustment grouped adj) "Base" t = iloc base t + total_of adj.
Proof.
  intros Hb Ht. unfold add_total_adjustment. rewrite Hb.
  destruct adj as [|a adj].
  - unfold value_at. rewrite Hb. simpl. rewrite total_of_nil. ring.
  - rewrite value_at_set_eq, add_loop_iloc by done. by rewrite decide_True.
Qed.

Lemma add_total_adjustment_other grouped adj g :
  g ≠ "Base" → get g (add_total_adjustment grouped adj) = get g grouped.
Proof.
  intros Hg. unfold add_total_adjustment.
  destruct (get "Base" grouped); [|done]. destruct adj; [done|].
  by rewrite get_set_ne.
Qed.

Lemma add_total_adjustment_keys grouped adj :
  keys (add_total_adjustment grouped adj) = keys grouped.
Proof.
  unfold add_total_adjustment.
  destruct (get "Base" grouped) eqn:Hb; [|done]. destruct adj; [done|].
  apply keys_set_present. rewrite Hb. eauto.
Qed.

(** C6 (as amended).  In [calculate_decomposition] the grouped series
    pass through the reconciliation before they become the group columns
    of the output.  When a ["Base"] group is among the grouped
    contributions, the sum of the recorded adjustment scalars is added to
    its series at every timestep and no other group changes; when there
    is none, no ["Base"] group is created and every grouped series is
    output as it is. *)
Theorem adjustments_added_to_existing_base
    (m : LinearModel) (groups : list (string * GroupInfo))
    (data : DataFrame) (res : RegressionResults) (k : string) (actual : Series.t) :
  model_data m = Some data → results m = Some res →
  kpi m = Some k → column data k = Ok actual →
  let ga := grouped_and_adjustments m res data groups in
  let reconciled := add_total_adjustment ga.1 ga.2 in
  calculate_decomposition m groups
    = Ok (foldl (λ df g, assign g.1 g.2 df)
                (assign "Predicted" (predicted m res data)
                        (assign "Actual" actual (Frame.empty (nrows data))))
                reconciled) ∧
  (∀ base, PyDict.get "Base" ga.1 = Some base →
           ∀ t, (t < length base)%nat →
                value_at reconciled "Base" t = iloc base t + total_of ga.2) ∧
  (∀ g, g ≠ "Base" → PyDict.get g reconciled = PyDict.get g ga.1) ∧
  (PyDict.get "Base" ga.1 = None → reconciled = ga.1).
Proof.
  intros Hd Hr Hk Hcol ga reconciled. split_and!.
  - unfold calculate_decomposition. by rewrite Hd, Hr, Hk, Hcol.
  - intros base Hb t Ht. by apply add_total_adjustment_base.
  - intros g Hg. by apply add_total_adjustment_other.
  - apply add_total_adjustment_no_base.
Qed.

(** The theorem on the model with ["TV"], the intercept in ["Base"] and
    a Min adjustment on ["TV"]. *)
Lemma adjustments_added_to_existing_base_witness :
  let m := Fixtures.m_tv in
  let groups := Fixtures.groups_base in
  ∃ data res actual,
    model_data m = Some data ∧ results m = Some res ∧ column data "Sales" = Ok actual ∧
    let ga := grouped_and_adjustments m res data groups in
    let reconciled := add_total_adjustment ga.1 ga.2 in
    calculate_decomposition m groups
      = Ok (foldl (λ df g, assign g.1 g.2 df)
                  (assign "Predicted" (predicted m res data)
                          (assign "Actual" actual (Frame.empty (nrows data))))
                  reconciled) ∧
    (∀ base, PyDict.get "Base" ga.1 = Some base →
             ∀ t, (t < length base)%nat →
                  value_at reconciled "Base" t = iloc base t + total_of ga.2) ∧
    (∀ g, g ≠ "Base" → PyDict.get g reconciled = PyDict.get g ga.1) ∧
    (PyDict.get "Base" ga.1 = None → reconciled = ga.1).
Proof.
  eexists _, _, _.
  split; [reflexivity|]. split; [reflexivity|]. split; [reflexivity|].
  refine (adjustments_added_to_existing_base Fixtures.m_tv Fixtures.groups_base
            _ _ "Sales" _ _ _ _ _); reflexivity.
Defined.

(** C6 (the claim as stated fails).  With the intercept assigned to a
    group ["Baseline"] and a Min adjustment on ["TV"], the scalar 23/10
    is recorded, the output has no ["Base"] column, and the group
    columns sum to 1/2 at the first timestamp where Predicted is 14/5:
    the adjustment is dropped. *)
Lemma adjustment_dropped_without_base_counterexample :
  ∃ out res data,
    results Fixtures.m_tv = Some res ∧ model_data Fixtures.m_tv = Some data ∧
    calculate_decomposition Fixtures.m_tv Fixtures.groups_no_base = Ok out ∧
    (grouped_and_adjustments Fixtures.m_tv res data Fixtures.groups_no_base).2
      = [("TV", qf 23 10)]%list ∧
    PyDict.keys (columns out) = ["Actual"; "Predicted"; "Baseline"; "Media"] ∧
    PyDict.get "Base" (columns out) = None ∧
    sum_at (group_columns out) 0 = qf 1 2 ∧
    value_at (columns out) "Predicted" 0 = qf 14 5 ∧
    sum_at (group_columns out) 0 ≠ value_at (columns out) "Predicted" 0.
Proof.
  eexists _, _, _. split; [reflexivity|]. split; [reflexivity|].
  split; [vm_compute; reflexivity|].
  split; [by_compute|]. split; [by_compute|]. split; [by_compute|].
  split; [by_compute|]. split; by_compute.
Qed.

End ReconciliationSpec.

(** * Conservation of the prediction by the decomposition *)

Module ConservationSpec.

Import Series SeriesFacts PyDict PyDictFacts Frame Py Stats LinearModels Decomposition.
Import SumFacts ExpansionSpec ReconciliationSpec.

(** ** The individual contributions *)

Section contributions.

Variables (coefficients : list (string * Qc)) (data : DataFrame).

(** The contribution series of a variable, when it has one. *)
Let contribution (k : string) : option Series.t :=
  match get k coefficients with
  | None => None
  | Some coef => Series.scale coef <$> values_of data k
  end.

Lemma contribution_step_get vc item k :
  get k (contribution_step coefficients data vc item)
  = if decide (item.1 = k)
    then match contribution k with Some s => Some s | None => get k vc end
    else get k vc.
Proof.
  unfold contribution_step, contribution.
  destruct (decide (item.1 = k)) as [<-|Hne].
  - destruct (get item.1 coefficients); [|done].
    destruct (values_of data item.1); simpl; [apply get_set_eq | done].
  - destruct (get item.1 coefficients); [|done].
    destruct (values_of data item.1); simpl; [by apply get_set_ne | done].
Qed.

Lemma variable_contributions_get_from vc (groups : list (string * GroupInfo)) k :
  get k (foldl (contribution_step coefficients data) vc groups)
  = match (if decide (k ∈ keys groups) then contribution k else None) with
    | Some s => Some s
    | None => get k vc
    end.
Proof.
  unfold keys. revert vc. induction groups as [|item groups IH]; intros vc.
  - cbn [foldl]. case_decide as H; [by apply elem_of_nil in H | done].
  - cbn [foldl]. rewrite IH, contribution_step_get. csimpl.
    destruct (decide (k ∈ groups.*1)) as [Hin|Hnin];
      destruct (decide (item.1 = k)) as [Heq|Hne];
      destruct (decide (k ∈ item.1 :: groups.*1)) as [Hc|Hc];
      try (by destruct (contribution k)); exfalso.
    + apply Hc. by apply elem_of_cons; right.
    + apply Hc. by apply elem_of_cons; right.
    + apply Hc. by apply elem_of_cons; left.
    + apply elem_of_cons in Hc as [->|Hc]; done.
Qed.

Lemma variable_contributions_get (groups : list (string * GroupInfo)) k :
  get k (variable_contributions coefficients data groups)
  = if decide (k ∈ keys groups) then contribution k else None.
Proof.
  unfold variable_contributions. rewrite variable_contributions_get_from.
  by destruct (if decide (k ∈ keys groups) then contribution k else None).
Qed.

Lemma variable_contributions_NoDup (groups : list (string * GroupInfo)) :
  NoDup (keys (variable_contributions coefficients data groups)).
Proof.
  unfold variable_contributions.
  assert (H : ∀ vc, NoDup (keys vc) →
                    NoDup (keys (foldl (contribution_step coefficients data) vc groups))).
  { induction groups as [|item groups IH]; intros vc Hvc; [done|].
    cbn [foldl]. apply IH. unfold contribution_step.
    destruct (get item.1 coefficients); [|done].
    destruct (values_of data item.1); [by apply NoDup_keys_set | done]. }
  apply H. apply NoDup_nil_2.
Qed.

Lemma values_of_length k v : wf data → values_of data k = Some v → length v = nrows data.
Proof.
  intros Hwf. unfold values_of. destruct (decide (k = "const")).
  - intros [= <-]. apply length_const.
  - intros Hget. apply (Forall_get _ _ _ _ Hwf Hget).
Qed.

Lemma variable_contributions_length (groups : list (string * GroupInfo)) :
  wf data → all_length (nrows data) (variable_contributions coefficients data groups).
Proof.
  intros Hwf. unfold variable_contributions.
  assert (H : ∀ vc, all_length (nrows data) vc →
                    all_length (nrows data)
                      (foldl (contribution_step coefficients data) vc groups)).
  { induction groups as [|item groups IH]; intros vc Hvc; [done|].
    cbn [foldl]. apply IH. unfold contribution_step.
    destruct (get item.1 coefficients); [|done].
    destruct (values_of data item.1) eqn:Hv; [|done].
    apply Forall_set; [done|]. simpl. rewrite length_scale.
    by eapply values_of_length. }
  apply H. constructor.
Qed.

(** ** The prediction *)

Lemma select_columns (fs : list string) :
  (∀ f, f ∈ fs → is_Some (get f (columns data))) →
  select data fs = Ok ((λ f, (f, default [] (get f (columns data)))) <$> fs).
Proof.
  induction fs as [|f fs IH]; intros Hall; [done|].
  cbn [select]. unfold column. destruct (Hall f) as [v Hv]; [left|].
  rewrite Hv, IH; [by csimpl; rewrite Hv|].
  intros g Hg. apply Hall. by apply elem_of_cons; right.
Qed.

Lemma linear_combination_length n (p : list (string * Qc)) (cols : list (string * Series.t)) acc :
  all_length n cols → length acc = n →
  length (foldl (λ acc pc, Series.add acc (Series.scale pc.1.2 pc.2.2)) acc (zip p cols)) = n.
Proof.
  intros Hcols. revert p acc. induction Hcols as [|c cols Hc Hcols IH]; intros p acc Hacc.
  - by destruct p.
  - destruct p as [|pc p]; [done|]. cbn [zip zip_with foldl]. apply IH. simpl.
    rewrite length_add; [done|]. by rewrite length_scale, Hc.
Qed.

Lemma linear_combination_iloc_from n (p : list (string * Qc)) (cols : list (string * Series.t)) acc t :
  all_length n cols → length acc = n → (t < n)%nat →
  iloc (foldl (λ acc pc, Series.add acc (Series.scale pc.1.2 pc.2.2)) acc (zip p cols)) t
  = iloc acc t + qsum (λ pc, pc.1.2 * iloc pc.2.2 t) (zip p cols).
Proof.
  intros Hcols Hacc Ht. revert p acc Hacc.
  induction Hcols as [|c cols Hc Hcols IH]; intros p acc Hacc.
  - destruct p; simpl; ring.
  - destruct p as [|pc p]; [simpl; ring|]. cbn [zip zip_with foldl]. simpl.
    rewrite IH by (rewrite length_add; [done|]; by rewrite length_scale, Hc).
    rewrite iloc_add by (rewrite ?length_scale; lia).
    rewrite iloc_scale. ring.
Qed.

Lemma linear_combination_iloc n (p : list (string * Qc)) (cols : list (string * Series.t)) t :
  all_length n cols → (t < n)%nat →
  iloc (linear_combination n p cols) t = qsum (λ pc, pc.1.2 * iloc pc.2.2 t) (zip p cols).
Proof.
  intros Hcols Ht. unfold linear_combination.
  rewrite (linear_combination_iloc_from n) by (try done; apply length_const).
  rewrite iloc_const by done. ring.
Qed.

Lemma zip_keys_qsum (p : list (string * Qc)) (h : string → Series.t) t :
  qsum (λ pc, pc.1.2 * iloc pc.2.2 t) (zip p ((λ k, (k, h k)) <$> keys p))
  = qsum (λ kc, kc.2 * iloc (h kc.1) t) p.
Proof.
  unfold keys. induction p as [|[k c] p IH]; [done|].
  csimpl. by rewrite IH.
Qed.

End contributions.

(** ** Expansion of the weighted variables *)

Lemma covered_set_groups vc groups k g :
  covered vc groups → covered vc (set k g groups).
Proof.
  intros Hc k' Hk'. rewrite get_set. case_decide; [eauto | by apply Hc].
Qed.

Lemma expand_component_inv (P : GroupInfo → Prop) w wc tw st item :
  is_Some (get w st.2) → covered st.1 st.2 → NoDup (keys st.1) →
  Forall (λ g, P g.2) st.2 →
  let st' := expand_component w wc tw st item in
  is_Some (get w st'.2) ∧ covered st'.1 st'.2 ∧ NoDup (keys st'.1) ∧
  Forall (λ g, P g.2) st'.2.
Proof.
  intros [g Hw] Hcov Hnd HP st'. subst st'. unfold expand_component. simpl.
  rewrite Hw.
  assert (Hg : P g) by apply (Forall_get _ _ _ _ HP Hw).
  split_and!.
  - destruct (get item.1 st.2); [by rewrite Hw|].
    rewrite get_set. case_decide; [eauto | by rewrite Hw].
  - intros k Hk.
    assert (Hcase : k = item.1 ∨ is_Some (get k st.1)).
    { destruct (decide (k = item.1)) as [|Hne]; [by left|]. right.
      destruct (get item.1 st.1); by rewrite get_set_ne in Hk. }
    destruct (get item.1 st.2) as [gi|] eqn:Hgi.
    + destruct Hcase as [->|Hk']; [by rewrite Hgi | by apply Hcov].
    + rewrite get_set. case_decide; [eauto|].
      destruct Hcase as [->|Hk']; [done | by apply Hcov].
  - destruct (get item.1 st.1); by apply NoDup_keys_set.
  - destruct (get item.1 st.2); [done|]. by apply Forall_set.
Qed.

Lemma expand_components_inv (P : GroupInfo → Prop) w wc tw comps st :
  is_Some (get w st.2) → covered st.1 st.2 → NoDup (keys st.1) →
  Forall (λ g, P g.2) st.2 →
  let st' := foldl (expand_component w wc tw) st comps in
  covered st'.1 st'.2 ∧ NoDup (keys st'.1) ∧ Forall (λ g, P g.2) st'.2.
Proof.
  revert st. induction comps as [|c comps IH]; intros st Hw Hcov Hnd HP; [done|].
  cbn [foldl].
  destruct (expand_component_inv P w wc tw st c Hw Hcov Hnd HP) as (?&?&?&?).
  by apply IH.
Qed.

Lemma covered_del vc groups k : covered vc groups → covered (del k vc) groups.
Proof.
  intros Hc k' Hk'. apply Hc. apply get_is_Some_keys.
  apply (keys_del_subseteq vc k). by apply get_is_Some_keys.
Qed.

(** One weighted variable: the state stays well formed, and the sum of
    the contributions is preserved when no weight is negative. *)
Lemma expand_weighted_inv (P : GroupInfo → Prop) n st item t :
  all_length n st.1 → covered st.1 st.2 → NoDup (keys st.1) →
  Forall (λ g, P g.2) st.2 →
  Forall (λ c : string * Qc, 0 ≤ c.2) (default [] (components item.2)) →
  (t < n)%nat →
  let st' := expand_weighted st item in
  all_length n st'.1 ∧ covered st'.1 st'.2 ∧ NoDup (keys st'.1) ∧
  Forall (λ g, P g.2) st'.2 ∧ sum_at st'.1 t = sum_at st.1 t.
Proof.
  intros Hlen Hcov Hnd HP Hpos Ht st'.
  destruct (get item.1 st.1) as [wc|] eqn:Hget; cycle 1.
  { subst st'. unfold expand_weighted. rewrite Hget. done. }
  destruct (decide (0 < total_weight (default [] (components item.2)))) as [Htw|Htw];
    cycle 1.
  { subst st'. unfold expand_weighted. rewrite Hget, decide_False by done. done. }
  assert (Hwc : length wc = n) by apply (Forall_get _ _ _ _ Hlen Hget).
  assert (Hw : is_Some (get item.1 st.2)) by (apply Hcov; rewrite Hget; eauto).
  assert (Hsum : sum_at st'.1 t = sum_at st.1 t).
  { subst st'. replace st with (st.1, st.2) at 1 by by destruct st.
    replace item with (item.1, item.2) at 1 by by destruct item.
    rewrite (expand_weighted_sum n st.1 st.2 item.1 item.2 wc t Hlen Hget Ht Htw).
    rewrite <- (total_weight_nonneg _ Hpos), sum_at_del.
    unfold value_at. rewrite Hget. cbn [default from_option id].
    field. intros Hz. rewrite Hz in Htw. by apply Qclt_not_eq in Htw. }
  assert (Hst' : st' = foldl (expand_component item.1 wc
                                (total_weight (default [] (components item.2))))
                             (del item.1 st.1, st.2) (default [] (components item.2))).
  { subst st'. unfold expand_weighted. by rewrite Hget, decide_True. }
  destruct (expand_components_inv P item.1 wc
              (total_weight (default [] (components item.2)))
              (default [] (components item.2)) (del item.1 st.1, st.2))
    as (Hc' & Hn' & HP'); simpl; try done.
  { by apply covered_del. }
  { by apply NoDup_keys_del. }
  rewrite <- Hst' in Hc', Hn', HP'.
  split_and!; try done.
  - rewrite Hst'. apply expand_components_length; [by apply Forall_del | done].
Qed.

Lemma process_weighted_inv (P : GroupInfo → Prop) n m st t :
  all_length n st.1 → covered st.1 st.2 → NoDup (keys st.1) →
  Forall (λ g, P g.2) st.2 → nonneg_weights m → (t < n)%nat →
  let st' := process_weighted m st in
  all_length n st'.1 ∧ covered st'.1 st'.2 ∧ NoDup (keys st'.1) ∧
  Forall (λ g, P g.2) st'.2 ∧ sum_at st'.1 t = sum_at st.1 t.
Proof.
  intros Hlen Hcov Hnd HP Hpos Ht. unfold process_weighted, nonneg_weights in *.
  destruct (wgtd_variables m) as [ws|]; [|done]. simpl in Hpos.
  revert st Hlen Hcov Hnd HP. induction Hpos as [|w ws Hw Hws IH];
    intros st Hlen Hcov Hnd HP; [done|].
  cbn [foldl].
  destruct (expand_weighted_inv P n st w t) as (?&?&?&?&Hs); try done.
  destruct (IH (expand_weighted st w)) as (?&?&?&?&Hs'); try done.
  split_and!; try done. simpl in *. congruence.
Qed.

(** ** The grouping loop *)

Lemma group_step_inv n groups st item t :
  all_length n st.1 → NoDup (keys st.1) →
  Forall (λ c : string * Series.t, c.1 ≠ "Actual" ∧ c.1 ≠ "Predicted") st.1 →
  Forall (λ g : string * GroupInfo, Group g.2 ≠ "Actual" ∧ Group g.2 ≠ "Predicted") groups →
  length item.2 = n → is_Some (get item.1 groups) → get item.1 st.2 = None →
  (t < n)%nat →
  let st' := group_step n groups st item in
  all_length n st'.1 ∧ NoDup (keys st'.1) ∧
  Forall (λ c : string * Series.t, c.1 ≠ "Actual" ∧ c.1 ≠ "Predicted") st'.1 ∧
  (∀ k, k ≠ item.1 → get k st.2 = None → get k st'.2 = None) ∧
  sum_at st'.1 t + total_of st'.2 = sum_at st.1 t + total_of st.2 + iloc item.2 t.
Proof.
  intros Hlen Hnd Hfree Hnames Hitem [g Hg] Hfresh Ht st'. subst st'.
  unfold group_step. rewrite Hg.
  pose proof (Forall_get _ _ _ _ Hnames Hg) as Hname. simpl in Hname.
  set (grouped := if mem (Group g) st.1 then st.1
                  else set (Group g) (Series.const n 0) st.1).
  assert (Hgr : ∃ current, get (Group g) grouped = Some current ∧ length current = n ∧
                  all_length n grouped ∧ NoDup (keys grouped) ∧
                  Forall (λ c : string * Series.t, c.1 ≠ "Actual" ∧ c.1 ≠ "Predicted") grouped ∧
                  sum_at grouped t = sum_at st.1 t).
  { subst grouped. destruct (mem (Group g) st.1) eqn:Hmem.
    - apply mem_true in Hmem as [current Hcur]. exists current.
      split_and!; try done. apply (Forall_get _ _ _ _ Hlen Hcur).
    - apply mem_false in Hmem. exists (Series.const n 0).
      split_and!.
      + apply get_set_eq.
      + apply length_const.
      + apply Forall_set; [done|]. apply length_const.
      + by apply NoDup_keys_set.
      + by apply Forall_set.
      + rewrite sum_at_set, value_at_absent by done.
        rewrite iloc_const by done. ring. }
  destruct Hgr as (current & Hcur & Hclen & Hglen & Hgnd & Hgfree & Hgsum).
  rewrite Hcur. cbn [default from_option id].
  assert (Hstep : ∀ s, length s = n →
            let grouped' := set (Group g) (Series.add current s) grouped in
            all_length n grouped' ∧ NoDup (keys grouped') ∧
            Forall (λ c : string * Series.t, c.1 ≠ "Actual" ∧ c.1 ≠ "Predicted") grouped' ∧
            sum_at grouped' t = sum_at st.1 t + iloc s t).
  { intros s Hs grouped'. subst grouped'. split_and!.
    - apply Forall_set; [done|]. simpl. rewrite length_add; congruence.
    - by apply NoDup_keys_set.
    - by apply Forall_set.
    - rewrite sum_at_set. unfold value_at. rewrite Hcur. cbn [default from_option id].
      rewrite iloc_add by lia. rewrite Hgsum. ring. }
  destruct (decide (adjustment_of g = "Min")); [|destruct (decide (adjustment_of g = "Max"))].
  - destruct (Hstep (Series.sub_scalar item.2 (Series.min item.2)))
      as (?&?&?&Hs); [by rewrite length_sub_scalar|].
    cbn [fst snd]. split_and!; try done.
    + intros k Hk Hnone. by rewrite get_set_ne.
    + rewrite Hs, total_of_set, Hfresh. cbn [default from_option id].
      rewrite iloc_sub_scalar by lia. ring.
  - destruct (Hstep (Series.sub_scalar item.2 (Series.max item.2)))
      as (?&?&?&Hs); [by rewrite length_sub_scalar|].
    cbn [fst snd]. split_and!; try done.
    + intros k Hk Hnone. by rewrite get_set_ne.
    + rewrite Hs, total_of_set, Hfresh. cbn [default from_option id].
      rewrite iloc_sub_scalar by lia. ring.
  - destruct (Hstep item.2) as (?&?&?&Hs); [done|].
    cbn [fst snd]. split_and!; try done. rewrite Hs. ring.
Qed.

Lemma group_fold_inv n groups (l : list (string * Series.t)) st t :
  all_length n st.1 → NoDup (keys st.1) →
  Forall (λ c : string * Series.t, c.1 ≠ "Actual" ∧ c.1 ≠ "Predicted") st.1 →
  Forall (λ g : string * GroupInfo, Group g.2 ≠ "Actual" ∧ Group g.2 ≠ "Predicted") groups →
  all_length n l → NoDup (keys l) → covered l groups →
  (∀ k, k ∈ keys l → get k st.2 = None) → (t < n)%nat →
  let st' := foldl (group_step n groups) st l in
  all_length n st'.1 ∧ NoDup (keys st'.1) ∧
  Forall (λ c : string * Series.t, c.1 ≠ "Actual" ∧ c.1 ≠ "Predicted") st'.1 ∧
  sum_at st'.1 t + total_of st'.2 = sum_at st.1 t + total_of st.2 + sum_at l t.
Proof.
  intros Hlen Hnd Hfree Hnames Hl Hndl Hcov Hfresh Ht. revert st Hlen Hnd Hfree Hfresh.
  unfold keys in *.
  induction l as [|item l IH]; intros st Hlen Hnd Hfree Hfresh.
  - cbn [foldl]. split_and!; try done. simpl. ring.
  - cbn [foldl]. csimpl in Hndl. apply NoDup_cons in Hndl as [Hitem Hndl].
    apply Forall_cons in Hl as [Hilen Hl].
    destruct (group_step_inv n groups st item t) as (?&?&?&Hadj&Hs); try done.
    { apply Hcov. destruct item as [k v]. simpl. rewrite decide_True by done. eauto. }
    { apply Hfresh. csimpl. left. }
    destruct (IH Hl Hndl) with (st := group_step n groups st item)
      as (?&?&?&Hs'); try done.
    { intros k Hk. apply Hcov. destruct item as [k0 v0]. simpl.
      destruct (decide (k0 = k)); eauto. }
    { intros k Hk. apply Hadj.
      - intros ->. done.
      - apply Hfresh. csimpl. by right. }
    split_and!; try done. rewrite Hs', Hs. simpl. ring.
Qed.

(** ** The reconciliation and the output table *)

Lemma add_total_adjustment_sum n grouped adj t :
  all_length n grouped → (t < n)%nat →
  adj = [] ∨ is_Some (get "Base" grouped) →
  sum_at (add_total_adjustment grouped adj) t = sum_at grouped t + total_of adj.
Proof.
  intros Hlen Ht [->|[base Hb]].
  - rewrite add_total_adjustment_nil, total_of_nil. ring.
  - assert (Hblen : length base = n) by apply (Forall_get _ _ _ _ Hlen Hb).
    pose proof (add_total_adjustment_base grouped adj base t Hb) as Hv.
    unfold add_total_adjustment in *. rewrite Hb in *.
    destruct adj as [|a adj]; [rewrite total_of_nil; ring|].
    rewrite sum_at_set. rewrite value_at_set_eq in Hv. rewrite Hv by lia.
    unfold value_at. rewrite Hb. cbn [default from_option id]. ring.
Qed.

Lemma set_absent {V} (d : list (string * V)) k v :
  get k d = None → set k v d = d ++ [(k, v)].
Proof.
  induction d as [|[k' v'] d IH]; simpl; [done|].
  destruct (decide (k' = k)); [done|]. intros H. by rewrite IH.
Qed.

Lemma foldl_assign_columns n (base l : list (string * Series.t)) :
  NoDup (keys l) → (∀ k, k ∈ keys l → k ∉ keys base) →
  columns (foldl (λ df g, assign g.1 g.2 df) (mkFrame n base) l) = base ++ l.
Proof.
  unfold keys. revert base. induction l as [|g l IH]; intros base Hnd Hfresh.
  - cbn [foldl]. simpl. by rewrite app_nil_r.
  - cbn [foldl]. csimpl in Hnd. apply NoDup_cons in Hnd as [Hg Hnd].
    unfold assign at 2. cbn [nrows columns].
    rewrite set_absent by (apply get_None_keys, Hfresh; csimpl; left).
    rewrite IH; [by rewrite <- app_assoc; destruct g | done |].
    intros k Hk. rewrite fmap_app, elem_of_app. intros [Hin|Hin].
    + revert Hin. apply Hfresh. csimpl. by right.
    + csimpl in Hin. apply list_elem_of_singleton in Hin as ->. done.
Qed.

Lemma filter_all {A} (P : A → Prop) `{∀ x, Decision (P x)} (l : list A) :
  Forall P l → filter P l = l.
Proof.
  induction 1 as [|x l Hx Hl IH]; [done|].
  rewrite filter_cons, decide_True by done. by rewrite IH.
Qed.

(** ** The theorem *)

Lemma values_of_fitted (data : DataFrame) (fs : list string) k :
  Forall (λ f, is_Some (get f (columns data))) fs →
  k ∈ "const" :: fs → is_Some (values_of data k).
Proof.
  intros Hfs Hk. unfold values_of. case_decide; [eauto|].
  apply elem_of_cons in Hk as [->|Hk]; [done|].
  rewrite Forall_forall in Hfs. by apply Hfs.
Qed.

(** The sum of the individual contributions is the linear prediction. *)
Lemma contributions_sum_to_prediction m res data groups t :
  fitted_on m res data → covers groups m → (t < nrows data)%nat →
  sum_at (variable_contributions (params res) data groups) t
  = iloc (predicted m res data) t.
Proof.
  intros (Hres & Hdata & Hwf & _ & Hnd & Hfs & Hkeys & Hwrap & Hnc) Hcov Ht.
  unfold covers in Hcov. rewrite Forall_forall in Hcov.
  set (h := λ k, default [] (values_of data k)).
  set (vc := variable_contributions (params res) data groups).
  assert (Hndp : NoDup (keys (params res))) by by rewrite Hkeys.
  (* the value of a fitted variable in the contributions *)
  assert (Hval : ∀ k c, (k, c) ∈ params res → value_at vc k t = c * iloc (h k) t).
  { intros k c Hkc. pose proof (In_get_NoDup _ _ _ Hndp Hkc) as Hget.
    assert (Hk : k ∈ "const" :: features m).
    { rewrite <- Hkeys. apply list_elem_of_fmap. by exists (k, c). }
    unfold value_at, vc. rewrite variable_contributions_get.
    rewrite decide_True; cycle 1.
    { apply get_is_Some_keys. by apply Hcov. }
    rewrite Hget. subst h. cbv beta.
    destruct (values_of_fitted data (features m) k Hfs Hk) as [v ->].
    simpl. apply iloc_scale. }
  (* left-hand side *)
  rewrite sum_at_keys by apply variable_contributions_NoDup.
  rewrite (qsum_perm _ (keys vc) (keys (params res))); cycle 1.
  { apply NoDup_Permutation; [apply variable_contributions_NoDup | done |].
    intros k. rewrite <- !get_is_Some_keys. unfold vc.
    rewrite variable_contributions_get. split.
    - case_decide; [|by intros [? ?]].
      destruct (get k (params res)); [eauto | by intros [? ?]].
    - intros Hk. assert (Hk' : k ∈ "const" :: features m).
      { rewrite <- Hkeys. by apply get_is_Some_keys. }
      rewrite decide_True; cycle 1.
      { apply get_is_Some_keys. by apply Hcov. }
      destruct Hk as [c ->].
      destruct (values_of_fitted data (features m) k Hfs Hk') as [v ->]. simpl. eauto. }
  unfold keys at 1. rewrite qsum_fmap.
  rewrite (qsum_ext _ (λ kc, kc.2 * iloc (h kc.1) t)); cycle 1.
  { intros [k c] Hkc. simpl. by apply Hval. }
  (* right-hand side *)
  unfold predicted.
  rewrite select_columns by (by rewrite Forall_forall in Hfs).
  set (cols := (λ f, (f, default [] (get f (columns data)))) <$> features m).
  assert (Hconst : has_constant cols = false).
  { unfold has_constant. apply not_true_is_false. intros Hex.
    apply existsb_exists in Hex as (c & Hc & Hic). apply list_elem_of_In in Hc.
    subst cols. apply list_elem_of_fmap in Hc as (f & -> & Hf).
    rewrite Forall_forall in Hnc. cbn [snd] in Hic. by rewrite (Hnc f Hf) in Hic. }
  unfold predict, add_constant. cbn [nrows columns]. rewrite Hconst, Hwrap.
  cbn [nrows columns].
  rewrite decide_True; cycle 1.
  { rewrite <- (length_fmap fst (params res)). fold (keys (params res)).
    rewrite Hkeys. simpl. subst cols. by rewrite length_fmap. }
  assert (Hcols : ("const", Series.const (nrows data) 1) :: cols
                  = (λ k, (k, h k)) <$> keys (params res)).
  { rewrite Hkeys. csimpl. f_equal.
    subst cols. apply list_fmap_ext. intros i f Hf. subst h. cbv beta.
    unfold values_of. rewrite decide_False; [done|].
    intros ->. apply NoDup_cons in Hnd as [Hc _]. apply Hc.
    by eapply list_elem_of_lookup_2. }
  rewrite (linear_combination_iloc (nrows data)); [| |done].
  - by rewrite Hcols, zip_keys_qsum.
  - constructor; [apply length_const|]. subst cols. apply Forall_fmap.
    rewrite Forall_forall in Hfs. apply Forall_forall. intros f Hf. simpl.
    destruct (Hfs f Hf) as [v Hv]. rewrite Hv. simpl.
    apply (Forall_get _ _ _ _ Hwf Hv).
Qed.

(** The group columns of the output are the reconciled group series. *)
Lemma output_columns n actual p (grouped : list (string * Series.t)) :
  NoDup (keys grouped) →
  Forall (λ k, k ≠ "Actual" ∧ k ≠ "Predicted") (keys grouped) →
  let out := foldl (λ df g, assign g.1 g.2 df)
                   (assign "Predicted" p (assign "Actual" actual (Frame.empty n)))
                   grouped in
  group_columns out = grouped ∧ ∀ t, value_at (columns out) "Predicted" t = iloc p t.
Proof.
  intros Hnd Hfree out.
  assert (Hcols : columns out = [("Actual", actual); ("Predicted", p)] ++ grouped).
  { subst out. apply (foldl_assign_columns n [("Actual", actual); ("Predicted", p)]);
      [done|].
    intros k Hk. rewrite Forall_forall in Hfree. destruct (Hfree k Hk) as [Ha Hp].
    unfold keys. csimpl. intros Hin.
    apply elem_of_cons in Hin as [->|Hin]; [done|].
    apply elem_of_cons in Hin as [->|Hin]; [done|]. by apply elem_of_nil in Hin. }
  split.
  - unfold group_columns. rewrite Hcols. cbn [app].
    rewrite filter_cons, decide_False by (simpl; intros [? ?]; done).
    rewrite filter_cons, decide_False by (simpl; intros [? ?]; done).
    apply filter_all. unfold keys in Hfree. by apply Forall_fmap in Hfree.
  - intros t. rewrite Hcols. reflexivity.
Qed.

(** C1 (as amended).  For a model fitted on its data (the coefficients
    it shows are those of the fit, not overridden by fixed
    coefficients, and no feature column is a constant other than 0) and
    a group
    assignment that covers the fitted variables and uses no group name
    ["Actual"] or ["Predicted"], [calculate_decomposition] returns a
    table in which, at every timestamp, the group columns sum to the
    Predicted column, provided that no weighted variable has a negative
    component coefficient and that, whenever a Min or Max adjustment was
    recorded, a ["Base"] group received a contribution. *)
Theorem decomposition_conserves_prediction
    (m : LinearModel) (groups : list (string * GroupInfo))
    (res : RegressionResults) (data : DataFrame) :
  fitted_on m res data → covers groups m → group_names_free groups →
  nonneg_weights m → reconcilable m res data groups →
  ∃ out, calculate_decomposition m groups = Ok out ∧
         ∀ t, (t < nrows data)%nat →
              sum_at (group_columns out) t = value_at (columns out) "Predicted" t.
Proof.
  intros Hfit Hcov Hfree Hpos Hrec.
  pose proof Hfit as (Hres & Hdata & Hwf & (k & Hk & [actual Hact]) & Hnd & Hfs & Hkeys).
  unfold calculate_decomposition. rewrite Hdata, Hres, Hk. unfold column. rewrite Hact.
  eexists. split; [reflexivity|]. intros t Ht.
  set (vc := variable_contributions (params res) data groups).
  set (st := process_weighted m (vc, groups)).
  destruct (process_weighted_inv
              (λ g, Group g ≠ "Actual" ∧ Group g ≠ "Predicted")
              (nrows data) m (vc, groups) t)
    as (Hlen & Hcovd & Hndk & Hnames & Hsum); try done.
  { by apply variable_contributions_length. }
  { intros k' Hk'. apply get_is_Some_keys.
    unfold vc in Hk'. cbn [fst] in Hk'. rewrite variable_contributions_get in Hk'.
    case_decide; [done | by destruct Hk']. }
  { apply variable_contributions_NoDup. }
  fold st in Hlen, Hcovd, Hndk, Hnames, Hsum. cbn [fst] in Hsum.
  destruct (group_fold_inv (nrows data) st.2 st.1 ([], []) t)
    as (Hglen & Hgnd & Hgfree & Hgsum); try done.
  { constructor. }
  { apply NoDup_nil_2. }
  change (foldl (group_step (nrows data) st.2) ([], []) st.1)
    with (grouped_and_adjustments m res data groups) in *.
  set (ga := grouped_and_adjustments m res data groups) in *.
  destruct (output_columns (nrows data) actual (predicted m res data)
              (add_total_adjustment ga.1 ga.2)) as [Hout Hpred].
  { by rewrite add_total_adjustment_keys. }
  { rewrite add_total_adjustment_keys. unfold keys. by apply Forall_fmap. }
  rewrite Hout, Hpred.
  rewrite (add_total_adjustment_sum (nrows data)) by done.
  rewrite Hgsum. cbn [fst snd]. rewrite total_of_nil, Hsum.
  rewrite <- (contributions_sum_to_prediction m res data groups t) by done.
  fold vc. simpl. ring.
Qed.

(** The theorem on the model fitted on the composite [2 TV + Radio],
    with a Max adjustment and the intercept in ["Base"]. *)
Lemma decomposition_conserves_prediction_witness :
  ∃ out, calculate_decomposition Fixtures.m_wgtd_pos Fixtures.groups_wgtd_pos = Ok out ∧
         ∀ t, (t < 4)%nat →
              sum_at (group_columns out) t = value_at (columns out) "Predicted" t.
Proof.
  refine (decomposition_conserves_prediction Fixtures.m_wgtd_pos Fixtures.groups_wgtd_pos
            (default (mkResults [] 0 []) (results Fixtures.m_wgtd_pos))
            (mkFrame 4 (columns (default (Frame.empty 0) (model_data Fixtures.m_wgtd_pos))))
            _ _ _ _ _).
  - split; [vm_compute; reflexivity|]. split; [vm_compute; reflexivity|].
    split; [by_compute|]. split; [exists "Sales"; split; [reflexivity | by_compute]|].
    split; [by_compute|]. split; by_compute.
  - by_compute.
  - by_compute.
  - by_compute.
  - right. by_compute.
Defined.

(** C1 (the claim as stated fails).  Three fitted models with covering
    group assignments whose group columns do not sum to Predicted: with
    a Min adjustment and no ["Base"] group the first timestamp gives 1/2
    against 14/5; with the composite [2 TV - Radio] expanded into one
    group the second timestamp gives 113/26 against 179/26; with the
    coefficient of TV fixed to 2 (and a ["Base"] group) the groups are
    built from the fixed coefficients and give 13/4, 21/4, 29/4, 37/4,
    whereas Predicted comes from the wrapped results' own coefficients
    and is 14/5, 51/10, 37/5, 97/10. *)
Lemma conservation_counterexample :
  (covers Fixtures.groups_no_base Fixtures.m_tv ∧
   ∃ out, calculate_decomposition Fixtures.m_tv Fixtures.groups_no_base = Ok out ∧
          sum_at (group_columns out) 0 = qf 1 2 ∧
          value_at (columns out) "Predicted" 0 = qf 14 5 ∧
          sum_at (group_columns out) 0 ≠ value_at (columns out) "Predicted" 0) ∧
  (covers Fixtures.groups_wgtd Fixtures.m_wgtd ∧
   ∃ out, calculate_decomposition Fixtures.m_wgtd Fixtures.groups_wgtd = Ok out ∧
          sum_at (group_columns out) 1 = qf 113 26 ∧
          value_at (columns out) "Predicted" 1 = qf 179 26 ∧
          sum_at (group_columns out) 1 ≠ value_at (columns out) "Predicted" 1) ∧
  (covers Fixtures.groups_base Fixtures.m_tv_fixed ∧
   ∃ out, calculate_decomposition Fixtures.m_tv_fixed Fixtures.groups_base = Ok out ∧
          (sum_at (group_columns out) <$> [0; 1; 2; 3]%nat)
            = [qf 13 4; qf 21 4; qf 29 4; qf 37 4] ∧
          get "Predicted" (columns out) = Some [qf 14 5; qf 51 10; qf 37 5; qf 97 10] ∧
          sum_at (group_columns out) 0 ≠ value_at (columns out) "Predicted" 0).
Proof.
  split; [|split]; (split; [by_compute|]); eexists; (split; [vm_compute; reflexivity|]);
    (split; [by_compute|]); (split; by_compute).
Qed.

End ConservationSpec.

(** * The curve search *)

Module CurveSearchSpec.

Import CurveSearch.

#[local] Instance key_le_total : Total key_le.
Proof.
  intros r1 r2. unfold key_le.
  destruct (Qclt_le_dec (Alpha r1) (Alpha r2)) as [|Ha]; [by left; left|].
  apply Qcle_lt_or_eq in Ha as [|Ha]; [by right; left|].
  destruct (Qclt_le_dec (Beta r1) (Beta r2)) as [|Hb]; [by left; right; split; [|left]|].
  apply Qcle_lt_or_eq in Hb as [|Hb]; [by right; right; split; [|left]|].
  destruct (Qclt_le_dec (Gamma r1) (Gamma r2)) as [Hg|Hg].
  - left. right. split; [done|]. right. split; [done|]. by apply Qclt_le_weak.
  - right. right. split; [done|]. right. split; [done|]. done.
Qed.

#[local] Instance key_le_trans : Transitive key_le.
Proof.
  intros r1 r2 r3. unfold key_le.
  intros [Ha|[Ha [Hb|[Hb Hg]]]] [Ha'|[Ha' [Hb'|[Hb' Hg']]]].
  - left. by eapply Qclt_trans.
  - left. by rewrite <- Ha'.
  - left. by rewrite <- Ha'.
  - left. by rewrite Ha.
  - right. split; [congruence|]. left. by eapply Qclt_trans.
  - right. split; [congruence|]. left. by rewrite <- Hb'.
  - left. by rewrite Ha.
  - right. split; [congruence|]. left. by rewrite Hb.
  - right. split; [congruence|]. right. split; [congruence|]. by eapply Qcle_trans.
Qed.

(** The search depends on the evaluation through the grid points only. *)
Lemma successful_ext (ev ev' : Qc → Qc → Qc → option Evaluation) alphas betas gammas :
  (∀ abg, abg ∈ grid alphas betas gammas → ev abg.1.1 abg.1.2 abg.2 = ev' abg.1.1 abg.1.2 abg.2) →
  successful ev alphas betas gammas = successful ev' alphas betas gammas.
Proof.
  unfold successful. generalize (grid alphas betas gammas) as g.
  induction g as [|abg g IH]; intros Hext; [done|].
  assert (Htest : test_curve_transform_model ev abg = test_curve_transform_model ev' abg).
  { unfold test_curve_transform_model. rewrite (Hext abg); [done|].
    apply elem_of_cons. by left. }
  cbn [omap list_omap]. rewrite Htest, IH; [done|].
  intros x Hx. apply Hext. apply elem_of_cons. by right.
Qed.

Lemma curve_search_spec ev alphas betas rounded :
  curve_search ev alphas betas rounded
    ≡ₚ successful ev alphas betas (gamma_values rounded) ∧
  StronglySorted key_le (curve_search ev alphas betas rounded).
Proof.
  unfold curve_search. split.
  - apply merge_sort_Permutation.
  - apply (StronglySorted_merge_sort key_le).
Qed.

(** C3 (as amended).  For every evaluation of the candidates and every
    list of gamma candidates, the ICP and the ADBUG search present
    exactly the candidates that returned a result, in ascending order of
    (Alpha, Beta, Gamma); and the table is determined by the outcomes on
    the parameter grid, so that a second run on the same inputs gives
    the same table. *)
Theorem curve_search_sorted_by_parameters
    (evaluate : Qc → Qc → Qc → option Evaluation) (rounded_values : list Qc) :
  (test_icp_internal evaluate rounded_values
     ≡ₚ successful evaluate [qz 3; qz 4] [qz 3; qz 4; qz 5] (gamma_values rounded_values) ∧
   StronglySorted key_le (test_icp_internal evaluate rounded_values)) ∧
  (test_adbug_internal evaluate rounded_values
     ≡ₚ successful evaluate [qf 4 5; qf 9 10; 1] [qz 2; qz 3; qz 4]
                  (gamma_values rounded_values) ∧
   StronglySorted key_le (test_adbug_internal evaluate rounded_values)) ∧
  (∀ evaluate' : Qc → Qc → Qc → option Evaluation,
     (∀ a b g, evaluate' a b g = evaluate a b g) →
     test_icp_internal evaluate' rounded_values = test_icp_internal evaluate rounded_values ∧
     test_adbug_internal evaluate' rounded_values = test_adbug_internal evaluate rounded_values).
Proof.
  split; [apply curve_search_spec|]. split; [apply curve_search_spec|].
  intros ev' Hsame. unfold test_icp_internal, test_adbug_internal, curve_search.
  split; f_equal; apply successful_ext; intros abg _; apply Hsame.
Qed.

(** C3 (the claim as stated fails).  With one gamma candidate and
    t-statistics that grow with alpha, the ICP search presents the six
    candidates with the t-statistics 3, 3, 3, 4, 4, 4: in parameter
    order, not by decreasing [|t-stat|]. *)
Lemma curve_search_order_counterexample :
  let out := test_icp_internal rising_tstat [qz 10]%list in
  (T_stat <$> out) = [qz 3; qz 3; qz 3; qz 4; qz 4; qz 4] ∧
  ((λ r, (Alpha r, Beta r)) <$> out)
    = [(qz 3, qz 3); (qz 3, qz 4); (qz 3, qz 5); (qz 4, qz 3); (qz 4, qz 4); (qz 4, qz 5)] ∧
  ¬ Sorted tstat_desc out.
Proof.
  split; [by_compute|]. split; by_compute.
Qed.

Example curve_search_drops_failures :
  (λ r, (Alpha r, Beta r, Gamma r)) <$> test_icp_internal failing_beta_4 [qz 20; qz 10; qz 20]
  = [(qz 3, qz 3, qz 10); (qz 3, qz 3, qz 20); (qz 3, qz 5, qz 10); (qz 3, qz 5, qz 20);
     (qz 4, qz 3, qz 10); (qz 4, qz 3, qz 20); (qz 4, qz 5, qz 10); (qz 4, qz 5, qz 20)].
Proof. by_compute. Qed.

End CurveSearchSpec.

(** * More on the adstock transform *)

Module AdstockMore.

Import Series SeriesFacts Adstock AdstockSpec.

(** The result obeys the recurrence for every rate. *)
Lemma apply_adstock_is_adstock (x : Series.t) (rate : Qc) :
  is_adstock_of x rate (apply_adstock x rate).
Proof.
  unfold is_adstock_of, apply_adstock. destruct (decide (rate = 0)) as [->|Hr].
  - repeat split. intros i Hi.
    destruct (lookup_lt_is_Some_2 x i) as [v Hv]; [lia|].
    rewrite Hv. f_equal. rewrite (iloc_lookup _ _ _ Hv). ring.
  - split; [apply length_adstock_loop|].
    destruct x as [|x0 x]; [split; [done | simpl; intros; lia]|].
    destruct (adstock_loop_inv (x0 :: x) rate (length x)) as (H0 & Hrec & _);
      [simpl; lia|].
    simpl length. replace (S (length x) - 1)%nat with (length x) by lia.
    split; [exact H0|]. intros i Hi. apply Hrec. simpl in Hi. lia.
Qed.

(** Two solutions of the recurrence agree as far as their inputs do. *)
Lemma is_adstock_prefix (x x' y y' : Series.t) (rate : Qc) (k : nat) :
  is_adstock_of x rate y → is_adstock_of x' rate y' →
  take k x = take k x' →
  ∀ i, (i < k)%nat → y !! i = y' !! i.
Proof.
  intros (Hlen & H0 & Hrec) (Hlen' & H0' & Hrec') Htake.
  assert (Hx : ∀ i, (i < k)%nat → x !! i = x' !! i).
  { intros i Hi. rewrite <- (lookup_take_lt x k i), <- (lookup_take_lt x' k i) by done.
    by rewrite Htake. }
  intros i. induction i as [|i IH]; intros Hi.
  - rewrite H0, H0'. apply Hx. lia.
  - specialize (IH ltac:(lia)). pose proof (Hx (S i) Hi) as HxS.
    destruct (decide (S i < length x)%nat) as [Hin|Hout].
    + assert (Hin' : (S i < length x')%nat).
      { apply lookup_lt_is_Some. rewrite <- HxS. by apply lookup_lt_is_Some. }
      rewrite Hrec, Hrec' by lia. do 2 f_equal.
      * unfold iloc. by rewrite HxS.
      * unfold iloc. replace (S i - 1)%nat with i by lia. by rewrite IH.
    + assert (Hout' : ¬ (S i < length x')%nat).
      { intros Hlt. apply Hout. apply lookup_lt_is_Some. rewrite HxS.
        by apply lookup_lt_is_Some. }
      rewrite !lookup_ge_None_2 by lia. done.
Qed.

(** X1.  Causality: the first [k] values of the adstocked series depend
    on the first [k] values of the input only. *)
Theorem apply_adstock_causal (x x' : Series.t) (rate : Qc) (k : nat) :
  take k x = take k x' →
  take k (apply_adstock x rate) = take k (apply_adstock x' rate).
Proof.
  intros Htake. apply list_eq. intros i.
  destruct (decide (i < k)%nat) as [Hi|Hi].
  - rewrite !lookup_take_lt by done.
    by apply (is_adstock_prefix x x' _ _ rate k
                (apply_adstock_is_adstock x rate) (apply_adstock_is_adstock x' rate)).
  - rewrite !lookup_take_ge by lia. done.
Qed.

Lemma apply_adstock_causal_witness :
  take 2 (apply_adstock [qz 10; qz 20; qz 30] (qf 1 2))
  = take 2 (apply_adstock [qz 10; qz 20; qz 99; qz 7] (qf 1 2)).
Proof.
  apply (apply_adstock_causal [qz 10; qz 20; qz 30] [qz 10; qz 20; qz 99; qz 7] (qf 1 2) 2).
  reflexivity.
Defined.

(** X2.  With a non-negative rate and non-negative inputs, carry-over
    only adds: every output value is at least the input value at the
    same position, hence non-negative too. *)
Theorem apply_adstock_dominates (x : Series.t) (rate : Qc) :
  0 ≤ rate → Forall (λ v, 0 ≤ v) x →
  ∀ i v, x !! i = Some v →
         ∃ w, apply_adstock x rate !! i = Some w ∧ v ≤ w.
Proof.
  intros Hrate Hpos.
  destruct (apply_adstock_is_adstock x rate) as (Hlen & H0 & Hrec).
  set (y := apply_adstock x rate) in *.
  assert (Hnn : ∀ i v, x !! i = Some v → 0 ≤ v).
  { intros i v Hv. rewrite Forall_forall in Hpos. apply Hpos.
    by eapply list_elem_of_lookup_2. }
  intros i. induction i as [|i IH]; intros v Hv.
  - exists v. split; [by rewrite H0 | apply Qcle_refl].
  - assert (Hi : (S i < length x)%nat) by (apply lookup_lt_is_Some; eauto).
    destruct (lookup_lt_is_Some_2 x i) as [u Hu]; [lia|].
    destruct (IH u Hu) as (w & Hw & Huw).
    eexists. split; [apply Hrec; lia|].
    rewrite (iloc_lookup _ _ _ Hv). replace (S i - 1)%nat with i by lia.
    rewrite (iloc_lookup _ _ _ Hw).
    rewrite <- (Qcplus_0_r v) at 1. apply Qcplus_le_mono_l.
    apply Qcmult_nonneg_nonneg; [done|].
    eapply Qcle_trans; [|exact Huw]. by eapply Hnn.
Qed.

Lemma apply_adstock_dominates_witness :
  ∃ w, apply_adstock [qz 10; qz 20; qz 30] (qf 1 2) !! 2%nat = Some w ∧ qz 30 ≤ w.
Proof.
  apply (apply_adstock_dominates [qz 10; qz 20; qz 30] (qf 1 2)).
  - by_compute.
  - by_compute.
  - reflexivity.
Defined.

End AdstockMore.

(** * More on the curve search *)

Module CurveSearchMore.

Import CurveSearch.

#[local] Instance Qcle_total : Total Qcle.
Proof.
  intros x y. destruct (Qclt_le_dec x y) as [H|H]; [left; by apply Qclt_le_weak | by right].
Qed.

#[local] Instance Qcle_transitive : Transitive Qcle.
Proof. intros x y z. apply Qcle_trans. Qed.

Lemma StronglySorted_le_NoDup_lt (l : list Qc) :
  StronglySorted Qcle l → NoDup l → StronglySorted Qclt l.
Proof.
  induction 1 as [|x l Hs IH Hall]; intros Hnd; [constructor|].
  apply NoDup_cons in Hnd as [Hx Hnd]. constructor; [by apply IH|].
  rewrite Forall_forall in Hall |- *. intros y Hy.
  destruct (Qcle_lt_or_eq _ _ (Hall y Hy)) as [Hlt|Heq]; [done|]. subst y. by destruct Hx.
Qed.

Lemma gamma_values_members (rounded_values : list Qc) (g : Qc) :
  g ∈ gamma_values rounded_values ↔ g ∈ rounded_values.
Proof.
  unfold gamma_values.
  rewrite (merge_sort_Permutation Qcle (remove_dups rounded_values)).
  apply elem_of_remove_dups.
Qed.

(** X3.  The gamma candidates handed to the search are strictly
    increasing (so free of duplicates), and they are exactly the values
    of the rounded list. *)
Theorem gamma_values_strictly_increasing (rounded_values : list Qc) :
  StronglySorted Qclt (gamma_values rounded_values) ∧
  (∀ g, g ∈ gamma_values rounded_values ↔ g ∈ rounded_values).
Proof.
  unfold gamma_values.
  pose proof (merge_sort_Permutation Qcle (remove_dups rounded_values)) as Hperm.
  split.
  - apply StronglySorted_le_NoDup_lt.
    + apply (StronglySorted_merge_sort Qcle).
    + rewrite Hperm. apply NoDup_remove_dups.
  - intros g. rewrite Hperm. apply elem_of_remove_dups.
Qed.

Lemma elem_of_grid (alphas betas gammas : list Qc) (abg : Qc * Qc * Qc) :
  abg ∈ grid alphas betas gammas ↔
  abg.1.1 ∈ alphas ∧ abg.1.2 ∈ betas ∧ abg.2 ∈ gammas.
Proof.
  destruct abg as [[a b] g]. unfold grid. cbn [fst snd]. split.
  - intros H. apply list_elem_of_bind in H as (a' & H & Ha).
    apply list_elem_of_bind in H as (b' & H & Hb).
    apply list_elem_of_bind in H as (g' & H & Hg).
    apply list_elem_of_singleton in H. by simplify_eq.
  - intros (Ha & Hb & Hg).
    apply list_elem_of_bind. exists a. split; [|done].
    apply list_elem_of_bind. exists b. split; [|done].
    apply list_elem_of_bind. exists g. split; [|done].
    by apply list_elem_of_singleton.
Qed.

Lemma length_grid (alphas betas gammas : list Qc) :
  length (grid alphas betas gammas) = (length alphas * (length betas * length gammas))%nat.
Proof.
  unfold grid. induction alphas as [|a alphas IH]; [done|].
  cbn [mbind list_bind]. rewrite length_app.
  fold (@mbind list _ Qc (Qc * Qc * Qc)). rewrite IH.
  enough (length (betas ≫= λ beta, gammas ≫= λ gamma, [(a, beta, gamma)])
          = (length betas * length gammas)%nat) as -> by (cbn [length]; lia).
  clear IH. induction betas as [|b betas IH]; [done|].
  cbn [mbind list_bind]. rewrite length_app.
  fold (@mbind list _ Qc (Qc * Qc * Qc)). rewrite IH.
  enough (length (gammas ≫= λ gamma, [(a, b, gamma)]) = length gammas) as ->
    by (cbn [length]; lia).
  clear IH. induction gammas as [|g gammas IH]; [done|].
  cbn [mbind list_bind app length] in *. by rewrite IH.
Qed.

Lemma length_omap_le {A B} (f : A → option B) (l : list A) :
  (length (omap f l) ≤ length l)%nat.
Proof.
  induction l as [|x l IH]; [done|]. cbn [omap list_omap].
  destruct (f x); cbn [length]; lia.
Qed.

(** X4.  Failure isolation: a row is in the table exactly if it is the
    result of a candidate of the grid that returned one; a candidate
    that failed removes nothing else.  The table never has more rows
    than the grid has points. *)
Theorem curve_search_rows
    (evaluate : Qc → Qc → Qc → option Evaluation)
    (alphas betas rounded_values : list Qc) :
  (∀ r, r ∈ curve_search evaluate alphas betas rounded_values ↔
        ∃ alpha beta gamma,
          alpha ∈ alphas ∧ beta ∈ betas ∧ gamma ∈ rounded_values ∧
          test_curve_transform_model evaluate (alpha, beta, gamma) = Some r) ∧
  (length (curve_search evaluate alphas betas rounded_values)
   ≤ length alphas * (length betas * length (gamma_values rounded_values)))%nat.
Proof.
  unfold curve_search.
  pose proof (merge_sort_Permutation key_le
                (successful evaluate alphas betas (gamma_values rounded_values))) as Hperm.
  split.
  - intros r. rewrite Hperm. unfold successful. rewrite list_elem_of_omap. split.
    + intros ([[a b] g] & Hin & Hr). apply elem_of_grid in Hin as (Ha & Hb & Hg).
      cbn [fst snd] in *. exists a, b, g. split_and!; try done.
      by apply gamma_values_members.
    + intros (a & b & g & Ha & Hb & Hg & Hr). exists (a, b, g). split; [|done].
      apply elem_of_grid. cbn [fst snd]. split_and!; try done.
      by apply gamma_values_members.
  - rewrite Hperm. unfold successful. rewrite <- length_grid. apply length_omap_le.
Qed.

End CurveSearchMore.

(** * More on the feature list of a model *)

Module FeatureListSpec.

Import Frame Py Stats LinearModels PyDict PyDictFacts LinearModelSpec.

#[local] Arguments _apply_transformation : simpl never.
#[local] Arguments fit_current_features : simpl never.
#[local] Arguments fit_and_store : simpl never.

Lemma elem_of_list_remove f g l :
  NoDup l → g ∈ list_remove f l ↔ g ∈ l ∧ g ≠ f.
Proof.
  induction l as [|y l IH]; intros Hnd; simpl.
  - rewrite elem_of_nil. split; [intros [] | intros [[] _]].
  - apply NoDup_cons in Hnd as [Hy Hnd]. destruct (decide (y = f)) as [->|Hne].
    + rewrite elem_of_cons. split.
      * intros Hg. split; [by right|]. intros ->. done.
      * intros [[->|Hg] Hgf]; done.
    + rewrite !elem_of_cons, IH by done. split.
      * intros [->|[Hg Hgf]]; [split; [by left|done] | split; [by right|done]].
      * intros [[->|Hg] Hgf]; [by left | right; done].
Qed.

Lemma NoDup_list_remove f l : NoDup l → NoDup (list_remove f l).
Proof.
  induction l as [|y l IH]; intros Hnd; simpl; [done|].
  apply NoDup_cons in Hnd as [Hy Hnd]. destruct (decide (y = f)); [done|].
  apply NoDup_cons. split; [|by apply IH].
  rewrite elem_of_list_remove by done. intros [? _]. done.
Qed.

(** [remove_feature] leaves the data and the target alone. *)
Lemma remove_feature_data fit f m :
  let m' := remove_feature fit f m in
  data m' = data m ∧ model_data m' = model_data m ∧ kpi m' = kpi m ∧
  loader m' = loader m ∧ wgtd_variables m' = wgtd_variables m.
Proof.
  intros m'. subst m'. unfold remove_feature.
  case_bool_decide; [|done].
  unfold remove_feature_try. run_step.
  match goal with |- context [bool_decide (features ?s = [])] =>
    destruct (bool_decide (features s = [])); set (s0 := s) end.
  - destruct (run (initialize_model fit) s0) as [o s1] eqn:Hrun.
    apply initialize_model_settings in Hrun as [-> Hs].
    destruct Hs as (?&?&?&?&?&?&?&?&?). simpl in *. done.
  - destruct (run (fit_current_features fit) s0) as [o s1] eqn:Hrun.
    apply fit_current_features_settings in Hrun.
    destruct Hrun as (?&?&?&?&?&?&?&?&?).
    destruct o; run_step; simpl in *; done.
Qed.

(** X5.  Removing a feature of the model forgets it: it leaves the
    feature list, which keeps its other members and stays free of
    duplicates, and its entries in the transformation dictionary and in
    the transformed data are deleted; the entries of the other features,
    the data and the target stay. *)
Theorem remove_feature_forgets_feature (fit : fitter) (f : string) (m : LinearModel) :
  f ∈ features m → NoDup (features m) →
  let m' := remove_feature fit f m in
  (f ∉ features m') ∧ NoDup (features m') ∧
  (∀ g, g ≠ f → (g ∈ features m' ↔ g ∈ features m)) ∧
  feature_transformations m' !! f = None ∧ transformed_data m' !! f = None ∧
  (∀ g, g ≠ f →
     feature_transformations m' !! g = feature_transformations m !! g ∧
     transformed_data m' !! g = transformed_data m !! g) ∧
  model_data m' = model_data m ∧ kpi m' = kpi m.
Proof.
  intros Hf Hnd m'.
  destruct (remove_feature_effect fit f m Hf) as (Hfeat & Hft & Htd & _).
  destruct (remove_feature_data fit f m) as (_ & Hmd & Hk & _).
  fold m' in Hfeat, Hft, Htd, Hmd, Hk. rewrite Hfeat, Hft, Htd.
  split_and!; try done.
  - rewrite elem_of_list_remove by done. intros [_ ?]. done.
  - by apply NoDup_list_remove.
  - intros g Hg. rewrite elem_of_list_remove by done.
    split; [by intros [? _] | by intros ?].
  - apply lookup_delete_eq.
  - apply lookup_delete_eq.
  - intros g Hg. by rewrite !lookup_delete_ne.
Qed.

Lemma remove_feature_forgets_feature_witness :
  let m' := remove_feature ExactOLS.exact_ols "TV" Fixtures.m_tv in
  ("TV" ∉ features m') ∧ NoDup (features m') ∧
  (∀ g, g ≠ "TV" → (g ∈ features m' ↔ g ∈ features Fixtures.m_tv)) ∧
  feature_transformations m' !! "TV" = None ∧ transformed_data m' !! "TV" = None ∧
  (∀ g, g ≠ "TV" →
     feature_transformations m' !! g = feature_transformations Fixtures.m_tv !! g ∧
     transformed_data m' !! g = transformed_data Fixtures.m_tv !! g) ∧
  model_data m' = model_data Fixtures.m_tv ∧ kpi m' = kpi Fixtures.m_tv.
Proof.
  apply (remove_feature_forgets_feature ExactOLS.exact_ols "TV" Fixtures.m_tv).
  - by_compute.
  - by_compute.
Defined.

(** The intercept-only fit reads the target and the previous results
    only. *)
Lemma initialize_model_results_ext fit m m' :
  kpi m' = kpi m → model_data m' = model_data m → results m' = results m →
  results (run (initialize_model fit) m').2 = results (run (initialize_model fit) m).2.
Proof.
  intros Hk Hd Hr. pose proof (target_ext m m' Hk Hd) as Ht.
  unfold initialize_model, initialize_model_try. run_step.
  rewrite Hk. destruct (kpi m); run_step; [|done].
  rewrite Ht. destruct (target m) as [y|]; run_step; [|done].
  unfold fit_and_store. run_step.
  destruct (fit _) as [r|e]; run_step; simpl; done.
Qed.

(** X6.  Removing the only feature of a model gives the results of the
    intercept-only fit of [initialize_model], whatever the library's
    fit does. *)
Theorem remove_only_feature_is_intercept_only (fit : fitter) (f : string) (m : LinearModel) :
  features m = [f] →
  results (remove_feature fit f m) = results (run (initialize_model fit) m).2 ∧
  features (remove_feature fit f m) = [].
Proof.
  intros Hfeat. split.
  - unfold remove_feature. rewrite Hfeat.
    rewrite bool_decide_eq_true_2 by (apply list_elem_of_singleton; done).
    unfold remove_feature_try. run_step. cbn [features set_features set_feature_transformations
      set_transformed_data]. rewrite Hfeat. cbn [list_remove].
    rewrite decide_True by done. rewrite bool_decide_eq_true_2 by done.
    match goal with |- context [run (initialize_model fit) ?s] => set (s0 := s) end.
    destruct (run (initialize_model fit) s0) as [o s1] eqn:Hrun.
    pose proof Hrun as Hrun'. apply initialize_model_settings in Hrun' as [-> _].
    replace s1 with (run (initialize_model fit) s0).2 by (by rewrite Hrun).
    by apply initialize_model_results_ext.
  - destruct (remove_feature_effect fit f m) as (-> & _).
    + rewrite Hfeat. by apply list_elem_of_singleton.
    + rewrite Hfeat. simpl. by rewrite decide_True.
Qed.

Lemma remove_only_feature_is_intercept_only_witness :
  results (remove_feature ExactOLS.exact_ols "TV" Fixtures.m_tv)
  = results (run (initialize_model ExactOLS.exact_ols) Fixtures.m_tv).2 ∧
  features (remove_feature ExactOLS.exact_ols "TV" Fixtures.m_tv) = [].
Proof.
  apply (remove_only_feature_is_intercept_only ExactOLS.exact_ols "TV" Fixtures.m_tv).
  reflexivity.
Defined.

End FeatureListSpec.

(** * The feature list stays valid *)

Module FeatureInvariantSpec.

Import Frame Py Stats LinearModels PyDict PyDictFacts LinearModelSpec ModelSetup.
Import FeatureListSpec.

#[local] Arguments _apply_transformation : simpl never.
#[local] Arguments fit_current_features : simpl never.
#[local] Arguments fit_and_store : simpl never.

(** When the [try] block of [add_feature] returns, the candidate has
    been appended. *)
Lemma add_feature_try_ok fit f tr m m1 :
  run (add_feature_try fit f tr) m = (Ok tt, m1) →
  features m1 = features m ++ [f] ∧
  model_data m1 = model_data m ∧ kpi m1 = kpi m ∧
  fixed_coefficients m1 = fixed_coefficients m.
Proof.
  unfold add_feature_try. run_step.
  set (tr' := match tr with Some _ => _ | None => _ end). clearbody tr'.
  destruct (truthy tr'); run_step.
  - match goal with |- context [run (_apply_transformation ?a ?b) ?s] =>
      destruct (run (_apply_transformation a b) s) as [o s1] eqn:Happ end.
    apply _apply_transformation_effect in Happ. simpl in Happ.
    destruct Happ as (?&?&?&?&Hft&Htd&?&?&?&?).
    destruct o; run_step; [|intros [=]].
    match goal with |- context [run (fit_current_features fit) ?s] =>
      destruct (run (fit_current_features fit) s) as [o2 s2] eqn:Hfit end.
    destruct o2 as [[]|]; [intros [= <-] | intros [=]].
    apply fit_current_features_settings in Hfit.
    destruct Hfit as (?&?&?&?&?&?&?&?&?). simpl in *.
    split_and!; congruence.
  - match goal with |- context [run (fit_current_features fit) ?s] =>
      destruct (run (fit_current_features fit) s) as [o2 s2] eqn:Hfit end.
    destruct o2 as [[]|]; [intros [= <-] | intros [=]].
    apply fit_current_features_settings in Hfit.
    destruct Hfit as (?&?&?&?&?&?&?&?&?). simpl in *.
    split_and!; congruence.
Qed.

(** What [add_feature] can do to the feature list: nothing, or append a
    candidate that is a column of the data, is not the target and was
    not a feature. *)
Lemma add_feature_features fit f tr m :
  let m' := add_feature fit f tr m in
  model_data m' = model_data m ∧ kpi m' = kpi m ∧
  fixed_coefficients m' = fixed_coefficients m ∧
  (features m' = features m ∨
   (features m' = features m ++ [f] ∧ (f ∉ features m) ∧ kpi m ≠ Some f ∧
    ∃ df, model_data m = Some df ∧ mem f (columns df) = true)).
Proof.
  intros m'. subst m'. unfold add_feature.
  destruct (model_data m) as [df|] eqn:Hd; [|by split_and!; [..|left]].
  destruct (kpi m) as [k|] eqn:Hk; [|by split_and!; [..|left]].
  destruct (mem f (columns df)) eqn:Hcol; cbv [negb]; [|by split_and!; [..|left]].
  case_bool_decide as Hne; [by split_and!; [..|left]|].
  case_bool_decide as Hfresh; [by split_and!; [..|left]|].
  rewrite run_try_except.
  destruct (run (add_feature_try fit f tr) m) as [[[]|e] m1] eqn:Hrun.
  - apply add_feature_try_ok in Hrun as (Hfeat & Hmd & Hk' & Hfix). cbn [snd].
    split_and!; try congruence. right. split_and!; try done.
    + congruence.
    + exists df. split; [done|done].
  - apply add_feature_try_raise in Hrun.
    destruct Hrun as (Hres & Hfeat & Hft & Htd & ? & ? & ? & ? & ? & ?).
    unfold add_feature_except. run_step. simpl.
    split_and!.
    + case_bool_decide; simpl; congruence.
    + case_bool_decide; simpl; congruence.
    + case_bool_decide; simpl; congruence.
    + left. destruct Hfeat as [Hfeat|Hfeat].
      * rewrite bool_decide_eq_false_2 by (by rewrite Hfeat). simpl. done.
      * rewrite bool_decide_eq_true_2
          by (rewrite Hfeat; apply elem_of_app; right; apply list_elem_of_singleton; done).
        simpl. rewrite Hfeat. by apply list_remove_app_fresh.
Qed.

(** X7.  [add_feature] and [remove_feature] keep the feature list
    valid: whatever the candidate, the transformation code and the
    outcome of the fit, the list stays free of duplicates, never
    contains the target and only names columns of the modelling data. *)
Theorem feature_list_stays_valid
    (fit : fitter) (f : string) (tr : option string) (m : LinearModel) :
  valid_features m →
  valid_features (add_feature fit f tr m) ∧ valid_features (remove_feature fit f m).
Proof.
  intros [Hnd Hval]. split.
  - destruct (add_feature_features fit f tr m) as (Hmd & Hk & _ & Hfeat).
    unfold valid_features. rewrite Hmd, Hk.
    destruct Hfeat as [->|(-> & Hfresh & Hkf & Hcol)]; [done|]. split.
    + apply NoDup_app. split; [done|]. split; [|apply NoDup_singleton].
      intros x Hx Hx'. apply list_elem_of_singleton in Hx' as ->. done.
    + intros g Hg. apply elem_of_app in Hg as [Hg|Hg]; [by apply Hval|].
      apply list_elem_of_singleton in Hg as ->. done.
  - destruct (remove_feature_data fit f m) as (_ & Hmd & Hk & _).
    unfold valid_features. rewrite Hmd, Hk.
    destruct (decide (f ∈ features m)) as [Hf|Hf].
    + destruct (remove_feature_effect fit f m Hf) as (-> & _). split.
      * by apply NoDup_list_remove.
      * intros g Hg. apply elem_of_list_remove in Hg as [Hg _]; [|done]. by apply Hval.
    + unfold remove_feature. rewrite (bool_decide_eq_false_2 _ Hf). done.
Qed.

Lemma feature_list_stays_valid_witness :
  valid_features (add_feature ExactOLS.exact_ols "Radio" (Some "SUB") Fixtures.m_tv) ∧
  valid_features (remove_feature ExactOLS.exact_ols "Radio" Fixtures.m_tv).
Proof.
  apply (feature_list_stays_valid ExactOLS.exact_ols "Radio" (Some "SUB") Fixtures.m_tv).
  split; [by_compute|].
  intros f Hf. assert (f = "TV") as ->.
  { revert Hf. change (features Fixtures.m_tv) with ["TV"].
    intros Hf. by apply list_elem_of_singleton in Hf. }
  split; [by_compute|]. exists Fixtures.df. split; [by_compute | vm_compute; reflexivity].
Defined.

End FeatureInvariantSpec.

(** * More on fixed coefficients *)

Module FixedCoefficientSpec.

Import Series SeriesFacts Frame Py Stats LinearModels PyDict PyDictFacts LinearModelSpec.
Import SumFacts ModelSetup.

#[local] Arguments _apply_transformation : simpl never.
#[local] Arguments fit_current_features : simpl never.
#[local] Arguments fit_and_store : simpl never.

Lemma get_del_eq {V} (d : list (string * V)) k : NoDup (keys d) → get k (del k d) = None.
Proof.
  intros Hnd. apply get_None_keys. unfold keys in *.
  induction d as [|[k0 v0] d IH]; simpl; [apply not_elem_of_nil|].
  csimpl in Hnd. apply NoDup_cons in Hnd as [Hk0 Hnd].
  destruct (decide (k0 = k)) as [->|Hne]; [done|].
  csimpl. apply not_elem_of_cons. split; [done | by apply IH].
Qed.

(** X8.  Fixing the coefficient of a feature or of the intercept never
    raises, whatever the refit does: afterwards the dictionary binds the
    name to the supplied value, the other fixed coefficients and the
    features are as before, and the keys are still features or the
    intercept. *)
Theorem set_fixed_coefficient_records
    (fit : fitter) (m : LinearModel) (v : string) (c : Qc) :
  v ∈ features m ∨ v = "const" →
  ∃ m', run (set_fixed_coefficient fit v c) m = (Ok tt, m') ∧
        get v (fixed_coefficients m') = Some c ∧
        (∀ k, k ≠ v → get k (fixed_coefficients m') = get k (fixed_coefficients m)) ∧
        features m' = features m ∧ model_data m' = model_data m ∧ kpi m' = kpi m ∧
        (fixed_keys_valid m → fixed_keys_valid m').
Proof.
  intros Hv. unfold set_fixed_coefficient. run_step.
  assert (Hguard : bool_decide (v ∉ features m) && bool_decide (v ≠ "const") = false).
  { destruct Hv as [Hv| ->].
    - by rewrite (bool_decide_eq_false_2 (v ∉ features m)) by (intros H; by apply H).
    - rewrite (bool_decide_eq_false_2 ("const" ≠ "const")) by (intros H; by apply H).
      apply andb_false_r. }
  rewrite Hguard. run_step.
  match goal with |- context [run (_refit_model_with_fixed_coefficients fit) ?s] =>
    destruct (_refit_model_with_fixed_coefficients_settings fit s) as (m' & -> & Hs) end.
  destruct Hs as (?&Hmd&Hk&Hfeat&?&?&?&Hfix&?). simpl in Hmd, Hk, Hfeat, Hfix.
  exists m'. split; [done|]. rewrite Hfix. split_and!; try done.
  - apply get_set_eq.
  - intros k Hk'. by apply get_set_ne.
  - unfold fixed_keys_valid. rewrite Hfix, Hfeat. intros Hval k Hin.
    apply get_is_Some_keys in Hin. rewrite get_set in Hin.
    destruct (decide (v = k)) as [<-|Hne]; [done|].
    apply Hval. by apply get_is_Some_keys.
Qed.

Lemma set_fixed_coefficient_records_witness :
  ∃ m', run (set_fixed_coefficient ExactOLS.exact_ols "TV" (qz 2)) Fixtures.m_tv = (Ok tt, m') ∧
        get "TV" (fixed_coefficients m') = Some (qz 2) ∧
        (∀ k, k ≠ "TV" →
              get k (fixed_coefficients m') = get k (fixed_coefficients Fixtures.m_tv)) ∧
        features m' = features Fixtures.m_tv ∧
        model_data m' = model_data Fixtures.m_tv ∧ kpi m' = kpi Fixtures.m_tv ∧
        (fixed_keys_valid Fixtures.m_tv → fixed_keys_valid m').
Proof.
  apply (set_fixed_coefficient_records ExactOLS.exact_ols Fixtures.m_tv "TV" (qz 2)).
  left. by_compute.
Defined.

(** X9.  Releasing a fixed coefficient never raises and removes that
    entry only; releasing a name that is not fixed changes nothing at
    all (no refit takes place). *)
Theorem unset_fixed_coefficient_releases
    (fit : fitter) (m : LinearModel) (v : string) :
  NoDup (keys (fixed_coefficients m)) →
  ∃ m', run (unset_fixed_coefficient fit v) m = (Ok tt, m') ∧
        get v (fixed_coefficients m') = None ∧
        (∀ k, k ≠ v → get k (fixed_coefficients m') = get k (fixed_coefficients m)) ∧
        features m' = features m ∧ model_data m' = model_data m ∧ kpi m' = kpi m ∧
        (fixed_keys_valid m → fixed_keys_valid m') ∧
        (get v (fixed_coefficients m) = None → m' = m).
Proof.
  intros Hnd. unfold unset_fixed_coefficient. run_step.
  destruct (mem v (fixed_coefficients m)) eqn:Hmem.
  - run_step.
    match goal with |- context [run (_refit_model_with_fixed_coefficients fit) ?s] =>
      destruct (_refit_model_with_fixed_coefficients_settings fit s) as (m' & -> & Hs) end.
    destruct Hs as (?&Hmd&Hk&Hfeat&?&?&?&Hfix&?). simpl in Hmd, Hk, Hfeat, Hfix.
    exists m'. split; [done|]. rewrite Hfix. split_and!; try done.
    + by apply get_del_eq.
    + intros k Hk'. by apply get_del_ne.
    + unfold fixed_keys_valid. rewrite Hfix, Hfeat. intros Hval k Hin.
      apply Hval. by apply (keys_del_subseteq _ v).
    + intros Hnone. apply mem_true in Hmem. rewrite Hnone in Hmem. by destruct Hmem.
  - run_step. apply mem_false in Hmem. exists m. split_and!; done.
Qed.

Lemma unset_fixed_coefficient_releases_witness :
  ∃ m', run (unset_fixed_coefficient ExactOLS.exact_ols "TV") Fixtures.m_all_fixed = (Ok tt, m') ∧
        get "TV" (fixed_coefficients m') = None ∧
        (∀ k, k ≠ "TV" →
              get k (fixed_coefficients m') = get k (fixed_coefficients Fixtures.m_all_fixed)) ∧
        features m' = features Fixtures.m_all_fixed ∧
        model_data m' = model_data Fixtures.m_all_fixed ∧
        kpi m' = kpi Fixtures.m_all_fixed ∧
        (fixed_keys_valid Fixtures.m_all_fixed → fixed_keys_valid m') ∧
        (get "TV" (fixed_coefficients Fixtures.m_all_fixed) = None → m' = Fixtures.m_all_fixed).
Proof.
  apply (unset_fixed_coefficient_releases ExactOLS.exact_ols Fixtures.m_all_fixed "TV").
  by_compute.
Defined.

Lemma copy_loop_get (rp p : list (string * Qc)) (l : list string) k :
  get k (foldl (λ p feat, match get feat rp with
                          | Some c => set feat c p
                          | None => p
                          end) p l)
  = if decide (k ∈ l) then match get k rp with Some c => Some c | None => get k p end
    else get k p.
Proof.
  revert p. induction l as [|x l IH]; intros p; cbn [foldl].
  - rewrite decide_False by apply not_elem_of_nil. done.
  - rewrite IH. destruct (decide (x = k)) as [->|Hne].
    + rewrite (decide_True (P := k ∈ k :: l)) by left.
      destruct (get k rp) as [c|] eqn:Hk.
      * rewrite get_set_eq. by destruct (decide (k ∈ l)).
      * by destruct (decide (k ∈ l)).
    + assert (Hp : get k (match get x rp with Some c => set x c p | None => p end) = get k p).
      { destruct (get x rp); [by apply get_set_ne | done]. }
      rewrite Hp. destruct (decide (k ∈ l)) as [Hin|Hin].
      * rewrite decide_True by (by right). done.
      * rewrite decide_False; [done|]. intros Hc. apply elem_of_cons in Hc as [->|]; done.
Qed.

Lemma elem_of_remaining_features m f :
  f ∈ remaining_features m ↔ mem f (fixed_coefficients m) = false ∧ f ∈ features m.
Proof. unfold remaining_features. by rewrite list_elem_of_filter. Qed.

(** The coefficient vector put together from the overridden full fit
    and the auxiliary estimates. *)
Lemma copy_remaining_get m (rp p : list (string * Qc)) k :
  get k (copy_remaining (fixed_coefficients m) (remaining_features m) rp p)
  = if mem k (fixed_coefficients m) then get k p
    else if bool_decide (k ∈ features m ∨ k = "const")
         then match get k rp with Some c => Some c | None => get k p end
         else get k p.
Proof.
  unfold copy_remaining. fold (remaining_features m). rewrite copy_loop_get.
  set (p0 := match get "const" rp with
             | Some c => if mem "const" (fixed_coefficients m) then p else set "const" c p
             | None => p
             end).
  assert (Hp0 : get k p0 = if decide (k = "const")
                           then (if mem "const" (fixed_coefficients m) then get k p
                                 else match get k rp with Some c => Some c | None => get k p end)
                           else get k p).
  { subst p0. destruct (decide (k = "const")) as [->|Hne].
    - destruct (get "const" rp); [|by destruct (mem _ _)].
      destruct (mem "const" (fixed_coefficients m)); [done | apply get_set_eq].
    - destruct (get "const" rp); [|done].
      destruct (mem "const" (fixed_coefficients m)); [done|].
      apply get_set_ne. congruence. }
  destruct (mem k (fixed_coefficients m)) eqn:Hmem.
  - rewrite decide_False by (rewrite elem_of_remaining_features; intros [? _]; congruence).
    rewrite Hp0. destruct (decide (k = "const")) as [->|]; [by rewrite Hmem | done].
  - destruct (decide (k ∈ remaining_features m)) as [Hin|Hin].
    + apply elem_of_remaining_features in Hin as [_ Hin].
      rewrite bool_decide_eq_true_2 by (by left).
      destruct (get k rp); [done|]. rewrite Hp0.
      destruct (decide (k = "const")) as [->|]; [by rewrite Hmem | done].
    + rewrite Hp0. destruct (decide (k = "const")) as [->|Hne].
      * rewrite Hmem. by rewrite bool_decide_eq_true_2 by (by right).
      * rewrite bool_decide_eq_false_2; [done|]. intros [Hf|Hc]; [|done].
        apply Hin. by apply elem_of_remaining_features.
Qed.

(** What the constrained refit does when some coefficient is free. *)
Lemma partial_refit_run fit m y adjusted_y X X_full rr r :
  features m ≠ [] → truthy (kpi m) = true → fixed_coefficients m ≠ [] →
  ¬ (remaining_features m = [] ∧ mem "const" (fixed_coefficients m) = true) →
  target m = Ok y →
  run (fold_each (fixed_coefficients m) (subtract_fixed m) y) m = (Ok adjusted_y, m) →
  fill_features m (remaining_features m) (Frame.empty (length y)) = Ok X →
  fit (mkOLS adjusted_y (if mem "const" (fixed_coefficients m) then X else add_constant X))
    = Ok rr →
  full_design m (length y) = Ok X_full →
  fit (mkOLS y X_full) = Ok r →
  run (_refit_model_with_fixed_coefficients fit) m =
  (Ok tt,
   set_results
     (Some (with_params
              (copy_remaining (fixed_coefficients m) (remaining_features m) (params rr)
                 (override_fixed (fixed_coefficients m) (params r))) r))
     (set_results (Some r) (set_model (Some (mkOLS y X_full)) m))).
Proof.
  intros Hfeat Hkpi Hfx Hpart Hy Hadj HX Hrr HXf Hr.
  assert (Hmd : model_data m ≠ None).
  { intros Hn. unfold target in Hy. by rewrite Hn in Hy. }
  unfold _refit_model_with_fixed_coefficients. run_step.
  rewrite (bool_decide_eq_false_2 _ Hfeat), Hkpi, (bool_decide_eq_false_2 _ Hmd).
  cbv [negb orb]. run_step.
  unfold refit_fixed_try. run_step. rewrite Hy. run_step.
  rewrite (bool_decide_eq_false_2 _ Hfx). run_step.
  rewrite Hadj. run_step. fold (remaining_features m).
  assert (Hb : bool_decide (remaining_features m = []) && mem "const" (fixed_coefficients m)
               = false).
  { destruct (mem "const" (fixed_coefficients m)) eqn:Hc; [|apply andb_false_r].
    rewrite bool_decide_eq_false_2; [done|]. intros Hn. by apply Hpart. }
  rewrite Hb. run_step. rewrite HX. run_step. rewrite Hrr. run_step.
  rewrite HXf. run_step. rewrite Hr. run_step. done.
Qed.

(** X10.  The constrained refit with some coefficient left free: every
    fixed name gets its supplied value, every free feature and a free
    intercept get the estimate of the auxiliary regression (of the
    adjusted target on the free columns), and the statistics are the
    ones of the unconstrained fit on the full design. *)
Theorem partial_refit_combines_fixed_and_estimated
    (fit : fitter) (m : LinearModel) (y adjusted_y : Series.t) (X X_full : DataFrame)
    (rr r : RegressionResults) :
  features m ≠ [] → truthy (kpi m) = true → fixed_coefficients m ≠ [] →
  NoDup (keys (fixed_coefficients m)) →
  ¬ (remaining_features m = [] ∧ mem "const" (fixed_coefficients m) = true) →
  target m = Ok y →
  run (fold_each (fixed_coefficients m) (subtract_fixed m) y) m = (Ok adjusted_y, m) →
  fill_features m (remaining_features m) (Frame.empty (length y)) = Ok X →
  fit (mkOLS adjusted_y (if mem "const" (fixed_coefficients m) then X else add_constant X))
    = Ok rr →
  full_design m (length y) = Ok X_full →
  fit (mkOLS y X_full) = Ok r →
  ∃ m' res,
    run (_refit_model_with_fixed_coefficients fit) m = (Ok tt, m') ∧
    results m' = Some res ∧
    (∀ v c, get v (fixed_coefficients m) = Some c → get v (params res) = Some c) ∧
    (∀ f e, f ∈ remaining_features m → get f (params rr) = Some e →
            get f (params res) = Some e) ∧
    (∀ e, mem "const" (fixed_coefficients m) = false → get "const" (params rr) = Some e →
          get "const" (params res) = Some e) ∧
    rsquared res = rsquared r ∧ fittedvalues res = fittedvalues r.
Proof.
  intros Hfeat Hkpi Hfx Hnd Hpart Hy Hadj HX Hrr HXf Hr.
  rewrite (partial_refit_run fit m y adjusted_y X X_full rr r) by done.
  eexists _, _. split; [reflexivity|]. split; [reflexivity|].
  cbn [params with_params rsquared fittedvalues]. split_and!; try done.
  - intros v c Hv. rewrite copy_remaining_get.
    assert (Hmem : mem v (fixed_coefficients m) = true) by (apply mem_true; eauto).
    rewrite Hmem. by apply override_fixed_present.
  - intros f e Hf He. rewrite copy_remaining_get.
    apply elem_of_remaining_features in Hf as [Hmem Hf]. rewrite Hmem.
    rewrite bool_decide_eq_true_2 by (by left). by rewrite He.
  - intros e Hmem He. rewrite copy_remaining_get, Hmem.
    rewrite bool_decide_eq_true_2 by (by right). by rewrite He.
Qed.

(** The theorem on the model with ["TV"] fixed to 2 and a free
    intercept: the auxiliary regression of Sales - 2 TV on the constant
    gives the intercept 5/4. *)
Lemma partial_refit_combines_fixed_and_estimated_witness :
  ∃ rr r,
    (∃ m' res,
       run (_refit_model_with_fixed_coefficients ExactOLS.exact_ols) Fixtures.m_tv_fixed
         = (Ok tt, m') ∧
       results m' = Some res ∧
       (∀ v c, get v (fixed_coefficients Fixtures.m_tv_fixed) = Some c →
               get v (params res) = Some c) ∧
       (∀ f e, f ∈ remaining_features Fixtures.m_tv_fixed → get f (params rr) = Some e →
               get f (params res) = Some e) ∧
       (∀ e, mem "const" (fixed_coefficients Fixtures.m_tv_fixed) = false →
             get "const" (params rr) = Some e → get "const" (params res) = Some e) ∧
       rsquared res = rsquared r ∧ fittedvalues res = fittedvalues r) ∧
    get "const" (params rr) = Some (qf 5 4).
Proof.
  eexists _, _. split.
  - eapply (partial_refit_combines_fixed_and_estimated ExactOLS.exact_ols Fixtures.m_tv_fixed).
    + by_compute.
    + vm_compute; reflexivity.
    + by_compute.
    + by_compute.
    + by_compute.
    + vm_compute; reflexivity.
    + vm_compute; reflexivity.
    + vm_compute; reflexivity.
    + vm_compute; reflexivity.
    + vm_compute; reflexivity.
    + vm_compute; reflexivity.
  - vm_compute; reflexivity.
Defined.

Lemma qsum_cons {A} (f : A → Qc) x l : qsum f (x :: l) = f x + qsum f l.
Proof. reflexivity. Qed.

Lemma subtract_fixed_loop_formula m (l : list (string * Qc)) y adjusted s s' :
  (∀ f sv, f ∈ features m → feature_values m f = Ok sv → length sv = length y) →
  run (fold_each l (subtract_fixed m) y) s = (Ok adjusted, s') →
  length adjusted = length y ∧
  ∀ t, (t < length y)%nat →
       iloc adjusted t = iloc y t - qsum (fixed_component m t) l.
Proof.
  revert y. induction l as [|[var coef] l IH]; intros y Hlen; simpl fold_each.
  - run_step. intros [= <- _]. split; [done|]. intros t Ht. simpl. ring.
  - run_step. unfold subtract_fixed at 1.
    destruct (decide (var = "const")) as [Hc|Hc]; run_step.
    + intros Hrun. apply IH in Hrun as [Hl Hrun].
      * rewrite length_sub_scalar in Hl. split; [done|]. intros t Ht.
        rewrite Hrun by (by rewrite length_sub_scalar).
        rewrite iloc_sub_scalar by done. rewrite qsum_cons.
        set (rest := qsum (fixed_component m t) l). unfold fixed_component. cbn [fst snd]. rewrite decide_True by done. ring.
      * intros f sv. rewrite length_sub_scalar. apply Hlen.
    + case_bool_decide as Hin; run_step.
      * destruct (feature_values m var) as [vd|] eqn:Hvd; run_step; [|intros [=]].
        pose proof (Hlen var vd Hin Hvd) as Hvl.
        assert (Hl1 : length (sub y (scale coef vd)) = length y).
        { apply length_sub. by rewrite length_scale. }
        intros Hrun. apply IH in Hrun as [Hl Hrun].
        -- rewrite Hl1 in Hl. split; [done|]. intros t Ht.
           rewrite Hrun by (by rewrite Hl1).
           rewrite iloc_sub by (rewrite ?length_scale; lia).
           rewrite iloc_scale. rewrite qsum_cons.
           set (rest := qsum (fixed_component m t) l). unfold fixed_component. cbn [fst snd]. rewrite decide_False by done.
           rewrite (bool_decide_eq_true_2 _ Hin), Hvd. ring.
        -- intros f sv. rewrite Hl1. apply Hlen.
      * intros Hrun. apply IH in Hrun as [Hl Hrun]; [|done].
        split; [done|]. intros t Ht. rewrite Hrun by done. rewrite qsum_cons.
        set (rest := qsum (fixed_component m t) l). unfold fixed_component. cbn [fst snd]. rewrite decide_False by done.
        rewrite (bool_decide_eq_false_2 _ Hin). ring.
Qed.

(** X11.  The adjusted target of the constrained refit: at every row it
    is the target minus the fixed intercept and minus, for every fixed
    feature, the fixed value times the feature's (transformed)
    observation; fixed names that are no features take nothing off. *)
Theorem adjusted_target_subtracts_fixed_components
    (m : LinearModel) (y adjusted_y : Series.t) :
  (∀ f sv, f ∈ features m → feature_values m f = Ok sv → length sv = length y) →
  run (fold_each (fixed_coefficients m) (subtract_fixed m) y) m = (Ok adjusted_y, m) →
  length adjusted_y = length y ∧
  ∀ t, (t < length y)%nat →
       iloc adjusted_y t = iloc y t - qsum (fixed_component m t) (fixed_coefficients m).
Proof. intros Hlen Hrun. by eapply subtract_fixed_loop_formula. Qed.

Lemma adjusted_target_subtracts_fixed_components_witness :
  let m := Fixtures.m_all_fixed in
  let y := [qz 3; qz 5; qz 7; qz 10] in
  let adjusted_y := [qz 1; qz 1; qz 1; qz 2] in
  length adjusted_y = length y ∧
  ∀ t, (t < length y)%nat →
       iloc adjusted_y t = iloc y t - qsum (fixed_component m t) (fixed_coefficients m).
Proof.
  apply (adjusted_target_subtracts_fixed_components Fixtures.m_all_fixed
           [qz 3; qz 5; qz 7; qz 10] [qz 1; qz 1; qz 1; qz 2]).
  - intros f sv Hf. assert (f = "TV") as ->.
    { revert Hf. change (features Fixtures.m_all_fixed) with ["TV"].
      intros Hf. by apply list_elem_of_singleton in Hf. }
    vm_compute. intros [= <-]. reflexivity.
  - by_compute.
Defined.

End FixedCoefficientSpec.

(** * The transformations STA and SUB *)

Module TransformationSpec.

Import Series SeriesFacts Frame Py Stats LinearModels PyDict PyDictFacts LinearModelSpec.
Import SumFacts ModelSetup.

Lemma mean_qsum (s : Series.t) : mean s = qsum id s / Qc_of_Z (Z.of_nat (length s)).
Proof. unfold mean. rewrite foldl_plus_qsum. f_equal. ring. Qed.

Lemma length_ne_0 (s : Series.t) : s ≠ [] → Qc_of_Z (Z.of_nat (length s)) ≠ 0.
Proof.
  intros Hs Hz. destruct s as [|x s]; [done|].
  rewrite <- Z2Qc_inj_0 in Hz. apply Z2Qc_inj in Hz. simpl in Hz. lia.
Qed.

Lemma qsum_sub_scalar (s : Series.t) c :
  qsum id (sub_scalar s c) = qsum id s - Qc_of_Z (Z.of_nat (length s)) * c.
Proof.
  unfold sub_scalar. induction s as [|x s IH]; csimpl.
  - change (Z.of_nat 0) with 0%Z. rewrite Z2Qc_inj_0. ring.
  - rewrite IH. rewrite Nat2Z.inj_succ, <- Z.add_1_r.
    rewrite Z2Qc_inj_add, Z2Qc_inj_1. ring.
Qed.

Lemma qsum_div_scalar (s : Series.t) c :
  qsum id (div_scalar s c) = qsum id s / c.
Proof.
  unfold div_scalar. induction s as [|x s IH]; csimpl.
  - unfold Qcdiv. ring.
  - rewrite IH. unfold id, Qcdiv. ring.
Qed.

Lemma mean_sub_scalar (s : Series.t) : s ≠ [] → mean (sub_scalar s (mean s)) = 0.
Proof.
  intros Hs. pose proof (length_ne_0 s Hs) as Hn.
  rewrite (mean_qsum (sub_scalar _ _)), qsum_sub_scalar, length_sub_scalar, mean_qsum.
  field. done.
Qed.

Lemma mean_div_scalar (s : Series.t) : mean s ≠ 0 → mean (div_scalar s (mean s)) = 1.
Proof.
  intros Hm. assert (Hs : s ≠ []).
  { intros ->. apply Hm. reflexivity. }
  pose proof (length_ne_0 s Hs) as Hn.
  rewrite (mean_qsum (div_scalar _ _)), qsum_div_scalar.
  unfold div_scalar at 1. rewrite length_fmap.
  rewrite mean_qsum in Hm |- *.
  assert (Hq : qsum id s ≠ 0).
  { intros Hz. apply Hm. rewrite Hz. unfold Qcdiv. ring. }
  field. split; done.
Qed.

(** X12.  The transformation codes SUB and STA of a feature whose
    column is not empty: SUB stores the column with its mean taken off
    every observation, a series of the same length whose mean is 0;
    STA stores the column with every observation divided by the
    column's mean, a series of the same length whose mean is 1, unless
    that mean is 0, in which case the column is stored as it is. *)
Theorem sub_centres_and_sta_normalises
    (m : LinearModel) (df : DataFrame) (f : string) (s : Series.t) :
  model_data m = Some df → get f (columns df) = Some s → s ≠ [] →
  let stored code := transformed_data (run (_apply_transformation f code) m).2 !! f in
  (∃ t, stored "SUB" = Some t ∧ t = sub_scalar s (mean s) ∧
        (∀ i x, s !! i = Some x → t !! i = Some (x - mean s)) ∧
        length t = length s ∧ mean t = 0) ∧
  (mean s ≠ 0 →
   ∃ t, stored "STA" = Some t ∧ t = div_scalar s (mean s) ∧
        (∀ i x, s !! i = Some x → t !! i = Some (x / mean s)) ∧
        length t = length s ∧ mean t = 1) ∧
  (mean s = 0 → stored "STA" = Some s).
Proof.
  intros Hmd Hget Hs stored. subst stored. cbv beta.
  unfold _apply_transformation. run_step. rewrite Hmd, Hget. run_step.
  cbn [snd transformed_data set_transformed_data].
  rewrite !lookup_insert_eq. split_and!.
  - rewrite decide_False by done. rewrite decide_True by done.
    eexists. split; [done|]. split; [done|]. split.
    { intros i x Hi. unfold sub_scalar. by rewrite list_lookup_fmap, Hi. }
    split; [apply length_sub_scalar | by apply mean_sub_scalar].
  - intros Hm. rewrite decide_True by done. rewrite decide_True by done.
    eexists. split; [done|]. split; [done|]. split.
    { intros i x Hi. unfold div_scalar. by rewrite list_lookup_fmap, Hi. }
    split; [apply length_fmap | by apply mean_div_scalar].
  - intros Hm. rewrite decide_True by done. rewrite decide_False by (intros H; by apply H).
    done.
Qed.

Lemma sub_centres_and_sta_normalises_witness :
  let s := [qz 1; qz 2; qz 3; qz 4] in
  let stored code :=
    transformed_data (run (_apply_transformation "TV" code) Fixtures.m_init).2 !! "TV" in
  (∃ t, stored "SUB" = Some t ∧ t = sub_scalar s (mean s) ∧
        (∀ i x, s !! i = Some x → t !! i = Some (x - mean s)) ∧
        length t = length s ∧ mean t = 0) ∧
  (mean s ≠ 0 →
   ∃ t, stored "STA" = Some t ∧ t = div_scalar s (mean s) ∧
        (∀ i x, s !! i = Some x → t !! i = Some (x / mean s)) ∧
        length t = length s ∧ mean t = 1) ∧
  (mean s = 0 → stored "STA" = Some s).
Proof.
  apply (sub_centres_and_sta_normalises Fixtures.m_init Fixtures.df "TV"
           [qz 1; qz 2; qz 3; qz 4]).
  - reflexivity.
  - reflexivity.
  - by_compute.
Defined.

End TransformationSpec.

(** * Recomputing the transformed features *)

Module ReapplySpec.

Import Series SeriesFacts Frame Py Stats LinearModels PyDict PyDictFacts LinearModelSpec.
Import ModelSetup.

#[local] Arguments fit_current_features : simpl never.
#[local] Arguments fit_and_store : simpl never.

Lemma run_for_each_cons {S A} (x : A) (l : list A) (body : A → M S unit) s :
  run (for_each (x :: l) body) s =
  match run (body x) s with
  | (Ok _, s') => run (for_each l body) s'
  | (Raise e, s') => (Raise e, s')
  end.
Proof. reflexivity. Qed.

(** Everything but the transformed data agrees. *)
Lemma stored_transform_ext m1 m2 g code :
  model_data m1 = model_data m2 → kpi m1 = kpi m2 →
  stored_transform m1 g code = stored_transform m2 g code.
Proof.
  intros Hmd Hk. unfold stored_transform, _apply_transformation. run_step.
  cbn [model_data kpi set_transformed_data]. rewrite Hmd, Hk.
  destruct (model_data m2) as [df|]; run_step; [|done].
  destruct (get g (columns df)) as [s|]; run_step; [|done].
  cbn [snd transformed_data set_transformed_data kpi]. by rewrite !lookup_insert_eq.
Qed.

(** One call of [_apply_transformation] on a model with data. *)
Lemma _apply_transformation_step g code s df :
  model_data s = Some df →
  ∃ s', run (_apply_transformation g code) s = (Ok tt, s') ∧
        data s' = data s ∧ model_data s' = model_data s ∧ kpi s' = kpi s ∧
        features s' = features s ∧
        feature_transformations s' = feature_transformations s ∧
        model s' = model s ∧ results s' = results s ∧ loader s' = loader s ∧
        fixed_coefficients s' = fixed_coefficients s ∧
        wgtd_variables s' = wgtd_variables s ∧
        transformed_data s' =
          match stored_transform s g code with
          | Some t => <[g := t]> (transformed_data s)
          | None => transformed_data s
          end.
Proof.
  intros Hmd. unfold stored_transform, _apply_transformation. run_step.
  cbn [model_data kpi set_transformed_data]. rewrite Hmd.
  destruct (get g (columns df)) as [orig|]; run_step.
  - eexists. split; [done|].
    cbn [snd data model_data kpi features feature_transformations model results loader
         fixed_coefficients wgtd_variables transformed_data set_transformed_data].
    rewrite lookup_insert_eq. split_and!; done.
  - exists s. split; [done|]. cbn [snd transformed_data set_transformed_data].
    rewrite lookup_empty. split_and!; done.
Qed.

(** The loop of [_reapply_transformations] over a list of features. *)
Lemma reapply_loop (l : list string) s df :
  model_data s = Some df →
  ∃ s', run (for_each l reapply_feature) s = (Ok tt, s') ∧
        data s' = data s ∧ model_data s' = model_data s ∧ kpi s' = kpi s ∧
        features s' = features s ∧
        feature_transformations s' = feature_transformations s ∧
        model s' = model s ∧ results s' = results s ∧ loader s' = loader s ∧
        fixed_coefficients s' = fixed_coefficients s ∧
        wgtd_variables s' = wgtd_variables s ∧
        ∀ g, transformed_data s' !! g =
             if decide (g ∈ l) then
               match feature_transformations s !! g with
               | Some code =>
                   match stored_transform s g code with
                   | Some t => Some t
                   | None => transformed_data s !! g
                   end
               | None => transformed_data s !! g
               end
             else transformed_data s !! g.
Proof.
  revert s. induction l as [|x l IH]; intros s Hmd.
  - cbn [for_each]. run_step. exists s. split_and!; done.
  - rewrite run_for_each_cons. unfold reapply_feature at 1. run_step.
    assert (Hstep : ∃ s1, run (match feature_transformations s !! x with
                               | Some transformation => _apply_transformation x transformation
                               | None => ret tt
                               end) s = (Ok tt, s1) ∧
              data s1 = data s ∧ model_data s1 = model_data s ∧ kpi s1 = kpi s ∧
              features s1 = features s ∧
              feature_transformations s1 = feature_transformations s ∧
              model s1 = model s ∧ results s1 = results s ∧ loader s1 = loader s ∧
              fixed_coefficients s1 = fixed_coefficients s ∧
              wgtd_variables s1 = wgtd_variables s ∧
              transformed_data s1 =
                match feature_transformations s !! x with
                | Some code =>
                    match stored_transform s x code with
                    | Some t => <[x := t]> (transformed_data s)
                    | None => transformed_data s
                    end
                | None => transformed_data s
                end).
    { destruct (feature_transformations s !! x) as [code|].
      - by apply (_apply_transformation_step x code s df).
      - run_step. exists s. split_and!; done. }
    destruct Hstep as (s1 & -> & Hd & Hmd1 & Hk & Hf & Hft & Hmo & Hr & Hlo & Hfx & Hw & Htd).
    destruct (IH s1) as (s' & Hrun & ? & ? & ? & ? & ? & ? & ? & ? & ? & ? & Hlook);
      [congruence|].
    exists s'. rewrite Hrun. split_and!; try congruence.
    intros g. rewrite Hlook, Hft.
    assert (Hst : ∀ code, stored_transform s1 g code = stored_transform s g code).
    { intros code. by apply stored_transform_ext. }
    assert (Hg1 : x ≠ g → transformed_data s1 !! g = transformed_data s !! g).
    { intros Hne. rewrite Htd. destruct (feature_transformations s !! x); [|done].
      destruct (stored_transform s x s0); [by rewrite lookup_insert_ne | done]. }
    destruct (decide (x = g)) as [->|Hne].
    + rewrite (decide_True (P := g ∈ g :: l)) by left.
      destruct (feature_transformations s !! g) as [code|] eqn:Hcode.
      * rewrite Hst, Htd. destruct (stored_transform s g code) as [t|] eqn:Hs.
        -- by destruct (decide (g ∈ l)); [|rewrite lookup_insert_eq].
        -- by destruct (decide (g ∈ l)).
      * rewrite Htd. by destruct (decide (g ∈ l)).
    + rewrite Hg1 by done. destruct (decide (g ∈ l)) as [Hin|Hin].
      * rewrite decide_True by (by right). destruct (feature_transformations s !! g); [|done].
        by rewrite Hst.
      * rewrite decide_False; [done|]. intros Hc. apply elem_of_cons in Hc as [->|]; done.
Qed.

(** X13.  [_reapply_transformations] on a model with data and features
    rebuilds the transformed data from scratch: afterwards there is an
    entry exactly for the features that carry a transformation code and
    are columns of the data, each holding what [_apply_transformation]
    computes from the current data; entries of other names are gone.
    Nothing else changes, and no exception is raised. *)
Theorem reapply_transformations_rebuilds (m : LinearModel) (df : DataFrame) :
  model_data m = Some df → features m ≠ [] →
  ∃ m', run _reapply_transformations m = (Ok tt, m') ∧
        features m' = features m ∧
        feature_transformations m' = feature_transformations m ∧
        model_data m' = model_data m ∧ kpi m' = kpi m ∧ results m' = results m ∧
        fixed_coefficients m' = fixed_coefficients m ∧
        ∀ g, transformed_data m' !! g =
             if bool_decide (g ∈ features m) then
               match feature_transformations m !! g with
               | Some code => stored_transform m g code
               | None => None
               end
             else None.
Proof.
  intros Hmd Hfeat. unfold _reapply_transformations. run_step.
  rewrite (bool_decide_eq_false_2 _ Hfeat). run_step.
  destruct (reapply_loop (features m) (set_transformed_data ∅ m) df Hmd)
    as (m' & Hrun & ? & ? & ? & ? & ? & ? & ? & ? & ? & ? & Hlook).
  exists m'. split; [exact Hrun|]. split_and!; try done.
  intros g. rewrite Hlook. cbn [feature_transformations transformed_data set_transformed_data].
  rewrite lookup_empty. case_bool_decide as Hin.
  - rewrite decide_True by done. destruct (feature_transformations m !! g) as [code|]; [|done].
    rewrite (stored_transform_ext (set_transformed_data ∅ m) m) by done.
    by destruct (stored_transform m g code).
  - by rewrite decide_False by done.
Qed.

Lemma reapply_transformations_rebuilds_witness :
  let m :=
    set_transformed_data {[ "Gone" := [qz 1]; "TV" := [qz 0] ]}
      (add_feature ExactOLS.exact_ols "TV" (Some "SUB") Fixtures.m_init) in
  ∃ m', run _reapply_transformations m = (Ok tt, m') ∧
        features m' = features m ∧
        feature_transformations m' = feature_transformations m ∧
        model_data m' = model_data m ∧ kpi m' = kpi m ∧ results m' = results m ∧
        fixed_coefficients m' = fixed_coefficients m ∧
        ∀ g, transformed_data m' !! g =
             if bool_decide (g ∈ features m) then
               match feature_transformations m !! g with
               | Some code => stored_transform m g code
               | None => None
               end
             else None.
Proof.
  apply (reapply_transformations_rebuilds
           (set_transformed_data {[ "Gone" := [qz 1]; "TV" := [qz 0] ]}
              (add_feature ExactOLS.exact_ols "TV" (Some "SUB") Fixtures.m_init))
           Fixtures.df).
  - reflexivity.
  - by_compute.
Defined.

(** The loop of [set_kpi] over the items of the transformation
    dictionary. *)
Lemma reapply_mdv_loop (l : list (string * string)) s df :
  model_data s = Some df →
  ∃ s', run (for_each l reapply_mdv) s = (Ok tt, s') ∧
        data s' = data s ∧ model_data s' = model_data s ∧ kpi s' = kpi s ∧
        features s' = features s ∧
        feature_transformations s' = feature_transformations s ∧
        model s' = model s ∧ results s' = results s ∧ loader s' = loader s ∧
        fixed_coefficients s' = fixed_coefficients s ∧
        wgtd_variables s' = wgtd_variables s ∧
        ∀ g, transformed_data s' !! g =
             if decide ((g, "MDV") ∈ l) then
               match stored_transform s g "MDV" with
               | Some t => Some t
               | None => transformed_data s !! g
               end
             else transformed_data s !! g.
Proof.
  revert s. induction l as [|[x code] l IH]; intros s Hmd.
  - cbn [for_each]. run_step. exists s. split_and!; done.
  - rewrite run_for_each_cons. unfold reapply_mdv at 1. cbn [fst snd].
    assert (Hstep : ∃ s1, run (if decide (code = "MDV")
                               then _apply_transformation x code else ret tt) s = (Ok tt, s1) ∧
              data s1 = data s ∧ model_data s1 = model_data s ∧ kpi s1 = kpi s ∧
              features s1 = features s ∧
              feature_transformations s1 = feature_transformations s ∧
              model s1 = model s ∧ results s1 = results s ∧ loader s1 = loader s ∧
              fixed_coefficients s1 = fixed_coefficients s ∧
              wgtd_variables s1 = wgtd_variables s ∧
              transformed_data s1 =
                if decide (code = "MDV") then
                  match stored_transform s x code with
                  | Some t => <[x := t]> (transformed_data s)
                  | None => transformed_data s
                  end
                else transformed_data s).
    { destruct (decide (code = "MDV")).
      - by apply (_apply_transformation_step x code s df).
      - run_step. exists s. split_and!; done. }
    destruct Hstep as (s1 & -> & Hd & Hmd1 & Hk & Hf & Hft & Hmo & Hr & Hlo & Hfx & Hw & Htd).
    destruct (IH s1) as (s' & Hrun & ? & ? & ? & ? & ? & ? & ? & ? & ? & ? & Hlook);
      [congruence|].
    exists s'. rewrite Hrun. split_and!; try congruence.
    intros g. rewrite Hlook.
    rewrite (stored_transform_ext s1 s) by done.
    destruct (decide (x = g ∧ code = "MDV")) as [[-> ->]|Hne].
    + rewrite (decide_True (P := (g, "MDV") ∈ (g, "MDV") :: l)) by left.
      rewrite Htd. rewrite (decide_True (P := "MDV" = "MDV")) by done.
      destruct (stored_transform s g "MDV") as [t|] eqn:Hs.
      * by destruct (decide ((g, "MDV") ∈ l)); [|rewrite lookup_insert_eq].
      * by destruct (decide ((g, "MDV") ∈ l)).
    + assert (Hg1 : transformed_data s1 !! g = transformed_data s !! g).
      { rewrite Htd. destruct (decide (code = "MDV")) as [->|]; [|done].
        destruct (stored_transform s x "MDV"); [|done].
        apply lookup_insert_ne. intros ->. by apply Hne. }
      rewrite Hg1. destruct (decide ((g, "MDV") ∈ l)) as [Hin|Hin].
      * by rewrite decide_True by (by right).
      * rewrite decide_False; [done|]. intros Hc.
        apply elem_of_cons in Hc as [[= ? ?]|]; [apply Hne; by split | done].
Qed.

(** What the code MDV stores: the column divided by the mean of the
    target, or the column itself when that mean is 0. *)
Lemma stored_transform_mdv m df k ks g :
  model_data m = Some df → kpi m = Some k → get k (columns df) = Some ks →
  stored_transform m g "MDV" =
  match get g (columns df) with
  | Some s => Some (if bool_decide (k ≠ "") && bool_decide (mean ks ≠ 0)
                    then div_scalar s (mean ks) else s)
  | None => None
  end.
Proof.
  intros Hmd Hk Hks. unfold stored_transform, _apply_transformation. run_step.
  cbn [model_data kpi set_transformed_data]. rewrite Hmd.
  destruct (get g (columns df)) as [s|]; run_step; [|done].
  cbn [snd transformed_data set_transformed_data kpi]. rewrite lookup_insert_eq.
  rewrite Hk, Hks. cbn [truthy]. rewrite decide_False by done.
  rewrite decide_False by done. by rewrite decide_True by done.
Qed.

(** X14.  [set_kpi] on a column of the data: the target is set, the
    intercept-only model is fitted, and every feature with the code MDV
    is recomputed as its column divided by the mean of the new target
    (kept as it is when that mean is 0); the transformed data of the
    other features are not touched, and no exception is raised. *)
Theorem set_kpi_rescales_mdv_features
    (fit : fitter) (kpi_name : string) (m : LinearModel) (df : DataFrame) (ks : Series.t) :
  model_data m = Some df → get kpi_name (columns df) = Some ks →
  ∃ m', run (set_kpi fit kpi_name) m = (Ok tt, m') ∧
        kpi m' = Some kpi_name ∧ features m' = features m ∧ model_data m' = Some df ∧
        feature_transformations m' = feature_transformations m ∧
        results m' = results (run (initialize_model fit) (assign_kpi kpi_name m)).2 ∧
        (∀ g s, feature_transformations m !! g = Some "MDV" → get g (columns df) = Some s →
                transformed_data m' !! g
                = Some (if bool_decide (kpi_name ≠ "") && bool_decide (mean ks ≠ 0)
                        then div_scalar s (mean ks) else s)) ∧
        (∀ g, feature_transformations m !! g ≠ Some "MDV" ∨ get g (columns df) = None →
              transformed_data m' !! g = transformed_data m !! g).
Proof.
  intros Hmd Hks. unfold set_kpi. run_step. rewrite Hmd.
  assert (Hmem : mem kpi_name (columns df) = true) by (apply mem_true; eauto).
  rewrite Hmem. cbv [negb]. run_step.
  destruct (run (initialize_model fit) (assign_kpi kpi_name m)) as [o s1] eqn:Hinit.
  pose proof Hinit as Hinit'. apply initialize_model_settings in Hinit' as [-> Hs].
  destruct Hs as (Hd1 & Hmd1 & Hk1 & Hf1 & Hft1 & Htd1 & Hl1 & Hfx1 & Hw1).
  cbn [data model_data kpi features feature_transformations transformed_data loader
       fixed_coefficients wgtd_variables assign_kpi] in Hd1, Hmd1, Hk1, Hf1, Hft1, Htd1.
  run_step.
  destruct (reapply_mdv_loop (map_to_list (feature_transformations s1)) s1 df)
    as (m' & Hrun & ? & Hmd' & Hk' & Hf' & Hft' & ? & Hr' & ? & ? & ? & Hlook);
    [congruence|].
  exists m'. split; [exact Hrun|].
  assert (Hst : ∀ g, stored_transform s1 g "MDV" =
                     match get g (columns df) with
                     | Some s => Some (if bool_decide (kpi_name ≠ "") && bool_decide (mean ks ≠ 0)
                                       then div_scalar s (mean ks) else s)
                     | None => None
                     end).
  { intros g. apply stored_transform_mdv; congruence. }
  cbn [snd]. split_and!; try congruence.
  - intros g s Hcode Hg. rewrite Hlook, Hft1.
    rewrite decide_True by (by apply elem_of_map_to_list).
    by rewrite Hst, Hg.
  - intros g Hg. rewrite Hlook, Hft1, Htd1, Hst.
    destruct (decide ((g, "MDV") ∈ map_to_list (feature_transformations m))) as [Hin|]; [|done].
    apply elem_of_map_to_list in Hin. destruct Hg as [Hg|Hg]; [done|]. by rewrite Hg.
Qed.

Lemma set_kpi_rescales_mdv_features_witness :
  let m :=
    set_feature_transformations {[ "TV" := "MDV"; "Radio" := "SUB" ]} Fixtures.m_unfitted in
  let ks := [qz 3; qz 5; qz 7; qz 10] in
  ∃ m', run (set_kpi ExactOLS.exact_ols "Sales") m = (Ok tt, m') ∧
        kpi m' = Some "Sales" ∧ features m' = features m ∧ model_data m' = Some Fixtures.df ∧
        feature_transformations m' = feature_transformations m ∧
        results m' = results (run (initialize_model ExactOLS.exact_ols) (assign_kpi "Sales" m)).2 ∧
        (∀ g s, feature_transformations m !! g = Some "MDV" →
                get g (columns Fixtures.df) = Some s →
                transformed_data m' !! g
                = Some (if bool_decide ("Sales" ≠ "") && bool_decide (mean ks ≠ 0)
                        then div_scalar s (mean ks) else s)) ∧
        (∀ g, feature_transformations m !! g ≠ Some "MDV" ∨ get g (columns Fixtures.df) = None →
              transformed_data m' !! g = transformed_data m !! g).
Proof.
  apply (set_kpi_rescales_mdv_features ExactOLS.exact_ols "Sales"
           (set_feature_transformations {[ "TV" := "MDV"; "Radio" := "SUB" ]} Fixtures.m_unfitted)
           Fixtures.df [qz 3; qz 5; qz 7; qz 10]).
  - reflexivity.
  - reflexivity.
Defined.

End ReapplySpec.

(** * Weighted variables: creation and choice of the components *)

Module WeightedVariableSpec.

Import Series SeriesFacts PyDict PyDictFacts Frame Py Stats LinearModels.
Import WeightedVariables WeightedSelection Decomposition SumFacts ExpansionSpec.

Lemma wf_assign name s df : wf df → length s = nrows df → wf (assign name s df).
Proof. intros Hwf Hs. unfold wf, assign. simpl. by apply Forall_set. Qed.

Lemma wf_length df k s : wf df → get k (columns df) = Some s → length s = nrows df.
Proof. intros Hwf Hget. apply (Forall_get _ _ _ _ Hwf Hget). Qed.

(** The loop that adds the components to the composite column. *)
Lemma accumulate_loop var_name (comps : list (string * Qc)) df dfi cur :
  var_name ∉ keys comps → wf df → wf dfi → nrows dfi = nrows df →
  get var_name (columns dfi) = Some cur →
  (∀ k, k ≠ var_name → get k (columns dfi) = get k (columns df)) →
  let out := foldl (accumulate_component var_name) dfi comps in
  wf out ∧ nrows out = nrows df ∧
  (∀ k, k ≠ var_name → get k (columns out) = get k (columns df)) ∧
  ∃ cur', get var_name (columns out) = Some cur' ∧
          ∀ t, (t < nrows df)%nat →
               iloc cur' t = iloc cur t + qsum (λ c, c.2 * value_at (columns df) c.1 t) comps.
Proof.
  revert dfi cur. induction comps as [|[c coef] comps IH];
    intros dfi cur Hfresh Hwf Hwfi Hn Hcur Hsame out; subst out.
  - simpl. split_and!; try done. exists cur. split; [done|]. intros t Ht. ring.
  - unfold keys in Hfresh. csimpl in Hfresh. apply not_elem_of_cons in Hfresh as [Hne Hfresh].
    assert (Hcv : c ≠ var_name) by (intros ->; done).
    assert (Hstep : accumulate_component var_name dfi (c, coef) =
                    match get c (columns df) with
                    | Some component => assign var_name (add cur (scale coef component)) dfi
                    | None => dfi
                    end).
    { unfold accumulate_component. cbn [fst snd]. rewrite Hcur, (Hsame c Hcv).
      by destruct (get c (columns df)). }
    cbn [foldl]. rewrite Hstep.
    destruct (get c (columns df)) as [component|] eqn:Hc.
    + pose proof (wf_length df c component Hwf Hc) as Hlc.
      pose proof (wf_length dfi var_name cur Hwfi Hcur) as Hlcur.
      assert (Hlen : length (add cur (scale coef component)) = nrows dfi).
      { rewrite length_add by (rewrite length_scale; lia). done. }
      destruct (IH (assign var_name (add cur (scale coef component)) dfi)
                   (add cur (scale coef component)))
        as (Hwf' & Hn' & Hsame' & cur' & Hcur' & Hsum).
      * done.
      * done.
      * by apply wf_assign.
      * done.
      * simpl. apply get_set_eq.
      * intros k Hk. simpl. rewrite get_set_ne by done. by apply Hsame.
      * split_and!; try done. exists cur'. split; [done|]. intros t Ht.
        rewrite Hsum by done. rewrite iloc_add by (rewrite ?length_scale; lia).
        rewrite iloc_scale. rewrite FixedCoefficientSpec.qsum_cons. cbn [fst snd].
        change (value_at (columns df) c t) with (iloc (default [] (get c (columns df))) t).
        rewrite Hc. simpl. ring.
    + destruct (IH dfi cur) as (Hwf' & Hn' & Hsame' & cur' & Hcur' & Hsum); try done.
      split_and!; try done. exists cur'. split; [done|]. intros t Ht.
      rewrite Hsum by done. rewrite FixedCoefficientSpec.qsum_cons. cbn [fst snd].
      change (value_at (columns df) c t) with (iloc (default [] (get c (columns df))) t).
      rewrite Hc. simpl. rewrite iloc_nil. ring.
Qed.

(** X15.  [create_weighted_variable_with_coefficients] adds the column
    [base_name|WGTD] whose value at every row is the sum over the
    components of coefficient times the component's value, a component
    that is no column of the data counting for nothing; the other
    columns are as before, and the definition is recorded under the new
    name. *)
Theorem weighted_variable_is_weighted_sum
    (base_name : string) (coefficients : list (string * Qc)) (m : LinearModel)
    (df : DataFrame) :
  model_data m = Some df → wf df → coefficients ≠ [] →
  (base_name +:+ "|WGTD") ∉ keys coefficients →
  let var_name := base_name +:+ "|WGTD" in
  let m' := create_weighted_variable_with_coefficients base_name coefficients m in
  ∃ df' column,
    model_data m' = Some df' ∧ wf df' ∧ nrows df' = nrows df ∧
    get var_name (columns df') = Some column ∧
    (∀ t, (t < nrows df)%nat →
          iloc column t = qsum (λ c, c.2 * value_at (columns df) c.1 t) coefficients) ∧
    (∀ k, k ≠ var_name → get k (columns df') = get k (columns df)) ∧
    get var_name (default [] (wgtd_variables m'))
      = Some (mkWgtd base_name (Some coefficients)) ∧
    features m' = features m ∧ results m' = results m.
Proof.
  intros Hmd Hwf Hne Hfresh var_name m'. subst m'.
  unfold create_weighted_variable_with_coefficients. rewrite Hmd.
  destruct coefficients as [|c0 cs] eqn:Hcs; [done|]. rewrite <- Hcs in *. fold var_name.
  edestruct (accumulate_loop var_name coefficients df
               (assign var_name (const (nrows df) 0) df) (const (nrows df) 0))
    as (Hwf' & Hn' & Hsame' & cur' & Hcur' & Hsum); try done.
  - apply wf_assign; [done | apply length_const].
  - simpl. apply get_set_eq.
  - intros k Hk. simpl. by rewrite get_set_ne.
  - eexists _, cur'. cbn [model_data set_wgtd_variables set_model_data wgtd_variables
                          features results default from_option id].
    split; [done|]. split_and!; try done.
    + intros t Ht. rewrite Hsum by done. rewrite iloc_const by done. ring.
    + apply get_set_eq.
Qed.

Lemma weighted_variable_is_weighted_sum_witness :
  let coefficients := [("TV", qz 2); ("Radio", qz (-1)); ("Absent", qz 5)] in
  let m' := create_weighted_variable_with_coefficients "Media" coefficients Fixtures.m_init in
  ∃ df' column,
    model_data m' = Some df' ∧ wf df' ∧ nrows df' = nrows Fixtures.df ∧
    get ("Media" +:+ "|WGTD") (columns df') = Some column ∧
    (∀ t, (t < nrows Fixtures.df)%nat →
          iloc column t = qsum (λ c, c.2 * value_at (columns Fixtures.df) c.1 t) coefficients) ∧
    (∀ k, k ≠ "Media" +:+ "|WGTD" → get k (columns df') = get k (columns Fixtures.df)) ∧
    get ("Media" +:+ "|WGTD") (default [] (wgtd_variables m'))
      = Some (mkWgtd "Media" (Some coefficients)) ∧
    features m' = features Fixtures.m_init ∧ results m' = results Fixtures.m_init.
Proof.
  apply (weighted_variable_is_weighted_sum "Media"
           [("TV", qz 2); ("Radio", qz (-1)); ("Absent", qz 5)] Fixtures.m_init Fixtures.df).
  - reflexivity.
  - repeat constructor.
  - done.
  - by_compute.
Defined.

(** What the selection loop keeps true of the dictionary it builds. *)
Lemma select_coefficients_inv (P : string * Qc → Prop) sign_type rows :
  (∀ row, row ∈ rows →
          select_row sign_type [] row ≠ [] → P (Variable_ row, Coefficient row)) →
  Forall P (select_coefficients sign_type rows).
Proof.
  unfold select_coefficients.
  assert (Hgen : ∀ acc, Forall P acc →
            (∀ row, row ∈ rows →
                    select_row sign_type [] row ≠ [] → P (Variable_ row, Coefficient row)) →
            Forall P (foldl (select_row sign_type) acc rows)).
  { induction rows as [|row rows IH]; intros acc Hacc Hrows; [done|].
    cbn [foldl]. apply IH.
    - pose proof (Hrows row ltac:(left)) as Hrow. revert Hrow.
      unfold select_row. cbn [set].
      repeat (case_match; try done); intros Hrow; apply Forall_set; try done;
        by apply Hrow.
    - intros r Hr. apply Hrows. by right. }
  intros Hrows. by apply Hgen.
Qed.

Lemma select_coefficients_NoDup sign_type rows :
  NoDup (keys (select_coefficients sign_type rows)).
Proof.
  unfold select_coefficients.
  assert (Hgen : ∀ acc, NoDup (keys acc) →
                        NoDup (keys (foldl (select_row sign_type) acc rows))).
  { induction rows as [|row rows IH]; intros acc Hacc; [done|].
    cbn [foldl]. apply IH. unfold select_row.
    repeat (case_match; try done); by apply NoDup_keys_set. }
  apply Hgen. constructor.
Qed.

(** X16.  The components chosen by [create_weighted_variable]: every
    chosen variable comes from a row of the test table with
    [|t| > 1.645] and carries that row's coefficient; with sign type
    'pos' every chosen coefficient is positive, with 'neg' negative; a
    sign type other than 'pos', 'neg' and 'mix' chooses nothing.  No
    variable is chosen twice. *)
Theorem select_coefficients_sound (sign_type : string) (rows : list TestRow) :
  NoDup (keys (select_coefficients sign_type rows)) ∧
  Forall (λ c : string * Qc,
            ∃ row, row ∈ rows ∧ Variable_ row = c.1 ∧ Coefficient row = c.2 ∧
                   qf 329 200 < Qcabs (T_stat row) ∧
                   (sign_type = "pos" → 0 < c.2) ∧ (sign_type = "neg" → c.2 < 0))
         (select_coefficients sign_type rows) ∧
  (sign_type ≠ "pos" → sign_type ≠ "neg" → sign_type ≠ "mix" →
   select_coefficients sign_type rows = []).
Proof.
  split; [apply select_coefficients_NoDup|]. split.
  - apply select_coefficients_inv. intros row Hrow. unfold select_row. cbn [fst snd].
    destruct (bool_decide (qf 329 200 < Qcabs (T_stat row))) eqn:Hsig;
      [|intros H; exfalso; apply H; reflexivity].
    apply bool_decide_eq_true in Hsig.
    destruct (bool_decide (sign_type = "pos") && bool_decide (0 < Coefficient row)) eqn:Hpos.
    { apply andb_true_iff in Hpos as [Hp Hc].
      apply bool_decide_eq_true in Hp. apply bool_decide_eq_true in Hc.
      intros _. exists row. split_and!; try done. intros ->. done. }
    destruct (bool_decide (sign_type = "neg") && bool_decide (Coefficient row < 0)) eqn:Hneg.
    { apply andb_true_iff in Hneg as [Hn Hc].
      apply bool_decide_eq_true in Hn. apply bool_decide_eq_true in Hc.
      intros _. exists row. split_and!; try done. intros ->. done. }
    destruct (bool_decide (sign_type = "mix")) eqn:Hmix;
      [|intros H; exfalso; apply H; reflexivity].
    apply bool_decide_eq_true in Hmix.
    intros _. exists row. split_and!; try done; intros ->; done.
  - intros Hp Hn Hm. unfold select_coefficients.
    induction rows as [|row rows IH]; [done|]. cbn [foldl].
    unfold select_row at 2.
    rewrite (bool_decide_eq_false_2 _ Hp), (bool_decide_eq_false_2 _ Hn),
      (bool_decide_eq_false_2 _ Hm).
    cbn [andb]. by destruct (bool_decide _).
Qed.

Lemma total_weight_nonpos (comps : list (string * Qc)) :
  Forall (λ c, c.2 ≤ 0) comps → total_weight comps = - qsum (λ c, c.2) comps.
Proof.
  intros Hneg. rewrite total_weight_qsum.
  induction Hneg as [|c comps Hc _ IH]; simpl; [ring|].
  rewrite IH, (Qcabs_neg _ Hc). ring.
Qed.

Lemma qsum_pos (comps : list (string * Qc)) :
  comps ≠ [] → Forall (λ c, 0 < c.2) comps → 0 < qsum (λ c, c.2) comps.
Proof.
  intros Hne Hpos. destruct Hpos as [|c comps Hc Hpos]; [done|]. simpl. clear Hne.
  assert (Hrest : 0 ≤ qsum (λ c, c.2) comps).
  { induction Hpos as [|d comps Hd _ IH]; simpl; [apply Qcle_refl|].
    apply Qcplus_nonneg_nonneg; [by apply Qclt_le_weak | done]. }
  apply Qclt_le_trans with (c.2 + 0).
  - by rewrite Qcplus_0_r.
  - by apply Qcplus_le_mono_l.
Qed.

Lemma qsum_neg (comps : list (string * Qc)) :
  comps ≠ [] → Forall (λ c, c.2 < 0) comps → qsum (λ c, c.2) comps < 0.
Proof.
  intros Hne Hneg. destruct Hneg as [|c comps Hc Hneg]; [done|]. simpl. clear Hne.
  assert (Hrest : qsum (λ c, c.2) comps ≤ 0).
  { induction Hneg as [|d comps Hd _ IH]; simpl; [apply Qcle_refl|].
    rewrite <- (Qcplus_0_r 0). apply Qcplus_le_compat; [by apply Qclt_le_weak | done]. }
  apply Qcle_lt_trans with (c.2 + 0).
  - by apply Qcplus_le_mono_l.
  - by rewrite Qcplus_0_r.
Qed.

(** X17.  A composite whose components were chosen with sign type
    'pos' is expanded into contributions that re-sum to the composite's
    own contribution; one chosen with sign type 'neg' (all coefficients
    negative) is expanded into contributions that re-sum to the
    negative of it, because the shares are coefficient over the sum of
    absolute values. *)
Theorem signed_composite_expansion
    (n : nat) (vc : list (string * Series.t)) (groups : list (string * GroupInfo))
    (w base : string) (sign_type : string) (rows : list TestRow) (wc : Series.t) (t : nat) :
  select_coefficients sign_type rows ≠ [] →
  all_length n vc → get w vc = Some wc → (t < n)%nat →
  let info := mkWgtd base (Some (select_coefficients sign_type rows)) in
  let vc' := (expand_weighted (vc, groups) (w, info)).1 in
  (sign_type = "pos" → sum_at vc' t - sum_at (del w vc) t = iloc wc t) ∧
  (sign_type = "neg" → sum_at vc' t - sum_at (del w vc) t = - iloc wc t).
Proof.
  intros Hne Hall Hget Ht info vc'. subst vc' info.
  set (comps := select_coefficients sign_type rows) in *.
  destruct (select_coefficients_sound sign_type rows) as (_ & Hsound & _). fold comps in Hsound.
  split; intros Hsign.
  - assert (Hpos : Forall (λ c : string * Qc, 0 < c.2) comps).
    { eapply Forall_impl; [exact Hsound|]. intros c (row & _ & _ & _ & _ & Hp & _). by apply Hp. }
    assert (Hnn : Forall (λ c : string * Qc, 0 ≤ c.2) comps).
    { eapply Forall_impl; [exact Hpos|]. intros c Hc. by apply Qclt_le_weak. }
    pose proof (qsum_pos comps Hne Hpos) as Hs.
    assert (Htw : total_weight comps = qsum (λ c, c.2) comps) by by apply total_weight_nonneg.
    rewrite (expand_weighted_sum n vc groups w _ wc t Hall Hget Ht);
      cbn [components default from_option id]; [|by rewrite Htw].
    rewrite Htw. field. by apply Qclt_not_eq in Hs.
  - assert (Hneg : Forall (λ c : string * Qc, c.2 < 0) comps).
    { eapply Forall_impl; [exact Hsound|]. intros c (row & _ & _ & _ & _ & _ & Hn). by apply Hn. }
    assert (Hnp : Forall (λ c : string * Qc, c.2 ≤ 0) comps).
    { eapply Forall_impl; [exact Hneg|]. intros c Hc. by apply Qclt_le_weak. }
    assert (Hs : 0 < - qsum (λ c, c.2) comps).
    { pose proof (qsum_neg comps Hne Hneg) as Hq.
      apply Qclt_minus_iff in Hq. by rewrite Qcplus_0_l in Hq. }
    assert (Htw : total_weight comps = - qsum (λ c, c.2) comps) by by apply total_weight_nonpos.
    rewrite (expand_weighted_sum n vc groups w _ wc t Hall Hget Ht);
      cbn [components default from_option id]; [|by rewrite Htw].
    rewrite Htw. field. intros Hz. rewrite Hz in Hs. by apply Qclt_not_eq in Hs.
Qed.

(** The theorem on two significant rows with negative coefficients. *)
Lemma signed_composite_expansion_witness :
  let rows := [mkRow "Price" (qz (-2)) (qz (-3)); mkRow "Rain" (qz (-1)) (qz 2);
               mkRow "TV" (qz 4) (qz 5)] in
  let vc := [("const", [qz 1; qz 1; qz 1]); ("Drag|WGTD", [qz 3; qz 6; qz 9])] in
  let info := mkWgtd "Drag" (Some (select_coefficients "neg" rows)) in
  let vc' := (expand_weighted (vc, []) ("Drag|WGTD", info)).1 in
  ("neg" = "pos" →
   sum_at vc' 1 - sum_at (del "Drag|WGTD" vc) 1 = iloc [qz 3; qz 6; qz 9] 1) ∧
  ("neg" = "neg" →
   sum_at vc' 1 - sum_at (del "Drag|WGTD" vc) 1 = - iloc [qz 3; qz 6; qz 9] 1).
Proof.
  apply (signed_composite_expansion 3
           [("const", [qz 1; qz 1; qz 1]); ("Drag|WGTD", [qz 3; qz 6; qz 9])] []
           "Drag|WGTD" "Drag" "neg"
           [mkRow "Price" (qz (-2)) (qz (-3)); mkRow "Rain" (qz (-1)) (qz 2);
            mkRow "TV" (qz 4) (qz 5)]
           [qz 3; qz 6; qz 9] 1).
  - by_compute.
  - repeat constructor.
  - reflexivity.
  - lia.
Defined.

End WeightedVariableSpec.

(** * Product of two variables *)

Module VariableTransformationSpec.

Import Series SeriesFacts PyDict PyDictFacts Frame Py VariableTransformations.
Import Decomposition SumFacts.

Lemma iloc_mul a b i : iloc (mul a b) i = iloc a i * iloc b i.
Proof.
  unfold iloc, mul. rewrite lookup_zip_with.
  destruct (a !! i) as [x|]; simpl; [|ring].
  destruct (b !! i) as [y|]; simpl; [done | ring].
Qed.

(** X18.  [multiply_variables] raises [ValueError] exactly when one of
    the two variables is no column of the data (the first one is
    reported first).  Otherwise it returns the data with one column
    more, named [var1*var2|MULT identifier], which holds at every row
    the product of the two variables; every column of another name is
    as before. *)
Theorem multiply_variables_product
    (data : DataFrame) (var1 var2 identifier : string) :
  ((get var1 (columns data) = None ∨ get var2 (columns data) = None) ↔
   ∃ msg, multiply_variables data var1 var2 identifier = Raise (ValueError msg)) ∧
  (∀ s1 s2, get var1 (columns data) = Some s1 → get var2 (columns data) = Some s2 →
     ∃ out, multiply_variables data var1 var2 identifier
              = Ok (out, mult_name var1 var2 identifier) ∧
            nrows out = nrows data ∧
            (∀ t, value_at (columns out) (mult_name var1 var2 identifier) t
                  = iloc s1 t * iloc s2 t) ∧
            (∀ k, k ≠ mult_name var1 var2 identifier →
                  get k (columns out) = get k (columns data)) ∧
            (wf data → wf out)).
Proof.
  unfold multiply_variables. split.
  - destruct (get var1 (columns data)) as [s1|]; [|split; [eauto | by left]].
    destruct (get var2 (columns data)) as [s2|]; [|split; [eauto | by right]].
    split; [intros [H|H]; discriminate H | intros [msg H]; discriminate H].
  - intros s1 s2 H1 H2. rewrite H1, H2. eexists. split; [done|]. cbn [nrows columns assign].
    split_and!; try done.
    + intros t. unfold value_at. rewrite get_set_eq. cbn [default from_option id].
      apply iloc_mul.
    + intros k Hk. apply get_set_ne. congruence.
    + intros Hwf. apply Forall_set; [done|]. cbn [snd]. unfold mul.
      rewrite length_zip_with.
      pose proof (Forall_get _ _ _ _ Hwf H1) as Hl1.
      pose proof (Forall_get _ _ _ _ Hwf H2) as Hl2. cbn [snd] in Hl1, Hl2.
      cbn [nrows assign]. lia.
Qed.

(** A product on the example data, and a missing variable. *)
Example multiply_variables_example :
  (∃ out, multiply_variables Fixtures.df "TV" "Radio" "" = Ok (out, "TV*Radio|MULT TV*Radio") ∧
          get "TV*Radio|MULT TV*Radio" (columns out) = Some [qz 2; qz 2; qz 12; qz 12]) ∧
  multiply_variables Fixtures.df "TV" "Print" "x"
    = Raise (ValueError "Variable 'Print' not found in the data").
Proof. split; [eexists; split; [reflexivity | by_compute] | reflexivity]. Qed.

End VariableTransformationSpec.

(** * Default groups *)

Module DefaultGroupsSpec.

Import Series SeriesFacts PyDict PyDictFacts Frame Py Stats LinearModels Decomposition.
Import SumFacts GroupDecomposition.

Lemma default_group_names f :
  default_group f ∈ ["Price"; "Promotions"; "Media"; "Competition"; "Weather";
                     "Seasonality"; "Other"].
Proof.
  unfold default_group. repeat case_match; rewrite !elem_of_cons; tauto.
Qed.

(** The dictionary built by the loop over the features. *)
Lemma default_groups_get (l : list string) (init : list (string * GroupInfo)) k :
  get k (foldl (λ groups feature,
                  set feature (mkGroup (default_group feature) (Some "")) groups) init l)
  = if decide (k ∈ l) then Some (mkGroup (default_group k) (Some "")) else get k init.
Proof.
  revert init. induction l as [|f l IH]; intros init; cbn [foldl].
  - by rewrite decide_False by apply not_elem_of_nil.
  - rewrite IH. destruct (decide (k ∈ l)) as [Hin|Hin].
    + by rewrite decide_True by (by right).
    + rewrite get_set. destruct (decide (f = k)) as [->|Hne].
      * by rewrite decide_True by left.
      * rewrite decide_False; [done|]. intros Hc. apply elem_of_cons in Hc as [->|]; done.
Qed.

Lemma default_groups_NoDup (l : list string) (init : list (string * GroupInfo)) :
  NoDup (keys init) →
  NoDup (keys (foldl (λ groups feature,
                        set feature (mkGroup (default_group feature) (Some "")) groups) init l)).
Proof.
  revert init. induction l as [|f l IH]; intros init Hnd; cbn [foldl]; [done|].
  apply IH. by apply NoDup_keys_set.
Qed.

Lemma default_groups_Forall (P : string * GroupInfo → Prop) (l : list string) init :
  Forall P init → (∀ f, f ∈ l → P (f, mkGroup (default_group f) (Some ""))) →
  Forall P (foldl (λ groups feature,
                     set feature (mkGroup (default_group feature) (Some "")) groups) init l).
Proof.
  revert init. induction l as [|f l IH]; intros init Hinit Hl; cbn [foldl]; [done|].
  apply IH.
  - apply Forall_set; [done|]. apply Hl. left.
  - intros g Hg. apply Hl. by right.
Qed.

(** X19.  The default groups: the dictionary has exactly one entry for
    the intercept and one for every feature, each with a blank
    adjustment; a feature is put in the group that its lower-cased name
    selects, the intercept in ["Base"] (unless a feature is itself
    called ["const"]); the group names are among eight fixed ones, so
    none collides with the columns ["Actual"] and ["Predicted"]. *)
Theorem create_default_groups_covers (m : LinearModel) :
  let groups := create_default_groups m in
  covers groups m ∧ NoDup (keys groups) ∧ group_names_free groups ∧
  (∀ v, is_Some (get v groups) ↔ v = "const" ∨ v ∈ features m) ∧
  Forall (λ g : string * GroupInfo, adjustment_of g.2 = "") groups ∧
  (∀ f, f ∈ features m → get f groups = Some (mkGroup (default_group f) (Some ""))) ∧
  ("const" ∉ features m → get "const" groups = Some (mkGroup "Base" (Some ""))).
Proof.
  intros groups. subst groups. unfold create_default_groups.
  assert (Hget : ∀ v, is_Some (get v (foldl (λ groups feature,
                    set feature (mkGroup (default_group feature) (Some "")) groups)
                    [("const", mkGroup "Base" (Some ""))] (features m)))
                 ↔ v = "const" ∨ v ∈ features m).
  { intros v. rewrite default_groups_get. destruct (decide (v ∈ features m)) as [Hin|Hin].
    - split; [by right | eauto].
    - simpl. destruct (decide ("const" = v)) as [<-|Hne].
      + split; [by left | eauto].
      + split; [intros [? ?]; done | intros [->|]; done]. }
  split_and!.
  - unfold covers. apply Forall_forall. intros v Hv. apply Hget.
    apply elem_of_cons in Hv as [->|Hv]; [by left | by right].
  - apply default_groups_NoDup. unfold keys. csimpl. apply NoDup_singleton.
  - unfold group_names_free. apply default_groups_Forall.
    + constructor; [|constructor]. simpl. split; done.
    + intros f _. simpl. pose proof (default_group_names f) as Hn.
      split; intros Heq; rewrite Heq in Hn; revert Hn; by_compute.
  - exact Hget.
  - apply default_groups_Forall; [by constructor | done].
  - intros f Hf. rewrite default_groups_get. by rewrite decide_True.
  - intros Hc. rewrite default_groups_get. rewrite decide_False by done. reflexivity.
Qed.

(** Some names and their groups; the first keyword that matches wins. *)
Example default_group_examples :
  default_group <$> ["TV_Spend"; "price_index"; "TV_Price"; "Xmas_Holiday"; "Rainfall";
                     "Competitor_Promo"; "Distribution"]
  = ["Media"; "Price"; "Price"; "Seasonality"; "Weather"; "Promotions"; "Other"].
Proof. reflexivity. Qed.

End DefaultGroupsSpec.

(** * Decomposition under the default groups *)

Module DefaultDecompositionSpec.

Import Series SeriesFacts PyDict PyDictFacts Frame Py Stats LinearModels Decomposition.
Import SumFacts ExpansionSpec ReconciliationSpec ConservationSpec GroupDecomposition.
Import DefaultGroupsSpec.

(** Groups with blank adjustments record no adjustment value. *)
Lemma blank_adjustments_record_nothing n (groups : list (string * GroupInfo))
    (l : list (string * Series.t)) st :
  Forall (λ g : string * GroupInfo, adjustment_of g.2 = "") groups →
  (foldl (group_step n groups) st l).2 = st.2.
Proof.
  intros Hblank. revert st. induction l as [|item l IH]; intros st; cbn [foldl]; [done|].
  rewrite IH. unfold group_step.
  destruct (get item.1 groups) as [g|] eqn:Hg; [|done].
  pose proof (Forall_get _ _ _ _ Hblank Hg) as Hadj. cbn [snd] in Hadj.
  rewrite Hadj. rewrite decide_False by done. rewrite decide_False by done. done.
Qed.

(** The expansion of the weighted variables hands the group of the
    composite on to its components. *)
Lemma expand_components_groups (P : GroupInfo → Prop) w wc tw comps st :
  Forall (λ g : string * GroupInfo, P g.2) st.2 →
  Forall (λ g : string * GroupInfo, P g.2) (foldl (expand_component w wc tw) st comps).2.
Proof.
  revert st. induction comps as [|c comps IH]; intros st Hst; cbn [foldl]; [done|].
  apply IH. unfold expand_component. cbn [snd].
  destruct (get c.1 st.2); [done|].
  destruct (get w st.2) as [g|] eqn:Hg; [|done].
  apply Forall_set; [done|]. apply (Forall_get _ _ _ _ Hst Hg).
Qed.

Lemma process_weighted_groups (P : GroupInfo → Prop) m st :
  Forall (λ g : string * GroupInfo, P g.2) st.2 →
  Forall (λ g : string * GroupInfo, P g.2) (process_weighted m st).2.
Proof.
  unfold process_weighted. destruct (wgtd_variables m) as [ws|]; [|done].
  revert st. induction ws as [|item ws IH]; intros st Hst; cbn [foldl]; [done|].
  apply IH. unfold expand_weighted.
  destruct (get item.1 st.1) as [wc|]; [|done].
  destruct (decide _); [|done].
  by apply expand_components_groups.
Qed.

(** The group columns sum to the prediction when the reconciliation has
    somewhere to put the adjustments. *)
Lemma group_columns_sum (m : LinearModel) (groups : list (string * GroupInfo))
    (res : RegressionResults) (data : DataFrame) :
  fitted_on m res data → covers groups m → group_names_free groups →
  nonneg_weights m → reconcilable m res data groups →
  ∃ out, calculate_decomposition m groups = Ok out ∧
         ∀ t, (t < nrows data)%nat →
              sum_at (group_columns out) t = value_at (columns out) "Predicted" t.
Proof.
  intros Hfit Hcov Hfree Hpos Hrec.
  pose proof Hfit as (Hres & Hdata & Hwf & (k & Hk & [actual Hact]) & Hnd & Hfs & Hkeys).
  unfold calculate_decomposition. rewrite Hdata, Hres, Hk. unfold column. rewrite Hact.
  eexists. split; [reflexivity|]. intros t Ht.
  set (vc := variable_contributions (params res) data groups).
  set (st := process_weighted m (vc, groups)).
  destruct (process_weighted_inv
              (λ g, Group g ≠ "Actual" ∧ Group g ≠ "Predicted")
              (nrows data) m (vc, groups) t)
    as (Hlen & Hcovd & Hndk & Hnames & Hsum); try done.
  { by apply variable_contributions_length. }
  { intros k' Hk'. apply get_is_Some_keys.
    unfold vc in Hk'. cbn [fst] in Hk'. rewrite variable_contributions_get in Hk'.
    case_decide; [done | by destruct Hk']. }
  { apply variable_contributions_NoDup. }
  fold st in Hlen, Hcovd, Hndk, Hnames, Hsum. cbn [fst] in Hsum.
  destruct (group_fold_inv (nrows data) st.2 st.1 ([], []) t)
    as (Hglen & Hgnd & Hgfree & Hgsum); try done.
  { constructor. }
  { apply NoDup_nil_2. }
  change (foldl (group_step (nrows data) st.2) ([], []) st.1)
    with (grouped_and_adjustments m res data groups) in *.
  set (ga := grouped_and_adjustments m res data groups) in *.
  destruct (output_columns (nrows data) actual (predicted m res data)
              (add_total_adjustment ga.1 ga.2)) as [Hout Hpred].
  { by rewrite add_total_adjustment_keys. }
  { rewrite add_total_adjustment_keys. unfold keys. by apply Forall_fmap. }
  rewrite Hout, Hpred.
  rewrite (add_total_adjustment_sum (nrows data)) by done.
  rewrite Hgsum. cbn [fst snd]. rewrite total_of_nil, Hsum.
  rewrite <- (contributions_sum_to_prediction m res data groups t) by done.
  fold vc. simpl. ring.
Qed.

(** X20.  Decomposing a fitted model under its default groups conserves
    the prediction: the table has one column per default group in use,
    and at every timestamp these columns sum to the Predicted column,
    provided that the coefficients the results show are those of the
    fit (no fixed coefficient has overridden them: the prediction is
    made with the coefficients of the fit, the contributions with the
    ones shown), that no feature column is a constant other than 0 (the
    library would add no intercept column to the design it predicts
    on), and that no weighted variable has a negative component
    coefficient.  No adjustment is recorded, so no ["Base"] group is
    needed for it. *)
Theorem default_groups_decomposition_conserves
    (m : LinearModel) (res : RegressionResults) (data : DataFrame) :
  fitted_on m res data → nonneg_weights m →
  ∃ out, calculate_decomposition m (create_default_groups m) = Ok out ∧
         (grouped_and_adjustments m res data (create_default_groups m)).2 = [] ∧
         ∀ t, (t < nrows data)%nat →
              sum_at (group_columns out) t = value_at (columns out) "Predicted" t.
Proof.
  intros Hfit Hpos.
  destruct (create_default_groups_covers m) as (Hcov & Hnd & Hfree & _ & Hblank & _).
  assert (Hadj : (grouped_and_adjustments m res data (create_default_groups m)).2 = []).
  { unfold grouped_and_adjustments. cbv zeta.
    rewrite blank_adjustments_record_nothing; [done|].
    by apply (process_weighted_groups (λ g, adjustment_of g = "")). }
  destruct (group_columns_sum m (create_default_groups m) res data) as (out & Hout & Hsum);
    try done.
  { by left. }
  exists out. done.
Qed.

(** The theorem on the model with the features TV and Radio. *)
Lemma default_groups_decomposition_conserves_witness :
  let m := add_feature ExactOLS.exact_ols "Radio" None Fixtures.m_tv in
  let res := default (mkResults [] 0 []) (results m) in
  ∃ out, calculate_decomposition m (create_default_groups m) = Ok out ∧
         (grouped_and_adjustments m res Fixtures.df (create_default_groups m)).2 = [] ∧
         ∀ t, (t < nrows Fixtures.df)%nat →
              sum_at (group_columns out) t = value_at (columns out) "Predicted" t.
Proof.
  apply (default_groups_decomposition_conserves
           (add_feature ExactOLS.exact_ols "Radio" None Fixtures.m_tv)
           (default (mkResults [] 0 [])
                    (results (add_feature ExactOLS.exact_ols "Radio" None Fixtures.m_tv)))
           Fixtures.df).
  - split; [vm_compute; reflexivity|]. split; [vm_compute; reflexivity|].
    split; [by_compute|]. split; [exists "Sales"; split; [reflexivity | by_compute]|].
    split; [by_compute|]. split; by_compute.
  - by_compute.
Defined.

End DefaultDecompositionSpec.

(** * Decomposition of one group *)

Module GroupDecompositionSpec.

Import Series SeriesFacts PyDict PyDictFacts Frame Py Stats LinearModels Decomposition.
Import SumFacts ConservationSpec GroupDecomposition.

Lemma get_app {V} (d1 d2 : list (string * V)) k :
  get k (d1 ++ d2) = match get k d1 with Some v => Some v | None => get k d2 end.
Proof.
  induction d1 as [|[k' v'] d1 IH]; simpl; [done|].
  by destruct (decide (k' = k)).
Qed.

Lemma qmin_le_l x y : qmin x y ≤ x.
Proof.
  unfold qmin. destruct (decide (x ≤ y)) as [H|H]; [apply Qcle_refl|].
  apply Qclt_le_weak. by apply Qcnot_le_lt.
Qed.

Lemma qmin_le_r x y : qmin x y ≤ y.
Proof. unfold qmin. destruct (decide (x ≤ y)) as [H|H]; [done | apply Qcle_refl]. Qed.

Lemma qmax_ge_l x y : x ≤ qmax x y.
Proof. unfold qmax. destruct (decide (x ≤ y)) as [H|H]; [done | apply Qcle_refl]. Qed.

Lemma qmax_ge_r x y : y ≤ qmax x y.
Proof.
  unfold qmax. destruct (decide (x ≤ y)) as [H|H]; [apply Qcle_refl|].
  apply Qclt_le_weak. by apply Qcnot_le_lt.
Qed.

Lemma foldl_qmin_le a (l : list Qc) :
  foldl qmin a l ≤ a ∧ (∀ x, x ∈ l → foldl qmin a l ≤ x) ∧
  (foldl qmin a l = a ∨ foldl qmin a l ∈ l).
Proof.
  revert a. induction l as [|y l IH]; intros a; cbn [foldl].
  - split; [apply Qcle_refl|]. split; [|by left]. intros x Hx. by apply elem_of_nil in Hx.
  - destruct (IH (qmin a y)) as (H1 & H2 & H3). split_and!.
    + eapply Qcle_trans; [exact H1 | apply qmin_le_l].
    + intros x Hx. apply elem_of_cons in Hx as [->|Hx]; [|by apply H2].
      eapply Qcle_trans; [exact H1 | apply qmin_le_r].
    + destruct H3 as [H3|H3]; [|right; by right].
      rewrite H3. unfold qmin. destruct (decide (a ≤ y)); [by left | right; left].
Qed.

Lemma foldl_qmax_ge a (l : list Qc) :
  a ≤ foldl qmax a l ∧ (∀ x, x ∈ l → x ≤ foldl qmax a l) ∧
  (foldl qmax a l = a ∨ foldl qmax a l ∈ l).
Proof.
  revert a. induction l as [|y l IH]; intros a; cbn [foldl].
  - split; [apply Qcle_refl|]. split; [|by left]. intros x Hx. by apply elem_of_nil in Hx.
  - destruct (IH (qmax a y)) as (H1 & H2 & H3). split_and!.
    + eapply Qcle_trans; [apply qmax_ge_l | exact H1].
    + intros x Hx. apply elem_of_cons in Hx as [->|Hx]; [|by apply H2].
      eapply Qcle_trans; [apply qmax_ge_r | exact H1].
    + destruct H3 as [H3|H3]; [|right; by right].
      rewrite H3. unfold qmax. destruct (decide (a ≤ y)); [right; left | by left].
Qed.

(** The minimum of a series is a lower bound that is attained. *)
Lemma min_spec (s : Series.t) :
  (∀ x, x ∈ s → min s ≤ x) ∧ (s ≠ [] → min s ∈ s).
Proof.
  destruct s as [|a l]; [split; [intros x Hx; by apply elem_of_nil in Hx | done]|].
  cbn [min]. destruct (foldl_qmin_le a l) as (H1 & H2 & H3). split.
  - intros x Hx. apply elem_of_cons in Hx as [->|Hx]; [done | by apply H2].
  - intros _. destruct H3 as [->|H3]; [left | by right].
Qed.

Lemma max_spec (s : Series.t) :
  (∀ x, x ∈ s → x ≤ max s) ∧ (s ≠ [] → max s ∈ s).
Proof.
  destruct s as [|a l]; [split; [intros x Hx; by apply elem_of_nil in Hx | done]|].
  cbn [max]. destruct (foldl_qmax_ge a l) as (H1 & H2 & H3). split.
  - intros x Hx. apply elem_of_cons in Hx as [->|Hx]; [done | by apply H2].
  - intros _. destruct H3 as [->|H3]; [left | by right].
Qed.

Lemma length_adjusted adj c : length (adjusted adj c) = length c.
Proof. unfold adjusted. repeat case_decide; by rewrite ?length_sub_scalar. Qed.

(** The loop over the groups: which columns it produces, and that the
    running total is their sum. *)
Lemma group_loop_inv (coefficients : list (string * Qc)) (data : DataFrame)
    (groups : list (string * GroupInfo)) (group_name : string) :
  wf data → NoDup (keys groups) →
  let st := foldl (group_variable_step coefficients data group_name)
                  ([], const (nrows data) 0) groups in
  (∀ v, get v st.1 = group_variable coefficients data groups group_name v) ∧
  NoDup (keys st.1) ∧ all_length (nrows data) st.1 ∧ length st.2 = nrows data ∧
  (∀ t, (t < nrows data)%nat → iloc st.2 t = sum_at st.1 t).
Proof.
  intros Hwf. induction groups as [|[var g] l IH] using rev_ind; intros Hnd st; subst st.
  - cbn [foldl fst snd].
    split_and!; [done | constructor | constructor | apply length_const |].
    intros t Ht. by rewrite iloc_const.
  - rewrite foldl_app. cbn [foldl].
    unfold keys in Hnd. rewrite fmap_app in Hnd. apply NoDup_app in Hnd as (Hndl & Hfresh & _).
    assert (Hvar : get var l = None).
    { apply get_None_keys. intros Hin. apply (Hfresh var Hin). csimpl. left. }
    destruct (IH Hndl) as (Hget & Hndk & Hlen & Htot & Hsum). clear IH.
    set (st := foldl (group_variable_step coefficients data group_name)
                     ([], const (nrows data) 0) l) in *.
    assert (Hgv : ∀ v, group_variable coefficients data (l ++ [(var, g)]) group_name v
                       = if decide (var = v) then
                           if decide (Group g = group_name) then
                             match get v coefficients, values_of data v with
                             | Some coef, Some values =>
                                 Some (adjusted (adjustment_of g) (scale coef values))
                             | _, _ => None
                             end
                           else None
                         else group_variable coefficients data l group_name v).
    { intros v. unfold group_variable. rewrite get_app. cbn [get].
      destruct (decide (var = v)) as [<-|Hne]; [by rewrite Hvar|].
      by destruct (get v l). }
    unfold group_variable_step. cbn [fst snd].
    destruct (decide (Group g = group_name)) as [Hg|Hg]; cycle 1.
    { split_and!; try done. intros v. rewrite Hgv, Hget.
      destruct (decide (var = v)) as [<-|]; [|done].
      unfold group_variable. by rewrite Hvar. }
    destruct (get var coefficients) as [coef|] eqn:Hcoef; cycle 1.
    { split_and!; try done. intros v. rewrite Hgv, Hget.
      destruct (decide (var = v)) as [<-|]; [|done].
      rewrite Hcoef. unfold group_variable. by rewrite Hvar. }
    destruct (values_of data var) as [values|] eqn:Hvals; cycle 1.
    { split_and!; try done. intros v. rewrite Hgv, Hget.
      destruct (decide (var = v)) as [<-|]; [|done].
      rewrite Hcoef, Hvals. unfold group_variable. by rewrite Hvar. }
    assert (Hla : length (adjusted (adjustment_of g) (scale coef values)) = nrows data).
    { rewrite length_adjusted, length_scale. by apply (values_of_length data var). }
    assert (Hnone : get var st.1 = None).
    { rewrite Hget. unfold group_variable. by rewrite Hvar. }
    cbn [fst snd]. split_and!.
    + intros v. rewrite Hgv, get_set. destruct (decide (var = v)) as [<-|Hne].
      * by rewrite Hcoef, Hvals.
      * apply Hget.
    + by apply NoDup_keys_set.
    + by apply Forall_set.
    + rewrite length_add; [done | by rewrite Hla].
    + intros t Ht. rewrite iloc_add by lia. rewrite sum_at_set.
      rewrite value_at_absent by done. rewrite Hsum by done. ring.
Qed.

(** The table returned for a model without weighted variables: the
    target, the columns of the group's variables, the total. *)
Lemma group_decomposition_columns m groups group_name res data :
  results m = Some res → model_data m = Some data → wf data →
  (∃ k, kpi m = Some k ∧ is_Some (get k (columns data))) →
  NoDup (keys groups) → wgtd_variables m = None →
  (∀ v g, get v groups = Some g → Group g = group_name → v ≠ "Actual" ∧ v ≠ "Total") →
  ∃ out actual gv total,
    calculate_group_decomposition m groups group_name = Ok out ∧
    columns out = [("Actual", actual)] ++ gv ++ [("Total", total)] ∧
    (∀ v, get v gv = group_variable (params res) data groups group_name v) ∧
    get "Actual" gv = None ∧ get "Total" gv = None ∧
    all_length (nrows data) gv ∧ NoDup (keys gv) ∧
    (∀ t, (t < nrows data)%nat → iloc total t = sum_at gv t).
Proof.
  intros Hres Hdata Hwf (k & Hk & [actual Hact]) Hnd Hw Hnames.
  unfold calculate_group_decomposition. rewrite Hres, Hdata, Hk, Hw. unfold column.
  rewrite Hact.
  destruct (group_loop_inv (params res) data groups group_name Hwf Hnd)
    as (Hget & Hndk & Hlen & Htot & Hsum).
  set (st := foldl (group_variable_step (params res) data group_name)
                   ([], const (nrows data) 0) groups) in *.
  assert (Hfree : ∀ v, v = "Actual" ∨ v = "Total" → get v st.1 = None).
  { intros v Hv. rewrite Hget. unfold group_variable.
    destruct (get v groups) as [g|] eqn:Hg; [|done].
    destruct (decide (Group g = group_name)) as [Hgn|]; [|done].
    destruct (Hnames v g Hg Hgn) as [? ?]. destruct Hv; done. }
  assert (Hcols : columns (foldl (λ df c, assign c.1 c.2 df)
                             (assign "Actual" actual (Frame.empty (nrows data))) st.1)
                  = [("Actual", actual)] ++ st.1).
  { apply (foldl_assign_columns (nrows data) [("Actual", actual)]); [done|].
    intros v Hv. unfold keys. csimpl. intros Hin. apply list_elem_of_singleton in Hin as ->.
    apply get_is_Some_keys in Hv. rewrite Hfree in Hv by (by left). by destruct Hv. }
  eexists _, actual, st.1, st.2. split; [reflexivity|].
  split_and!; try done.
  - cbn [columns assign]. rewrite Hcols. rewrite set_absent.
    + by rewrite <- app_assoc.
    + cbn [app get]. rewrite decide_False by done. apply Hfree. by right.
  - apply Hfree. by left.
  - apply Hfree. by right.
Qed.

(** X21.  The decomposition of one group, for a model without weighted
    variables: the table holds a column for every variable of the group
    that has a coefficient and data (its contribution, adjusted by its
    Min or Max when the group settings say so), and at every timestamp
    these columns sum to the ["Total"] column. *)
Theorem group_decomposition_total
    (m : LinearModel) (groups : list (string * GroupInfo)) (group_name : string)
    (res : RegressionResults) (data : DataFrame) :
  results m = Some res → model_data m = Some data → wf data →
  (∃ k, kpi m = Some k ∧ is_Some (get k (columns data))) →
  NoDup (keys groups) → wgtd_variables m = None →
  (∀ v g, get v groups = Some g → Group g = group_name → v ≠ "Actual" ∧ v ≠ "Total") →
  ∃ out, calculate_group_decomposition m groups group_name = Ok out ∧
         (∀ v, v ≠ "Actual" → v ≠ "Total" →
               get v (columns out) = group_variable (params res) data groups group_name v) ∧
         ∀ t, (t < nrows data)%nat →
              sum_at (variable_columns out) t = value_at (columns out) "Total" t.
Proof.
  intros Hres Hdata Hwf Hkpi Hnd Hw Hnames.
  destruct (group_decomposition_columns m groups group_name res data)
    as (out & actual & gv & total & Hout & Hcols & Hget & Ha & Ht & Hlen & Hndk & Hsum);
    try done.
  exists out. split; [done|]. split.
  - intros v Hva Hvt. rewrite Hcols, !get_app. cbn [get].
    rewrite decide_False by done. rewrite Hget.
    destruct (group_variable _ _ _ _ v); [done|]. by rewrite decide_False.
  - intros t Htn. unfold variable_columns, value_at. rewrite Hcols.
    rewrite !get_app. cbn [get]. rewrite decide_False by done. rewrite Ht.
    rewrite decide_True by done. cbn [default from_option id].
    rewrite Hsum by done. f_equal.
    rewrite !filter_app. cbn [filter list_filter fst].
    rewrite (decide_False (P := "Actual" ≠ "Actual" ∧ "Actual" ≠ "Total"))
      by (intros [? ?]; done).
    rewrite (decide_False (P := "Total" ≠ "Actual" ∧ "Total" ≠ "Total"))
      by (intros [? ?]; done).
    rewrite app_nil_r. cbn [app].
    apply filter_all. apply Forall_forall. intros [v s] Hin. cbn [fst].
    assert (Hv : is_Some (get v gv)).
    { apply get_is_Some_keys. apply list_elem_of_fmap. by exists (v, s). }
    split; intros ->; [rewrite Ha in Hv | rewrite Ht in Hv]; by destruct Hv.
Qed.

Lemma group_decomposition_total_witness :
  let m := add_feature ExactOLS.exact_ols "Radio" None Fixtures.m_tv in
  let res := default (mkResults [] 0 []) (results m) in
  let groups := [("const", mkGroup "Base" (Some "")); ("TV", mkGroup "Media" (Some "Min"));
                 ("Radio", mkGroup "Media" None)] in
  ∃ out, calculate_group_decomposition m groups "Media" = Ok out ∧
         (∀ v, v ≠ "Actual" → v ≠ "Total" →
               get v (columns out) = group_variable (params res) Fixtures.df groups "Media" v) ∧
         ∀ t, (t < nrows Fixtures.df)%nat →
              sum_at (variable_columns out) t = value_at (columns out) "Total" t.
Proof.
  apply (group_decomposition_total
           (add_feature ExactOLS.exact_ols "Radio" None Fixtures.m_tv)
           [("const", mkGroup "Base" (Some "")); ("TV", mkGroup "Media" (Some "Min"));
            ("Radio", mkGroup "Media" None)]
           "Media"
           (default (mkResults [] 0 [])
                    (results (add_feature ExactOLS.exact_ols "Radio" None Fixtures.m_tv)))
           Fixtures.df).
  - vm_compute; reflexivity.
  - vm_compute; reflexivity.
  - by_compute.
  - exists "Sales". split; [reflexivity | by_compute].
  - by_compute.
  - reflexivity.
  - intros v g Hget Hg. cbn [get] in Hget.
    repeat (case_decide; [simplify_eq; split; by_compute|]). done.
Defined.

Lemma sub_scalar_min_nonneg (c : Series.t) :
  Forall (λ x, 0 ≤ x) (sub_scalar c (min c)) ∧ (c ≠ [] → 0 ∈ sub_scalar c (min c)).
Proof.
  destruct (min_spec c) as [Hle Hin]. unfold sub_scalar. split.
  - apply Forall_fmap, Forall_forall. intros x Hx. simpl.
    unfold Qcminus. apply (proj1 (Qcle_minus_iff (min c) x)). by apply Hle.
  - intros Hne. apply list_elem_of_fmap. exists (min c). split; [ring | by apply Hin].
Qed.

Lemma sub_scalar_max_nonpos (c : Series.t) :
  Forall (λ x, x ≤ 0) (sub_scalar c (max c)) ∧ (c ≠ [] → 0 ∈ sub_scalar c (max c)).
Proof.
  destruct (max_spec c) as [Hle Hin]. unfold sub_scalar. split.
  - apply Forall_fmap, Forall_forall. intros x Hx. simpl.
    apply (proj2 (Qcle_minus_iff (x - max c) 0)).
    replace (0 + - (x - max c)) with (max c + - x) by ring.
    apply (proj1 (Qcle_minus_iff x (max c))). by apply Hle.
  - intros Hne. apply list_elem_of_fmap. exists (max c). split; [ring | by apply Hin].
Qed.

(** Writing a dictionary into a frame, entry by entry: its entries
    win over the columns that the frame had. *)
Lemma get_foldl_assign (l : list (string * Series.t)) :
  NoDup (keys l) → ∀ df v,
  get v (columns (foldl (λ df c, assign c.1 c.2 df) df l)) =
  match get v l with Some s => Some s | None => get v (columns df) end.
Proof.
  unfold keys. induction l as [|[k s] l IH]; intros Hnd df v; cbn [foldl]; [done|].
  csimpl in Hnd. apply NoDup_cons in Hnd as [Hk Hnd].
  rewrite (IH Hnd). cbn [fst snd get columns assign]. rewrite get_set.
  destruct (decide (k = v)) as [<-|Hne]; [|done].
  by rewrite (proj2 (get_None_keys l k) Hk).
Qed.

(** The loop over the weighted variables writes the columns of their
    components only. *)
Lemma group_weighted_step_get coefficients data groups group_name gv item v :
  v ∉ keys (default [] (components item.2)) →
  get v (group_weighted_step coefficients data groups group_name gv item) = get v gv.
Proof.
  intros Hv. unfold group_weighted_step.
  destruct (get item.1 coefficients) as [wgtd_coef|]; [|done].
  destruct (get item.1 groups) as [g|]; [|done].
  destruct (decide (Group g = group_name)); [|done].
  destruct (get item.1 (columns data)) as [wgtd_values|]; [|done].
  revert Hv. generalize (total_weight (default [] (components item.2))).
  generalize (default [] (components item.2)). intros comps tw. revert gv.
  unfold keys. induction comps as [|c comps IH]; intros gv Hv; cbn [foldl]; [done|].
  csimpl in Hv. apply not_elem_of_cons in Hv as [Hc Hv]. rewrite (IH _ Hv).
  destruct (decide (tw ≠ 0)); [|done]. by rewrite get_set_ne.
Qed.

Lemma group_weighted_step_NoDup coefficients data groups group_name gv item :
  NoDup (keys gv) →
  NoDup (keys (group_weighted_step coefficients data groups group_name gv item)).
Proof.
  intros Hnd. unfold group_weighted_step.
  destruct (get item.1 coefficients) as [wgtd_coef|]; [|done].
  destruct (get item.1 groups) as [g|]; [|done].
  destruct (decide (Group g = group_name)); [|done].
  destruct (get item.1 (columns data)) as [wgtd_values|]; [|done].
  generalize (total_weight (default [] (components item.2))).
  generalize (default [] (components item.2)). intros comps tw. revert gv Hnd.
  induction comps as [|c comps IH]; intros gv Hnd; cbn [foldl]; [done|].
  apply IH. destruct (decide (tw ≠ 0)); [by apply NoDup_keys_set | done].
Qed.

Lemma group_weighted_loop coefficients data groups group_name ws gv v :
  NoDup (keys gv) →
  Forall (λ w : string * WgtdInfo, v ∉ keys (default [] (components w.2))) ws →
  let gv' := foldl (group_weighted_step coefficients data groups group_name) gv ws in
  NoDup (keys gv') ∧ get v gv' = get v gv.
Proof.
  intros Hnd Hws. revert gv Hnd.
  induction Hws as [|w ws Hw Hws IH]; intros gv Hnd; cbn [foldl]; [done|].
  destruct (IH (group_weighted_step coefficients data groups group_name gv w))
    as [Hnd' Hget]; [by apply group_weighted_step_NoDup|].
  split; [done|]. by rewrite Hget, group_weighted_step_get.
Qed.

(** X22.  In the decomposition of a group, take a variable of the
    group, not named ["Total"], that has a coefficient and data and is
    no component of a weighted variable of the model (the components'
    columns are written afterwards, over a column of the same name).
    Its column, with the adjustment Min, is nowhere negative and is 0
    at some row; with the adjustment Max it is nowhere positive and is
    0 at some row; with any other adjustment it is coefficient times
    values. *)
Theorem adjusted_columns_are_signed
    (m : LinearModel) (groups : list (string * GroupInfo)) (group_name : string)
    (res : RegressionResults) (data : DataFrame)
    (v : string) (g : GroupInfo) (coef : Qc) (values : Series.t) :
  results m = Some res → model_data m = Some data → wf data →
  (∃ k, kpi m = Some k ∧ is_Some (get k (columns data))) →
  NoDup (keys groups) →
  Forall (λ w : string * WgtdInfo, v ∉ keys (default [] (components w.2)))
         (default [] (wgtd_variables m)) →
  v ≠ "Total" →
  get v groups = Some g → Group g = group_name →
  get v (params res) = Some coef → values_of data v = Some values →
  ∃ out column,
    calculate_group_decomposition m groups group_name = Ok out ∧
    get v (columns out) = Some column ∧ length column = nrows data ∧
    (adjustment_of g = "Min" →
     Forall (λ x, 0 ≤ x) column ∧ (nrows data ≠ 0%nat → 0 ∈ column)) ∧
    (adjustment_of g = "Max" →
     Forall (λ x, x ≤ 0) column ∧ (nrows data ≠ 0%nat → 0 ∈ column)) ∧
    (adjustment_of g ≠ "Min" → adjustment_of g ≠ "Max" → column = scale coef values).
Proof.
  intros Hres Hdata Hwf (k & Hk & [actual Hact]) Hnd Hw Hvt Hv Hg Hcoef Hvals.
  unfold calculate_group_decomposition. rewrite Hres, Hdata, Hk. unfold column.
  rewrite Hact.
  destruct (group_loop_inv (params res) data groups group_name Hwf Hnd)
    as (Hget & Hndk & _).
  set (st := foldl (group_variable_step (params res) data group_name)
                   ([], const (nrows data) 0) groups) in *.
  set (gv := match wgtd_variables m with
             | Some ws => foldl (group_weighted_step (params res) data groups group_name) st.1 ws
             | None => st.1
             end).
  assert (Hgv : NoDup (keys gv) ∧ get v gv = get v st.1).
  { subst gv. destruct (wgtd_variables m) as [ws|]; [|done].
    by apply group_weighted_loop. }
  destruct Hgv as [Hndgv Hgetgv].
  assert (Hcol : get v (columns (assign "Total" st.2
                   (foldl (λ df c, assign c.1 c.2 df)
                          (assign "Actual" actual (Frame.empty (nrows data))) gv)))
                 = Some (adjusted (adjustment_of g) (scale coef values))).
  { cbn [columns assign]. rewrite get_set_ne by done.
    change (mkFrame (nrows (Frame.empty (nrows data)))
                    (set "Actual" actual (columns (Frame.empty (nrows data)))))
      with (assign "Actual" actual (Frame.empty (nrows data))).
    rewrite (get_foldl_assign gv Hndgv), Hgetgv, Hget. unfold group_variable.
    by rewrite Hv, decide_True, Hcoef, Hvals. }
  assert (Hlen : length (scale coef values) = nrows data).
  { rewrite length_scale. by apply (values_of_length data v). }
  assert (Hne : nrows data ≠ 0%nat → scale coef values ≠ []).
  { intros Hn Heq. rewrite Heq in Hlen. simpl in Hlen. congruence. }
  eexists _, _. split; [reflexivity|]. split; [exact Hcol|].
  split; [by rewrite length_adjusted|]. unfold adjusted. split_and!.
  - intros ->. rewrite decide_True by done.
    destruct (sub_scalar_min_nonneg (scale coef values)) as [H1 H2]. split; [done|].
    intros Hn. by apply H2, Hne.
  - intros ->. rewrite decide_False by done. rewrite decide_True by done.
    destruct (sub_scalar_max_nonpos (scale coef values)) as [H1 H2]. split; [done|].
    intros Hn. by apply H2, Hne.
  - intros Hmin Hmax. by rewrite !decide_False by done.
Qed.

(** The theorem on the model fitted on the composite [2 TV + Radio],
    for the composite's own column with the adjustment Max. *)
Lemma adjusted_columns_are_signed_witness :
  let m := Fixtures.m_wgtd_pos in
  let g := mkGroup "Media" (Some "Max") in
  let res := default (mkResults [] 0 []) (results m) in
  let coef := default 0 (get "Mix|WGTD" (params res)) in
  let data := default (Frame.empty 0) (model_data m) in
  let values := default [] (values_of data "Mix|WGTD") in
  wgtd_variables m ≠ None ∧
  ∃ out column,
    calculate_group_decomposition m Fixtures.groups_wgtd_pos "Media" = Ok out ∧
    get "Mix|WGTD" (columns out) = Some column ∧ length column = nrows data ∧
    (adjustment_of g = "Min" →
     Forall (λ x, 0 ≤ x) column ∧ (nrows data ≠ 0%nat → 0 ∈ column)) ∧
    (adjustment_of g = "Max" →
     Forall (λ x, x ≤ 0) column ∧ (nrows data ≠ 0%nat → 0 ∈ column)) ∧
    (adjustment_of g ≠ "Min" → adjustment_of g ≠ "Max" → column = scale coef values).
Proof.
  split; [by_compute|].
  apply (adjusted_columns_are_signed Fixtures.m_wgtd_pos Fixtures.groups_wgtd_pos "Media"
           (default (mkResults [] 0 []) (results Fixtures.m_wgtd_pos))
           (default (Frame.empty 0) (model_data Fixtures.m_wgtd_pos))
           "Mix|WGTD" (mkGroup "Media" (Some "Max"))).
  - vm_compute; reflexivity.
  - vm_compute; reflexivity.
  - by_compute.
  - exists "Sales". split; [reflexivity | by_compute].
  - by_compute.
  - by_compute.
  - by_compute.
  - reflexivity.
  - reflexivity.
  - by_compute.
  - vm_compute; reflexivity.
Defined.

(** X23.  The ["Total"] column of the decomposition of a group does
    not depend on the weighted variables of the model: their expansion
    adds columns for the components and leaves the total as it is. *)
Theorem group_total_ignores_weighted_variables
    (m : LinearModel) (groups : list (string * GroupInfo)) (group_name : string)
    (out : DataFrame) :
  calculate_group_decomposition m groups group_name = Ok out →
  ∃ out0 total,
    calculate_group_decomposition (set_wgtd_variables None m) groups group_name = Ok out0 ∧
    get "Total" (columns out) = Some total ∧ get "Total" (columns out0) = Some total ∧
    nrows out0 = nrows out.
Proof.
  unfold calculate_group_decomposition.
  cbn [results model_data kpi wgtd_variables set_wgtd_variables].
  destruct (results m) as [res|]; [|done].
  destruct (model_data m) as [data|]; [|done].
  destruct (kpi m) as [k|]; [|done].
  destruct (column data k) as [actual|]; [|done].
  intros [= <-]. eexists _, _. split; [reflexivity|].
  cbn [columns assign nrows]. rewrite !get_set_eq. split_and!; try done.
  set (f := λ (df : DataFrame) (c : string * Series.t), assign c.1 c.2 df).
  assert (Hn : ∀ l df, nrows (foldl f df l) = nrows df).
  { induction l as [|c l IH]; intros df; cbn [foldl]; [done|]. by rewrite IH. }
  by rewrite !Hn.
Qed.

(** The theorem on the model fitted on the composite [2 TV + Radio];
    there the columns of the group count the composite twice. *)
Lemma group_total_ignores_weighted_variables_witness :
  let out := default (Frame.empty 0)
               (match calculate_group_decomposition Fixtures.m_wgtd_pos
                        Fixtures.groups_wgtd_pos "Media" with
                | Ok out => Some out
                | Raise _ => None
                end) in
  (∃ out0 total,
     calculate_group_decomposition (set_wgtd_variables None Fixtures.m_wgtd_pos)
       Fixtures.groups_wgtd_pos "Media" = Ok out0 ∧
     get "Total" (columns out) = Some total ∧ get "Total" (columns out0) = Some total ∧
     nrows out0 = nrows out) ∧
  keys (columns out) = ["Actual"; "Mix|WGTD"; "TV"; "Radio"; "Total"] ∧
  sum_at (variable_columns out) 0 ≠ value_at (columns out) "Total" 0.
Proof.
  split; [|split; by_compute].
  apply (group_total_ignores_weighted_variables Fixtures.m_wgtd_pos
           Fixtures.groups_wgtd_pos "Media").
  vm_compute; reflexivity.
Defined.

End GroupDecompositionSpec.

(** * Expansion of weighted variables in a table of contributions *)

Module WeightedTableSpec.

Import Series SeriesFacts PyDict PyDictFacts Frame Py Stats LinearModels Decomposition.
Import SumFacts ExpansionSpec GroupDecomposition.

(** One component receives its share. *)
Lemma expand_column_sum (wc : Series.t) (tw : Qc) (df : DataFrame) (item : string * Qc) t :
  wf df → length wc = nrows df → tw ≠ 0 → (t < nrows df)%nat →
  let df' := expand_column wc tw df item in
  wf df' ∧ nrows df' = nrows df ∧
  (∀ k, k ≠ item.1 → get k (columns df') = get k (columns df)) ∧
  sum_at (columns df') t = sum_at (columns df) t + iloc wc t * (item.2 / tw).
Proof.
  intros Hwf Hwc Htw Ht df'. subst df'. unfold expand_column.
  rewrite decide_True by done.
  destruct (get item.1 (columns df)) as [s|] eqn:Hget; cbn [assign nrows columns].
  - pose proof (Forall_get _ _ _ _ Hwf Hget) as Hs. cbn [snd] in Hs. split_and!.
    + apply Forall_set; [done|]. cbn [snd nrows].
      rewrite length_add; [done|]. by rewrite length_mul_scalar, Hs, Hwc.
    + done.
    + intros k Hk. apply get_set_ne. congruence.
    + rewrite sum_at_set. unfold value_at. rewrite Hget. cbn [default from_option id].
      rewrite iloc_add by (rewrite ?length_mul_scalar; lia).
      rewrite iloc_mul_scalar. ring.
  - split_and!.
    + apply Forall_set; [done|]. cbn [snd nrows]. by rewrite length_mul_scalar.
    + done.
    + intros k Hk. apply get_set_ne. congruence.
    + rewrite sum_at_set, value_at_absent by done. rewrite iloc_mul_scalar. ring.
Qed.

Lemma expand_columns_sum (wc : Series.t) (tw : Qc) (comps : list (string * Qc)) df t :
  wf df → length wc = nrows df → tw ≠ 0 → (t < nrows df)%nat →
  let df' := foldl (expand_column wc tw) df comps in
  wf df' ∧ nrows df' = nrows df ∧
  (∀ k, k ∉ keys comps → get k (columns df') = get k (columns df)) ∧
  sum_at (columns df') t = sum_at (columns df) t + iloc wc t * (qsum (λ c, c.2) comps / tw).
Proof.
  revert df. induction comps as [|c comps IH]; intros df Hwf Hwc Htw Ht df'; subst df'.
  - cbn [foldl]. split_and!; try done. simpl. unfold Qcdiv. ring.
  - cbn [foldl].
    destruct (expand_column_sum wc tw df c t) as (Hwf1 & Hn1 & Hk1 & Hs1); try done.
    destruct (IH (expand_column wc tw df c)) as (Hwf2 & Hn2 & Hk2 & Hs2); try done;
      try congruence; try lia.
    split_and!; try congruence.
    + intros k Hk. unfold keys in Hk. csimpl in Hk. apply not_elem_of_cons in Hk as [Hne Hk].
      rewrite Hk2 by done. by apply Hk1.
    + rewrite Hs2, Hs1. simpl. unfold Qcdiv. ring.
Qed.

(** With a zero total weight no component receives anything. *)
Lemma expand_columns_zero (wc : Series.t) (comps : list (string * Qc)) df :
  foldl (expand_column wc 0) df comps = df.
Proof.
  revert df. induction comps as [|c comps IH]; intros df; cbn [foldl]; [done|].
  unfold expand_column at 2. rewrite decide_False by (intros H; by apply H). apply IH.
Qed.

(** One weighted variable of non-negative weights. *)
Lemma expand_variable_sum df (item : string * WgtdInfo) t :
  wf df → (t < nrows df)%nat →
  Forall (λ c : string * Qc, 0 ≤ c.2) (default [] (components item.2)) →
  item.1 ∉ keys (default [] (components item.2)) →
  default [] (components item.2) = [] ∨ total_weight (default [] (components item.2)) ≠ 0 →
  let df' := expand_variable df item in
  wf df' ∧ nrows df' = nrows df ∧ sum_at (columns df') t = sum_at (columns df) t.
Proof.
  intros Hwf Ht Hpos Hself Htw df'. subst df'. unfold expand_variable.
  destruct (get item.1 (columns df)) as [wc|] eqn:Hget; [|done].
  destruct (default [] (components item.2)) as [|c0 cs] eqn:Hcomps; [done|].
  rewrite <- Hcomps in *. set (comps := default [] (components item.2)) in *.
  destruct Htw as [Htw|Htw]; [by rewrite Hcomps in Htw|].
  pose proof (Forall_get _ _ _ _ Hwf Hget) as Hwc. cbn [snd] in Hwc.
  destruct (expand_columns_sum wc (total_weight comps) comps df t)
    as (Hwf1 & Hn1 & Hk1 & Hs1); try done.
  unfold drop. cbn [nrows columns]. split_and!.
  - unfold wf. cbn [nrows columns]. by apply Forall_del.
  - done.
  - rewrite sum_at_del, Hs1. unfold value_at. rewrite Hk1, Hget by done.
    cbn [default from_option id]. rewrite <- (total_weight_nonneg comps Hpos). field. done.
Qed.

Lemma expand_columns_wf (wc : Series.t) (tw : Qc) (comps : list (string * Qc)) df :
  wf df → length wc = nrows df →
  wf (foldl (expand_column wc tw) df comps) ∧
  nrows (foldl (expand_column wc tw) df comps) = nrows df.
Proof.
  revert df. induction comps as [|c comps IH]; intros df Hwf Hwc; cbn [foldl]; [done|].
  assert (Hstep : wf (expand_column wc tw df c) ∧ nrows (expand_column wc tw df c) = nrows df).
  { unfold expand_column. destruct (decide (tw ≠ 0)); [|done].
    destruct (get c.1 (columns df)) as [s|] eqn:Hs; (split; [|done]).
    - apply Forall_set; [done|]. cbn [snd nrows assign].
      pose proof (Forall_get _ _ _ _ Hwf Hs) as Hls. cbn [snd] in Hls.
      rewrite length_add; [done|]. rewrite length_mul_scalar. congruence.
    - apply Forall_set; [done|]. cbn [snd nrows assign]. by rewrite length_mul_scalar. }
  destruct Hstep as [Hwf1 Hn1].
  destruct (IH (expand_column wc tw df c) Hwf1) as [Hwf2 Hn2]; [congruence|].
  split; congruence.
Qed.

Lemma expand_variable_wf df (item : string * WgtdInfo) :
  wf df → wf (expand_variable df item) ∧ nrows (expand_variable df item) = nrows df.
Proof.
  intros Hwf. unfold expand_variable.
  destruct (get item.1 (columns df)) as [wc|] eqn:Hget; [|done].
  destruct (default [] (components item.2)) as [|c0 cs]; [done|].
  pose proof (Forall_get _ _ _ _ Hwf Hget) as Hwc. cbn [snd] in Hwc.
  destruct (expand_columns_wf wc (total_weight (c0 :: cs)) (c0 :: cs) df Hwf Hwc)
    as [Hwf1 Hn1].
  unfold drop, wf. cbn [nrows columns]. split; [|done]. by apply Forall_del.
Qed.

(** X24.  [expand_weighted_variable_contributions] keeps the row sums
    of a table of contributions: at every timestamp the columns of the
    expanded table sum to what the columns of the given table sum to,
    when no component coefficient is negative, no weighted variable
    counts itself among its components, and no weighted variable has
    components of total weight 0.  The numbers of rows and the lengths
    of the columns are kept. *)
Theorem expansion_keeps_row_sums (m : LinearModel) (contributions_df : DataFrame) :
  wf contributions_df →
  Forall (λ w : string * WgtdInfo,
            Forall (λ c : string * Qc, 0 ≤ c.2) (default [] (components w.2)) ∧
            (w.1 ∉ keys (default [] (components w.2))) ∧
            (default [] (components w.2) = [] ∨
             total_weight (default [] (components w.2)) ≠ 0))
         (default [] (wgtd_variables m)) →
  let out := expand_weighted_variable_contributions m contributions_df in
  wf out ∧ nrows out = nrows contributions_df ∧
  ∀ t, (t < nrows contributions_df)%nat →
       sum_at (columns out) t = sum_at (columns contributions_df) t.
Proof.
  intros Hwf Hall out. subst out. unfold expand_weighted_variable_contributions.
  destruct (wgtd_variables m) as [ws|]; [|done].
  cbn [default from_option id] in Hall.
  assert (Hgen : ∀ df, wf df →
            wf (foldl expand_variable df ws) ∧ nrows (foldl expand_variable df ws) = nrows df ∧
            ∀ t, (t < nrows df)%nat →
                 sum_at (columns (foldl expand_variable df ws)) t = sum_at (columns df) t).
  { induction Hall as [|w ws (Hpos & Hself & Htw) Hall IH]; intros df Hdf; cbn [foldl]; [done|].
    pose proof (expand_variable_wf df w Hdf) as Hstep.
    destruct Hstep as [Hwf1 Hn1].
    destruct (IH (expand_variable df w) Hwf1) as (Hwf2 & Hn2 & Hs2).
    split_and!; try congruence.
    intros t Ht. rewrite Hs2 by lia.
    by destruct (expand_variable_sum df w t) as (_ & _ & ->). }
  destruct ws as [|w ws]; [done|]. by apply Hgen.
Qed.

Lemma expansion_keeps_row_sums_witness :
  let m := Fixtures.m_wgtd_pos in
  let df := mkFrame 3 [("const", [qz 1; qz 1; qz 1]); ("Mix|WGTD", [qz 3; qz 6; qz 9]);
                       ("TV", [qz 1; qz 0; qz 2])] in
  let out := expand_weighted_variable_contributions m df in
  wf out ∧ nrows out = nrows df ∧
  ∀ t, (t < nrows df)%nat → sum_at (columns out) t = sum_at (columns df) t.
Proof.
  apply (expansion_keeps_row_sums Fixtures.m_wgtd_pos
           (mkFrame 3 [("const", [qz 1; qz 1; qz 1]); ("Mix|WGTD", [qz 3; qz 6; qz 9]);
                       ("TV", [qz 1; qz 0; qz 2])])).
  - repeat constructor.
  - by_compute.
Defined.

(** X25.  A weighted variable whose components have total weight 0:
    [expand_weighted_variable_contributions] removes its column and
    gives nothing to the components, so the row sums lose its
    contribution, whereas the expansion inside [calculate_decomposition]
    leaves such a variable as it is. *)
Theorem zero_weight_composite_is_dropped
    (df : DataFrame) (groups : list (string * GroupInfo))
    (w : string) (info : WgtdInfo) (wc : Series.t) :
  get w (columns df) = Some wc →
  default [] (components info) ≠ [] →
  total_weight (default [] (components info)) = 0 →
  expand_variable df (w, info) = drop w df ∧
  (∀ t, sum_at (columns (expand_variable df (w, info))) t
        = sum_at (columns df) t - iloc wc t) ∧
  expand_weighted (columns df, groups) (w, info) = (columns df, groups).
Proof.
  intros Hget Hne Htw.
  assert (Hexp : expand_variable df (w, info) = drop w df).
  { unfold expand_variable. cbn [fst snd]. rewrite Hget.
    destruct (default [] (components info)) as [|c cs]; [done|].
    by rewrite Htw, expand_columns_zero. }
  split_and!.
  - exact Hexp.
  - intros t. rewrite Hexp. unfold drop. cbn [columns]. rewrite sum_at_del.
    unfold value_at. by rewrite Hget.
  - unfold expand_weighted. cbn [fst snd]. rewrite Hget, Htw.
    rewrite decide_False; [done|]. intros Hlt. by apply Qclt_not_eq in Hlt.
Qed.

Lemma zero_weight_composite_is_dropped_witness :
  let df := mkFrame 2 [("const", [qz 1; qz 1]); ("Nil|WGTD", [qz 3; qz 6])] in
  let info := mkWgtd "Nil" (Some [("TV", 0)]) in
  expand_variable df ("Nil|WGTD", info) = drop "Nil|WGTD" df ∧
  (∀ t, sum_at (columns (expand_variable df ("Nil|WGTD", info))) t
        = sum_at (columns df) t - iloc [qz 3; qz 6] t) ∧
  expand_weighted (columns df, []) ("Nil|WGTD", info) = (columns df, []).
Proof.
  apply (zero_weight_composite_is_dropped
           (mkFrame 2 [("const", [qz 1; qz 1]); ("Nil|WGTD", [qz 3; qz 6])]) []
           "Nil|WGTD" (mkWgtd "Nil" (Some [("TV", 0)])) [qz 3; qz 6]).
  - reflexivity.
  - done.
  - by_compute.
Defined.

End WeightedTableSpec.

(** * Adding a feature and removing it again *)

Module AddRemoveSpec.

Import Frame Py Stats LinearModels PyDict PyDictFacts LinearModelSpec ModelSetup.
Import FeatureListSpec.

(** The design reads the transformed data of the listed features only. *)
Lemma fill_features_ext_on m m' feats X :
  (∀ g, g ∈ feats → transformed_data m' !! g = transformed_data m !! g) →
  model_data m' = model_data m →
  fill_features m' feats X = fill_features m feats X.
Proof.
  intros Ht Hd. revert X. induction feats as [|f feats IH]; intros X; simpl; [done|].
  unfold feature_values. rewrite Ht, Hd by left.
  assert (IH' : ∀ X, fill_features m' feats X = fill_features m feats X).
  { apply IH. intros g Hg. apply Ht. by right. }
  destruct (transformed_data m !! f); [apply IH'|].
  destruct (model_data m); [|done]. destruct (column d f); [apply IH' | done].
Qed.

Lemma fit_current_features_ext_on fit m m' m1 :
  kpi m' = kpi m → model_data m' = model_data m → features m' = features m →
  (∀ g, g ∈ features m → transformed_data m' !! g = transformed_data m !! g) →
  run (fit_current_features fit) m = (Ok tt, m1) →
  ∃ m1', run (fit_current_features fit) m' = (Ok tt, m1') ∧
         results m1' = results m1 ∧ same_settings m' m1'.
Proof.
  intros Hk Hd Hf Ht. unfold fit_current_features, design. simpl.
  rewrite (target_ext m m' Hk Hd), Hf.
  destruct (target m) as [y|]; simpl; [|done].
  rewrite (fill_features_ext_on m m' _ _ Ht Hd).
  destruct (fill_features m (features m) (Frame.empty (length y))) as [X|]; simpl; [|done].
  destruct (fit _) as [r|]; simpl; [|done].
  intros [= <-]. eexists. split; [reflexivity|]. split; [done|]. by repeat split.
Qed.

#[local] Arguments _apply_transformation : simpl never.
#[local] Arguments fit_current_features : simpl never.
#[local] Arguments fit_and_store : simpl never.

(** When the [try] block of [add_feature] returns, only the candidate's
    entries of the two transform dictionaries may have changed. *)
Lemma add_feature_try_ok_settings fit f tr m m1 :
  run (add_feature_try fit f tr) m = (Ok tt, m1) →
  features m1 = features m ++ [f] ∧
  delete f (feature_transformations m1) = delete f (feature_transformations m) ∧
  delete f (transformed_data m1) = delete f (transformed_data m) ∧
  data m1 = data m ∧ model_data m1 = model_data m ∧ kpi m1 = kpi m ∧
  loader m1 = loader m ∧ fixed_coefficients m1 = fixed_coefficients m ∧
  wgtd_variables m1 = wgtd_variables m.
Proof.
  unfold add_feature_try. run_step.
  set (tr' := match tr with Some _ => _ | None => _ end). clearbody tr'.
  destruct (truthy tr'); run_step.
  - match goal with |- context [run (_apply_transformation ?a ?b) ?s] =>
      destruct (run (_apply_transformation a b) s) as [o s1] eqn:Happ end.
    apply _apply_transformation_effect in Happ. simpl in Happ.
    destruct Happ as (?&?&?&?&Hft&Htd&?&?&?&?).
    destruct o; run_step; [|intros [=]].
    match goal with |- context [run (fit_current_features fit) ?s] =>
      destruct (run (fit_current_features fit) s) as [o2 s2] eqn:Hfit end.
    destruct o2 as [[]|]; [intros [= <-] | intros [=]].
    apply fit_current_features_settings in Hfit.
    destruct Hfit as (?&?&?&?&Hft'&Htd'&?&?&?). simpl in *.
    split_and!; try congruence.
    rewrite Hft', Hft. apply delete_insert_eq.
  - match goal with |- context [run (fit_current_features fit) ?s] =>
      destruct (run (fit_current_features fit) s) as [o2 s2] eqn:Hfit end.
    destruct o2 as [[]|]; [intros [= <-] | intros [=]].
    apply fit_current_features_settings in Hfit.
    destruct Hfit as (?&?&?&?&?&?&?&?&?). simpl in *.
    split_and!; congruence.
Qed.

(** X26.  Adding a feature and removing it again: when the addition
    succeeds and the ordinary fit of the previous (non-empty) feature
    list succeeds, the model is back at that feature list with the
    results of that ordinary fit; the candidate has no entry left in
    the two transform dictionaries, the entries of the other names and
    the fixed coefficients are as before. *)
Theorem add_then_remove_restores
    (fit : fitter) (f : string) (tr : option string) (m : LinearModel)
    (df : DataFrame) (k : string) (m1 m_ols : LinearModel) :
  model_data m = Some df → kpi m = Some k →
  mem f (columns df) = true → f ≠ k → f ∉ features m → features m ≠ [] →
  run (add_feature_try fit f tr) m = (Ok tt, m1) →
  run (fit_current_features fit) m = (Ok tt, m_ols) →
  let m' := remove_feature fit f (add_feature fit f tr m) in
  features m' = features m ∧ results m' = results m_ols ∧
  feature_transformations m' = delete f (feature_transformations m) ∧
  transformed_data m' = delete f (transformed_data m) ∧
  fixed_coefficients m' = fixed_coefficients m ∧
  model_data m' = model_data m ∧ kpi m' = kpi m.
Proof.
  intros Hd Hk Hcol Hne Hfresh Hnonempty Hadd Hols m'. subst m'.
  assert (Hm1 : add_feature fit f tr m = m1).
  { unfold add_feature. rewrite Hd, Hk, Hcol. cbv [negb].
    rewrite (bool_decide_eq_false_2 _ Hne), (bool_decide_eq_false_2 _ Hfresh).
    by rewrite run_try_except, Hadd. }
  rewrite Hm1. apply add_feature_try_ok_settings in Hadd.
  destruct Hadd as (Hfeat & Hft & Htd & _ & Hmd1 & Hk1 & _ & Hfx1 & _).
  assert (Hin : f ∈ features m1).
  { rewrite Hfeat. apply elem_of_app. right. by apply list_elem_of_singleton. }
  unfold remove_feature. rewrite (bool_decide_eq_true_2 _ Hin).
  unfold remove_feature_try. run_step.
  cbn [features set_features set_feature_transformations set_transformed_data].
  rewrite Hfeat, (list_remove_app_fresh f (features m) Hfresh).
  rewrite (bool_decide_eq_false_2 _ Hnonempty).
  match goal with |- context [run (fit_current_features fit) ?s] => set (s0 := s) end.
  destruct (fit_current_features_ext_on fit m s0 m_ols) as (s1 & Hrun & Hres & Hs); try done.
  { intros g Hg. subst s0.
    cbn [transformed_data set_features set_feature_transformations set_transformed_data].
    rewrite Htd.
    apply lookup_delete_ne. intros ->. done. }
  rewrite Hrun. cbn [snd].
  destruct Hs as (_ & Hmd' & Hk' & Hf' & Hft' & Htd' & _ & Hfx' & _).
  subst s0. simpl in Hmd', Hk', Hf', Hft', Htd', Hfx'.
  split_and!; congruence.
Qed.

Lemma add_then_remove_restores_witness :
  let m := Fixtures.m_tv in
  let m' := remove_feature ExactOLS.exact_ols "Radio"
              (add_feature ExactOLS.exact_ols "Radio" (Some "SUB") m) in
  features m' = features m ∧ results m' = results m ∧
  feature_transformations m' = delete "Radio" (feature_transformations m) ∧
  transformed_data m' = delete "Radio" (transformed_data m) ∧
  fixed_coefficients m' = fixed_coefficients m ∧
  model_data m' = model_data m ∧ kpi m' = kpi m.
Proof.
  refine (add_then_remove_restores ExactOLS.exact_ols "Radio" (Some "SUB")
            Fixtures.m_tv Fixtures.df "Sales"
            (run (add_feature_try ExactOLS.exact_ols "Radio" (Some "SUB")) Fixtures.m_tv).2
            Fixtures.m_tv _ _ _ _ _ _ _ _).
  - reflexivity.
  - reflexivity.
  - vm_compute; reflexivity.
  - by_compute.
  - by_compute.
  - by_compute.
  - vm_compute; reflexivity.
  - by_compute.
Defined.

End AddRemoveSpec.

(** * The adstock transform as a linear filter *)

Module AdstockLinear.

Import Series SeriesFacts Adstock AdstockSpec AdstockMore SumFacts.

(** The recurrence has one solution. *)
Lemma is_adstock_unique (x y y' : Series.t) (rate : Qc) :
  is_adstock_of x rate y → is_adstock_of x rate y' → y = y'.
Proof.
  intros Hy Hy'. apply list_eq. intros i.
  destruct (decide (i < length x)%nat) as [Hi|Hi].
  - by apply (is_adstock_prefix x x y y' rate (length x) Hy Hy').
  - destruct Hy as (Hl & _), Hy' as (Hl' & _).
    rewrite !lookup_ge_None_2 by lia. done.
Qed.

Lemma is_adstock_scale (x y : Series.t) (rate c : Qc) :
  is_adstock_of x rate y → is_adstock_of (scale c x) rate (scale c y).
Proof.
  intros (Hl & H0 & Hrec). split_and!.
  - by rewrite !length_scale.
  - unfold scale. by rewrite !list_lookup_fmap, H0.
  - intros i Hi. rewrite length_scale in Hi.
    unfold scale at 1. rewrite list_lookup_fmap, (Hrec i Hi). simpl.
    rewrite !iloc_scale. f_equal. ring.
Qed.

Lemma is_adstock_add (x x' y y' : Series.t) (rate : Qc) :
  length x = length x' →
  is_adstock_of x rate y → is_adstock_of x' rate y' →
  is_adstock_of (add x x') rate (add y y').
Proof.
  intros Hlen (Hl & H0 & Hrec) (Hl' & H0' & Hrec').
  assert (Hla : length (add x x') = length x) by by apply length_add.
  split_and!.
  - rewrite Hla. rewrite length_add; lia.
  - unfold add. by rewrite !lookup_zip_with, H0, H0'.
  - intros i Hi. rewrite Hla in Hi.
    unfold add at 1. rewrite lookup_zip_with, (Hrec i Hi), (Hrec' i ltac:(lia)). simpl.
    rewrite !iloc_add by lia. f_equal. ring.
Qed.

(** X27.  The adstock transform is linear in the series: scaling the
    input scales the output, and the transform of the sum of two series
    over the same index is the sum of their transforms. *)
Theorem apply_adstock_linear (x x' : Series.t) (rate c : Qc) :
  apply_adstock (scale c x) rate = scale c (apply_adstock x rate) ∧
  (length x = length x' →
   apply_adstock (add x x') rate = add (apply_adstock x rate) (apply_adstock x' rate)).
Proof.
  split.
  - apply (is_adstock_unique (scale c x) _ _ rate).
    + apply apply_adstock_is_adstock.
    + apply is_adstock_scale, apply_adstock_is_adstock.
  - intros Hlen. apply (is_adstock_unique (add x x') _ _ rate).
    + apply apply_adstock_is_adstock.
    + apply is_adstock_add; [done | apply apply_adstock_is_adstock..].
Qed.

Lemma qsum_seq_snoc (f : nat → Qc) (n : nat) :
  qsum f (seq 0 (S n)) = qsum f (seq 0 n) + f n.
Proof. rewrite seq_S, qsum_app. simpl. ring. Qed.

(** X28.  Geometric decay: the adstocked value at position [i] is the
    sum over the positions [j ≤ i] of [rate^(i-j)] times the input at
    [j]. *)
Theorem apply_adstock_geometric (x : Series.t) (rate : Qc) (i : nat) :
  (i < length x)%nat →
  iloc (apply_adstock x rate) i
  = qsum (λ j, rate ^ (i - j) * iloc x j) (seq 0 (S i)).
Proof.
  destruct (apply_adstock_is_adstock x rate) as (Hl & H0 & Hrec).
  induction i as [|i IH]; intros Hi.
  - unfold iloc at 1. rewrite H0. fold (iloc x 0). simpl. ring.
  - rewrite (iloc_lookup _ _ _ (Hrec (S i) ltac:(lia))).
    replace (S i - 1)%nat with i by lia. rewrite IH by lia.
    rewrite (qsum_seq_snoc _ (S i)). rewrite Nat.sub_diag.
    rewrite <- qsum_scale.
    rewrite (qsum_ext (λ j, rate * (rate ^ (i - j) * iloc x j))
                      (λ j, rate ^ (S i - j) * iloc x j)).
    + simpl. ring.
    + intros j Hj. apply elem_of_seq in Hj.
      replace (S i - j)%nat with (S (i - j)) by lia. simpl. ring.
Qed.

Lemma apply_adstock_geometric_witness :
  iloc (apply_adstock [qz 8; qz 4; qz 2] (qf 1 2)) 2
  = qsum (λ j, qf 1 2 ^ (2 - j) * iloc [qz 8; qz 4; qz 2] j) (seq 0 3).
Proof.
  apply (apply_adstock_geometric [qz 8; qz 4; qz 2] (qf 1 2) 2). simpl. lia.
Defined.

End AdstockLinear.

(** * The patched decomposition *)

Module PatchedDecompositionSpec.

Import Series SeriesFacts PyDict PyDictFacts Frame Py Stats LinearModels Decomposition.
Import SumFacts ReconciliationSpec ConservationSpec GroupDecomposition DefaultDecompositionSpec.

(** The grouping loop only creates columns named after groups. *)
Lemma group_fold_keys (Q : string → Prop) n (groups : list (string * GroupInfo))
    (l : list (string * Series.t)) st :
  Forall (λ g : string * GroupInfo, Q (Group g.2)) groups →
  Forall (λ c : string * Series.t, Q c.1) st.1 →
  Forall (λ c : string * Series.t, Q c.1) (foldl (group_step n groups) st l).1.
Proof.
  intros Hgroups. revert st. induction l as [|item l IH]; intros st Hst; cbn [foldl]; [done|].
  apply IH. unfold group_step.
  destruct (get item.1 groups) as [g|] eqn:Hg; [|done].
  pose proof (Forall_get _ _ _ _ Hgroups Hg) as HQ. cbn [snd] in HQ.
  assert (Hgrouped : Forall (λ c : string * Series.t, Q c.1)
                       (if mem (Group g) st.1 then st.1
                        else set (Group g) (Series.const n 0) st.1)).
  { destruct (mem (Group g) st.1); [done|]. by apply Forall_set. }
  repeat case_decide; cbn [fst]; by apply Forall_set.
Qed.

Lemma foldl_assign_get (l : list (string * Series.t)) df w :
  (∀ c, c ∈ l → c.1 ≠ w) →
  get w (columns (foldl (λ df g, assign g.1 g.2 df) df l)) = get w (columns df).
Proof.
  revert df. induction l as [|c l IH]; intros df Hl; cbn [foldl]; [done|].
  rewrite IH by (intros c' Hc'; apply Hl; by right).
  cbn [columns assign]. apply get_set_ne. apply Hl. left.
Qed.

(** Without a column of their name the weighted variables change
    nothing in a table. *)
Lemma expand_absent (ws : list (string * WgtdInfo)) df :
  (∀ w, w ∈ keys ws → get w (columns df) = None) →
  foldl expand_variable df ws = df.
Proof.
  induction ws as [|w ws IH]; intros Habs; cbn [foldl]; [done|].
  assert (Hw : expand_variable df w = df).
  { unfold expand_variable. rewrite (Habs w.1); [done|]. unfold keys. csimpl. left. }
  rewrite Hw. apply IH. intros w' Hw'. apply Habs. unfold keys in *. csimpl. by right.
Qed.

(** X29.  The patched [calculate_decomposition] (the original followed
    by [expand_weighted_variable_contributions]) returns what the
    original returns, unless a group, or one of the columns ["Actual"]
    and ["Predicted"], bears the name of a weighted variable of the
    model: the table it is given has group columns, so there is
    nothing to expand. *)
Theorem patched_decomposition_is_original
    (m : LinearModel) (groups : list (string * GroupInfo)) :
  (∀ w, w ∈ keys (default [] (wgtd_variables m)) →
        w ≠ "Actual" ∧ w ≠ "Predicted" ∧
        Forall (λ g : string * GroupInfo, Group g.2 ≠ w) groups) →
  new_calculate_decomposition m groups = calculate_decomposition m groups.
Proof.
  intros Hnames. unfold new_calculate_decomposition.
  destruct (calculate_decomposition m groups) as [out|e] eqn:Hout; [|done].
  f_equal. unfold expand_weighted_variable_contributions.
  destruct (wgtd_variables m) as [ws|] eqn:Hws; [|done].
  destruct ws as [|w0 ws0] eqn:Hws0; [done|]. rewrite <- Hws0 in *. clear Hws0 w0 ws0.
  cbn [default from_option id] in Hnames.
  apply expand_absent. intros w Hw. destruct (Hnames w Hw) as (Ha & Hp & Hg).
  revert Hout. unfold calculate_decomposition.
  destruct (model_data m) as [data|]; [|done].
  destruct (results m) as [res|]; [|done].
  destruct (kpi m) as [k|]; [|done].
  destruct (column data k) as [actual|]; [|done].
  intros [= <-]. rewrite foldl_assign_get.
  - cbn [columns assign Frame.empty]. rewrite !get_set_ne by congruence. done.
  - intros c Hc.
    assert (Hall : Forall (λ c : string * Series.t, c.1 ≠ w)
                     (add_total_adjustment
                        (grouped_and_adjustments m res data groups).1
                        (grouped_and_adjustments m res data groups).2)).
    { apply Forall_forall. intros c' Hc'.
      assert (Hk : c'.1 ∈ keys (add_total_adjustment
                                  (grouped_and_adjustments m res data groups).1
                                  (grouped_and_adjustments m res data groups).2)).
      { apply list_elem_of_fmap. by exists c'. }
      rewrite add_total_adjustment_keys in Hk.
      apply list_elem_of_fmap in Hk as (c'' & -> & Hc'').
      revert c'' Hc''. apply Forall_forall.
      unfold grouped_and_adjustments. cbv zeta.
      apply (group_fold_keys (λ name, name ≠ w)); [|constructor].
      by apply (process_weighted_groups (λ g, Group g ≠ w)). }
    rewrite Forall_forall in Hall. by apply Hall.
Qed.

Lemma patched_decomposition_is_original_witness :
  new_calculate_decomposition Fixtures.m_wgtd_pos Fixtures.groups_wgtd_pos
  = calculate_decomposition Fixtures.m_wgtd_pos Fixtures.groups_wgtd_pos.
Proof.
  apply (patched_decomposition_is_original Fixtures.m_wgtd_pos Fixtures.groups_wgtd_pos).
  intros w Hw. assert (w = "Mix|WGTD") as ->.
  { revert Hw. change (keys (default [] (wgtd_variables Fixtures.m_wgtd_pos)))
      with ["Mix|WGTD"]. intros Hw. by apply list_elem_of_singleton in Hw. }
  split; [by_compute|]. split; by_compute.
Defined.

End PatchedDecompositionSpec.
